(** * Phoneme-level pronunciation scoring: a shallow embedding

    The development follows the three Python modules of the scoring core:

    - [PhonemeScorer]            (音素评分模块.py)
    - [AcousticFeatureExtractor] (音素特征提取.py)
    - [PhonemeAligner]           (音素特征提取.py)
    - [PronunciationQualityAssessor] (音素特征提取.py)
    - [Scoring]                  (发音评分模块.py, the entry point)
    - [Api]                      (app.py, the two routes that call it)

    Conventions.
    - A Python [str] is a Rocq [string] holding its UTF-8 encoding; iteration
      over a [str] goes through [Py.chars], which regroups the bytes of each
      code point.  What Python decides with the Unicode character database
      (lower-casing, white space and the regex class [\w] outside ASCII) is a
      parameter [Py.Unicode]; on ASCII text everything is computed.
    - A Python [float] is a rational number ([Q]): arithmetic is exact, and
      equalities between floats are stated with [==].  The properties are
      worded so that they do not rest on an identity that rounding breaks:
      they bound a value that was clamped, compare a value with the one
      handed on, or name the expression the program evaluates.  Where
      binary64 decides, [Binary64] evaluates the alignments on primitive
      floats.
    - A [dict] is a [gmap]; [list(set(xs))] keeps the first occurrence of
      every element (Python leaves the order unspecified).
    - Third-party numerical code (librosa, scipy, the speech model) is an
      oracle passed as an argument; the [try]/[except] structure around the
      calls is embedded as written. *)

From Stdlib Require Import Ascii QArith Qround Qminmax Qabs Lia Lqa.
From stdpp Require Import gmap strings list.
From Stdlib Require Floats.

Set Warnings "-abstract-large-number".

(** ** Rational helpers *)

Definition Qltb (x y : Q) : bool := negb (Qle_bool y x).
Definition Qgtb (x y : Q) : bool := Qltb y x.
Definition Qgeb (x y : Q) : bool := Qle_bool y x.

(** Python's built-in [max(a, b)] and [min(a, b)]: the first argument is
    kept unless the second is strictly larger (smaller). *)
Definition py_max (a b : Q) : Q := if Qltb a b then b else a.
Definition py_min (a b : Q) : Q := if Qltb b a then b else a.

Definition Qsum (l : list Q) : Q := foldl Qplus 0%Q l.

(** [np.mean] of a non-empty sequence. *)
Definition np_mean (l : list Q) : Q := (Qsum l / inject_Z (Z.of_nat (length l)))%Q.

Definition QofNat (n : nat) : Q := inject_Z (Z.of_nat n).

(** [np.max] and [np.min] of a non-empty sequence. *)
Definition np_max (l : list Q) : Q := foldl py_max (hd 0%Q l) l.
Definition np_min (l : list Q) : Q := foldl py_min (hd 0%Q l) l.

Definition QofPos (p : positive) : Q := inject_Z (Zpos p).

(** [int(x)] for a float [x >= 0] *)
Definition py_int (x : Q) : nat := Z.to_nat (Qfloor x).

(** [round(x, 1)]: to one decimal, ties to the even digit *)
Definition py_round1 (x : Q) : Q :=
  let y := (x * 10)%Q in
  let f := Qfloor y in
  let d := (y - inject_Z f)%Q in
  let n := if Qltb d 0.5 then f
           else if Qltb 0.5 d then (f + 1)%Z
           else if Z.even f then f else (f + 1)%Z in
  (inject_Z n / 10)%Q.

(** [xs[a:b]] for [0 <= a] and [0 <= b] *)
Definition py_slice {A} (xs : list A) (a b : nat) : list A := take (b - a) (drop a xs).

(** ** The Python runtime *)

Module Py.

(** What the Unicode character database decides outside ASCII. *)
Record Unicode := {
  uc_lower : string -> string;    (* [str.lower] of a string that is not pure ASCII *)
  uc_isspace : string -> bool;    (* is this non-ASCII code point white space *)
  uc_isword : string -> bool      (* does the regex class [\w] hold of this non-ASCII code point *)
}.

(** A database that fits the IPA letters and the CJK ideographs the program
    itself manipulates: letters without case, none of them white space. *)
Definition letters_only : Unicode :=
  {| uc_lower := fun s => s; uc_isspace := fun _ => false; uc_isword := fun _ => true |}.

Definition is_continuation_byte (c : ascii) : bool :=
  let n := nat_of_ascii c in (128 <=? n) && (n <? 192).

Definition starts_with_continuation (s : string) : bool :=
  match s with
  | String c _ => is_continuation_byte c
  | EmptyString => false
  end.

(** The code points of a string, each as the string of its UTF-8 bytes. *)
Fixpoint chars (s : string) : list string :=
  match s with
  | EmptyString => []
  | String c rest =>
      match chars rest with
      | x :: xs =>
          if starts_with_continuation x then String c x :: xs
          else String c EmptyString :: x :: xs
      | [] => [String c EmptyString]
      end
  end.

(** [len(s)] *)
Definition len (s : string) : nat := length (chars s).

Definition join (l : list string) : string := foldr String.append EmptyString l.

Definition ascii_code (ch : string) : option nat :=
  match ch with
  | String c EmptyString =>
      let n := nat_of_ascii c in if n <? 128 then Some n else None
  | _ => None
  end.

Fixpoint is_ascii (s : string) : bool :=
  match s with
  | EmptyString => true
  | String c rest => (nat_of_ascii c <? 128) && is_ascii rest
  end.

Definition ascii_lower (c : ascii) : ascii :=
  let n := nat_of_ascii c in
  if (65 <=? n) && (n <=? 90) then ascii_of_nat (n + 32) else c.

Fixpoint map_bytes (f : ascii -> ascii) (s : string) : string :=
  match s with
  | EmptyString => EmptyString
  | String c rest => String (f c) (map_bytes f rest)
  end.

(** [a in b] for two strings *)
Fixpoint str_in (needle hay : string) : bool :=
  String.prefix needle hay ||
  match hay with
  | EmptyString => false
  | String _ rest => str_in needle rest
  end.

Section Str.
Variable U : Unicode.

(** [s.lower()] *)
Definition lower (s : string) : string :=
  if is_ascii s then map_bytes ascii_lower s else uc_lower U s.

(** white space as [str.split] and [str.strip] see it *)
Definition isspace (ch : string) : bool :=
  match ascii_code ch with
  | Some n => ((9 <=? n) && (n <=? 13)) || ((28 <=? n) && (n <=? 32))
  | None => uc_isspace U ch
  end.

(** the regex class [\w] *)
Definition isword (ch : string) : bool :=
  match ascii_code ch with
  | Some n =>
      ((48 <=? n) && (n <=? 57)) || ((65 <=? n) && (n <=? 90))
      || ((97 <=? n) && (n <=? 122)) || (n =? 95)
  | None => uc_isword U ch
  end.

Fixpoint split_chars (cur : string) (cs : list string) : list string :=
  match cs with
  | [] => if String.eqb cur EmptyString then [] else [cur]
  | c :: rest =>
      if isspace c then
        (if String.eqb cur EmptyString then split_chars EmptyString rest
         else cur :: split_chars EmptyString rest)
      else split_chars (cur +:+ c) rest
  end.

(** [s.split()] *)
Definition split (s : string) : list string := split_chars EmptyString (chars s).

Fixpoint lstrip_chars (cs : list string) : list string :=
  match cs with
  | c :: rest => if isspace c then lstrip_chars rest else cs
  | [] => []
  end.

(** [s.strip()] *)
Definition strip (s : string) : string :=
  join (rev (lstrip_chars (rev (lstrip_chars (chars s))))).

(** [re.sub(r'[^\w]', '', s)] *)
Definition re_sub_nonword (s : string) : string :=
  join (filter (fun ch => isword ch = true) (chars s)).
End Str.

(** [list(set(xs))], first occurrences kept *)
Fixpoint list_set (xs : list string) : list string :=
  match xs with
  | [] => []
  | x :: rest => x :: filter (fun y => y <> x) (list_set rest)
  end.

(** Exceptions, with the message [str(e)] gives back. *)
Inductive Exception :=
| ImportError (msg : string)
| ValueError (msg : string)
| FileNotFoundError (msg : string)
| RuntimeError (msg : string)
| LibraryError (msg : string).   (* anything raised inside third-party code *)

Definition str_of_exception (e : Exception) : string :=
  match e with
  | ImportError m | ValueError m | FileNotFoundError m
  | RuntimeError m | LibraryError m => m
  end.

Inductive outcome (A : Type) :=
| Return (a : A)
| Raise (e : Exception).
Arguments Return {A} a.
Arguments Raise {A} e.

End Py.

(** ** 音素评分模块.py *)

Module PhonemeScorer.

Record t := {
  phoneme_map : gmap string string;
  duration_thresholds : gmap string (Q * Q)
}.

Definition _load_phoneme_map : gmap string string :=
  list_to_map [
    ("a", "æ"); ("e", "e"); ("i", "ɪ"); ("o", "ɒ"); ("u", "ʊ");
    ("ah", "ʌ"); ("ay", "aɪ"); ("aw", "aʊ"); ("oy", "ɔɪ");
    ("ee", "iː"); ("oo", "uː"); ("er", "ɜː"); ("ar", "ɑː");
    ("p", "p"); ("b", "b"); ("t", "t"); ("d", "d"); ("k", "k"); ("g", "g");
    ("f", "f"); ("v", "v"); ("th", "θ"); ("dh", "ð"); ("s", "s"); ("z", "z");
    ("sh", "ʃ"); ("zh", "ʒ"); ("ch", "tʃ"); ("j", "dʒ");
    ("m", "m"); ("n", "n"); ("ng", "ŋ"); ("l", "l"); ("r", "r");
    ("w", "w"); ("y", "j"); ("h", "h") ].

Definition _load_duration_thresholds : gmap string (Q * Q) :=
  list_to_map [
    ("æ", (0.08, 0.15)); ("ɪ", (0.06, 0.12)); ("ʊ", (0.06, 0.12));
    ("iː", (0.10, 0.20)); ("uː", (0.10, 0.20)); ("ɜː", (0.12, 0.25));
    ("p", (0.02, 0.08)); ("b", (0.03, 0.10)); ("t", (0.02, 0.08));
    ("d", (0.03, 0.10)); ("k", (0.02, 0.08)); ("g", (0.03, 0.10));
    ("f", (0.08, 0.15)); ("v", (0.06, 0.12)); ("s", (0.08, 0.18));
    ("z", (0.06, 0.15)); ("ʃ", (0.08, 0.16)); ("ʒ", (0.06, 0.14)) ]%Q.

Definition __init__ : t :=
  {| phoneme_map := _load_phoneme_map;
     duration_thresholds := _load_duration_thresholds |}.

(** The local table [phoneme_rules] of [text_to_phonemes]. *)
Definition text_to_phonemes_rules : list (string * list string) := [
    ("the", ["ð"; "ə"]);
    ("and", ["æ"; "n"; "d"]);
    ("have", ["h"; "æ"; "v"]);
    ("that", ["ð"; "æ"; "t"]);
    ("for", ["f"; "ɔː"]);
    ("are", ["ɑː"]);
    ("with", ["w"; "ɪ"; "θ"]);
    ("his", ["h"; "ɪ"; "z"]);
    ("they", ["ð"; "eɪ"]);
    ("this", ["ð"; "ɪ"; "s"]);
    ("from", ["f"; "r"; "ɒ"; "m"]);
    ("she", ["ʃ"; "iː"]);
    ("her", ["h"; "ɜː"]);
    ("been", ["b"; "iː"; "n"]);
    ("than", ["ð"; "æ"; "n"]);
    ("its", ["ɪ"; "t"; "s"]);
    ("now", ["n"; "aʊ"]);
    ("more", ["m"; "ɔː"]);
    ("very", ["v"; "e"; "r"; "ɪ"]);
    ("what", ["w"; "ɒ"; "t"]);
    ("know", ["n"; "əʊ"]);
    ("just", ["dʒ"; "ʌ"; "s"; "t"]);
    ("first", ["f"; "ɜː"; "s"; "t"]);
    ("time", ["t"; "aɪ"; "m"]);
    ("people", ["p"; "iː"; "p"; "ə"; "l"]) ].

(** The local table [phoneme_rules] of [map_words_to_phonemes]. *)
Definition map_words_to_phonemes_rules : list (string * list string) := [
    ("the", ["ð"; "ə"]);
    ("and", ["æ"; "n"; "d"]);
    ("have", ["h"; "æ"; "v"]);
    ("that", ["ð"; "æ"; "t"]);
    ("for", ["f"; "ɔː"]);
    ("are", ["ɑː"]);
    ("with", ["w"; "ɪ"; "θ"]);
    ("his", ["h"; "ɪ"; "z"]);
    ("they", ["ð"; "eɪ"]);
    ("this", ["ð"; "ɪ"; "s"]);
    ("from", ["f"; "r"; "ɒ"; "m"]);
    ("she", ["ʃ"; "iː"]);
    ("her", ["h"; "ɜː"]);
    ("been", ["b"; "iː"; "n"]);
    ("than", ["ð"; "æ"; "n"]);
    ("its", ["ɪ"; "t"; "s"]);
    ("now", ["n"; "aʊ"]);
    ("more", ["m"; "ɔː"]);
    ("very", ["v"; "e"; "r"; "ɪ"]);
    ("what", ["w"; "ɒ"; "t"]);
    ("know", ["n"; "əʊ"]);
    ("just", ["dʒ"; "ʌ"; "s"; "t"]);
    ("first", ["f"; "ɜː"; "s"; "t"]);
    ("time", ["t"; "aɪ"; "m"]);
    ("people", ["p"; "iː"; "p"; "ə"; "l"]);
    ("good", ["g"; "ʊ"; "d"]);
    ("work", ["w"; "ɜː"; "k"]);
    ("school", ["s"; "k"; "uː"; "l"]);
    ("world", ["w"; "ɜː"; "l"; "d"]);
    ("great", ["g"; "r"; "eɪ"; "t"]);
    ("think", ["θ"; "ɪ"; "ŋ"; "k"]);
    ("way", ["w"; "eɪ"]);
    ("make", ["m"; "eɪ"; "k"]);
    ("today", ["t"; "ə"; "d"; "eɪ"]);
    ("help", ["h"; "e"; "l"; "p"]);
    ("home", ["h"; "əʊ"; "m"]);
    ("nice", ["n"; "aɪ"; "s"]);
    ("happy", ["h"; "æ"; "p"; "ɪ"]);
    ("love", ["l"; "ʌ"; "v"]);
    ("like", ["l"; "aɪ"; "k"]);
    ("want", ["w"; "ɒ"; "n"; "t"]);
    ("need", ["n"; "iː"; "d"]);
    ("thank", ["θ"; "æ"; "ŋ"; "k"]);
    ("you", ["j"; "uː"]);
    ("hello", ["h"; "ə"; "l"; "əʊ"]);
    ("water", ["w"; "ɔː"; "t"; "ər"]);
    ("food", ["f"; "uː"; "d"]);
    ("money", ["m"; "ʌ"; "n"; "ɪ"]);
    ("house", ["h"; "aʊ"; "s"]);
    ("friend", ["f"; "r"; "e"; "n"; "d"]);
    ("family", ["f"; "æ"; "m"; "ɪ"; "l"; "ɪ"]);
    ("book", ["b"; "ʊ"; "k"]);
    ("music", ["m"; "j"; "uː"; "z"; "ɪ"; "k"]);
    ("beautiful", ["b"; "j"; "uː"; "t"; "ɪ"; "f"; "ʊ"; "l"]);
    ("important", ["ɪ"; "m"; "p"; "ɔː"; "t"; "ə"; "n"; "t"]);
    ("different", ["d"; "ɪ"; "f"; "ər"; "ə"; "n"; "t"]);
    ("because", ["b"; "ɪ"; "k"; "ɒ"; "z"]) ].

Section Text.
Variable U : Py.Unicode.
Variable self : t.

Definition text_to_phonemes (text : string) : list string :=
  let text := Py.strip U (Py.lower U text) in
  let words := Py.split U text in
  let phoneme_rules : gmap string (list string) := list_to_map text_to_phonemes_rules in
  foldl (fun phonemes word =>
           let word_clean := Py.re_sub_nonword U word in
           match phoneme_rules !! word_clean with
           | Some rule => phonemes ++ rule
           | None =>
               foldl (fun phonemes char =>
                        match phoneme_map self !! char with
                        | Some p => phonemes ++ [p]
                        | None => phonemes ++ [char]
                        end) phonemes (Py.chars word_clean)
           end) [] words.

Definition map_words_to_phonemes (words : list string) : gmap string (list string) :=
  let phoneme_rules : gmap string (list string) := list_to_map map_words_to_phonemes_rules in
  foldl (fun word_phoneme_mapping word =>
           let word_clean := Py.re_sub_nonword U (Py.lower U word) in
           match phoneme_rules !! word_clean with
           | Some rule => <[word_clean := rule]> word_phoneme_mapping
           | None =>
               let phonemes :=
                 foldl (fun phonemes char =>
                          match phoneme_map self !! char with
                          | Some p => phonemes ++ [p]
                          | None => phonemes ++ [char]
                          end) [] (Py.chars word_clean) in
               <[word_clean := phonemes]> word_phoneme_mapping
           end) ∅ words.

(** The phonemes the word mapping gives for the words of a text, in the
    order of the text: the words are split and looked up the way
    [analyze_pronunciation_detailed] and [analyze_word_pronunciation] do. *)
Definition mapped_phonemes_of_text (text : string) : list string :=
  let words := Py.split U (Py.lower U text) in
  let word_phoneme_mapping := map_words_to_phonemes words in
  flat_map (fun word =>
              let word_clean := Py.re_sub_nonword U (Py.lower U word) in
              default [] (word_phoneme_mapping !! word_clean)) words.
End Text.


(** *** Acoustic features

    A feature dictionary maps a name to a number, a vector or a matrix.
    The scoring rules read numbers and the vector ['mfcc_mean']; a key whose
    value has another shape than the extractors give it is read as absent. *)

Inductive fvalue :=
| FNum (x : Q)
| FVec (v : list Q)
| FMat (m : list (list Q)).

Definition fnum (features : gmap string fvalue) (key : string) : option Q :=
  match features !! key with
  | Some (FNum x) => Some x
  | _ => None
  end.

Definition fvec (features : gmap string fvalue) (key : string) : option (list Q) :=
  match features !! key with
  | Some (FVec v) => Some v
  | _ => None
  end.

(** [np.var]: the mean of the squared deviations from the mean. *)
Definition np_var (v : list Q) : Q :=
  let m := np_mean v in np_mean (map (fun x => (x - m) * (x - m))%Q v).

(** [np.std(v) > c] for a threshold [c >= 0], decided on the variance: the
    standard deviation itself is a square root. *)
Definition np_std_gt (v : list Q) (c : Q) : bool := Qgtb (np_var v) (c * c).

(** What the third-party numerical code computes in the [try] block of
    [extract_acoustic_features], when it does not raise. *)
Record AcousticStats := {
  st_f0 : list Q;
  st_f0_mean : Q;
  st_f0_std : Q;
  st_mfcc : list (list Q);
  st_mfcc_mean : list Q;
  st_mfcc_std : list Q;
  st_spectral_centroid_mean : Q;
  st_spectral_bandwidth_mean : Q;
  st_energy_mean : Q;
  st_energy_std : Q;
  st_zcr_mean : Q
}.

(** The external collaborators of the scorer. *)
Record Backend := {
  (* librosa.yin, librosa.feature.* and the numpy reductions over them *)
  acoustic_stats : list Q -> positive -> Py.outcome AcousticStats;
  (* processor(...), wav2vec2_model(...).logits and torch.argmax *)
  ctc_predict : list Q -> positive -> Py.outcome unit
}.

Definition str_in_list (x : string) (l : list string) : bool := existsb (String.eqb x) l.

Section Rules.
Variable self : t.

(** The successive blocks of [score_phoneme_quality]; each one updates the
    pair of local variables [(score, issues)]. *)

(* 更严格的时长评估 *)
Definition duration_rule (phoneme : string) (duration : Q)
    (st : Q * list string) : Q * list string :=
  let '(score, issues) := st in
  match duration_thresholds self !! phoneme with
  | Some (min_dur, max_dur) =>
      if Qltb duration (min_dur * 0.7) then
        (score - 30, issues ++ ["音素'" +:+ phoneme +:+ "'发音过短，需要更充分的发声"])%Q
      else if Qltb duration min_dur then
        (score - 20, issues ++ ["音素'" +:+ phoneme +:+ "'发音略短"])%Q
      else if Qgtb duration (max_dur * 1.5) then
        (score - 25, issues ++ ["音素'" +:+ phoneme +:+ "'发音过长，注意控制节奏"])%Q
      else if Qgtb duration max_dur then
        (score - 15, issues ++ ["音素'" +:+ phoneme +:+ "'发音略长"])%Q
      else (score, issues)
  | None => (score, issues)
  end.

(* 基于MFCC的质量评估 *)
Definition mfcc_rule (phoneme : string) (features : gmap string fvalue)
    (st : Q * list string) : Q * list string :=
  let '(score, issues) := st in
  match fvec features "mfcc_mean" with
  | Some mfcc_mean =>
      if (0 <? length mfcc_mean)%nat then
        if np_std_gt mfcc_mean 30 then
          (score - 20, issues ++ ["音素'" +:+ phoneme +:+ "'发音不稳定，可能存在紧张或不确定"])%Q
        else if np_std_gt mfcc_mean 20 then
          (score - 10, issues ++ ["音素'" +:+ phoneme +:+ "'发音稍显不稳定"])%Q
        else (score, issues)
      else (score, issues)
  | None => (score, issues)
  end.

(* 更严格的能量评估 *)
Definition energy_rule (phoneme : string) (features : gmap string fvalue)
    (st : Q * list string) : Q * list string :=
  let '(score, issues) := st in
  match fnum features "energy_mean" with
  | Some energy_mean =>
      if Qltb energy_mean 0.005 then
        (score - 25, issues ++ ["音素'" +:+ phoneme +:+ "'发音能量不足，需要更加清晰有力的发声"])%Q
      else if Qltb energy_mean 0.01 then
        (score - 15, issues ++ ["音素'" +:+ phoneme +:+ "'发音能量较低"])%Q
      else (score, issues)
  | None => (score, issues)
  end.

(* 更严格的频谱质心评估 *)
Definition centroid_rule (phoneme : string) (features : gmap string fvalue)
    (st : Q * list string) : Q * list string :=
  let '(score, issues) := st in
  match fnum features "spectral_centroid_mean" with
  | Some centroid =>
      if str_in_list phoneme ["s"; "ʃ"; "f"; "θ"] then
        if Qltb centroid 2500 then
          (score - 20, issues ++ ["高频摩擦音'" +:+ phoneme +:+ "'高频成分不足，需要更明显的摩擦声"])%Q
        else (score, issues)
      else if str_in_list phoneme ["æ"; "ɑː"; "ɒ"] then
        if Qgtb centroid 1500 then
          (score - 15, issues ++ ["低频元音'" +:+ phoneme +:+ "'音色偏高，需要更低的舌位"])%Q
        else (score, issues)
      else if str_in_list phoneme ["iː"; "ɪ"] then
        if Qltb centroid 1000 || Qgtb centroid 2200 then
          (score - 15, issues ++ ["高元音'" +:+ phoneme +:+ "'舌位不准确，需要调整口型"])%Q
        else (score, issues)
      else (score, issues)
  | None => (score, issues)
  end.

Definition classify_phoneme_detailed (phoneme : string) : string :=
  let vowels := ["æ"; "ɪ"; "ʊ"; "iː"; "uː"; "ɜː"; "ʌ"; "aɪ"; "aʊ"; "ɔɪ"; "e"; "ɒ"; "ɑː"] in
  let fricatives := ["f"; "v"; "s"; "z"; "ʃ"; "ʒ"; "θ"; "ð"; "h"] in
  let stops := ["p"; "b"; "t"; "d"; "k"; "g"] in
  let affricates := ["tʃ"; "dʒ"] in
  let nasals := ["m"; "n"; "ŋ"] in
  let liquids := ["l"; "r"] in
  let glides := ["w"; "j"] in
  if str_in_list phoneme vowels then
    if str_in_list phoneme ["æ"; "ɑː"; "ɒ"] then "low_vowel"
    else if str_in_list phoneme ["iː"; "ɪ"; "uː"; "ʊ"] then "high_vowel"
    else if str_in_list phoneme ["e"; "ɜː"; "ʌ"] then "mid_vowel"
    else "diphthong"
  else if str_in_list phoneme fricatives then
    if str_in_list phoneme ["s"; "z"; "ʃ"; "ʒ"] then "sibilant_fricative"
    else "non_sibilant_fricative"
  else if str_in_list phoneme stops then
    if str_in_list phoneme ["p"; "t"; "k"] then "voiceless_stop"
    else "voiced_stop"
  else if str_in_list phoneme affricates then "affricate"
  else if str_in_list phoneme nasals then "nasal"
  else if str_in_list phoneme liquids then "liquid"
  else if str_in_list phoneme glides then "glide"
  else "unknown".

Definition check_phoneme_type_quality (phoneme phoneme_type : string)
    (features : gmap string fvalue) (duration : Q) : list string :=
  let issues : list string := [] in
  if String.eqb phoneme_type "low_vowel" then
    match fnum features "f1" with
    | Some f1 =>
        if Qgtb f1 0 && Qltb f1 600 then
          issues ++ ["低元音'" +:+ phoneme +:+ "'开口度不够，需要更大的张口"]
        else issues
    | None => issues
    end
  else if String.eqb phoneme_type "high_vowel" then
    match fnum features "f1" with
    | Some f1 =>
        if Qgtb f1 0 && Qgtb f1 450 then
          issues ++ ["高元音'" +:+ phoneme +:+ "'舌位过低，需要提高舌位"]
        else issues
    | None => issues
    end
  else if String.eqb phoneme_type "sibilant_fricative" then
    match fnum features "zcr_mean" with
    | Some zcr_mean =>
        if Qltb zcr_mean 0.15 then
          issues ++ ["喙音'" +:+ phoneme +:+ "'摩擦声不够明显，需要更明显的气流摩擦"]
        else issues
    | None => issues
    end
  else if String.eqb phoneme_type "voiceless_stop" then
    match fnum features "energy_max", fnum features "energy_mean" with
    | Some energy_max, Some energy_mean =>
        if Qgtb energy_mean 0 then
          let energy_ratio := (energy_max / energy_mean)%Q in
          if Qltb energy_ratio 2.5 then
            issues ++ ["清音爆破音'" +:+ phoneme +:+ "'爆破特征不明显，需要更明显的爆破壴"]
          else issues
        else issues
    | _, _ => issues
    end
  else if String.eqb phoneme_type "voiced_stop" then
    match fnum features "voicing_rate" with
    | Some voicing_rate =>
        if Qltb voicing_rate 0.6 then
          issues ++ ["浊音爆破音'" +:+ phoneme +:+ "'浊音程度不足，需要更多声带振动"]
        else issues
    | None => issues
    end
  else if String.eqb phoneme_type "nasal" then
    match fnum features "f1" with
    | Some f1 =>
        if Qgtb f1 0 && Qgtb f1 500 then
          issues ++ ["鼻音'" +:+ phoneme +:+ "'鼻腔共鸣不足，注意软腊下降"]
        else issues
    | None => issues
    end
  else issues.

(* 新增：更细致的音素类别检查 *)
Definition type_rule (phoneme : string) (features : gmap string fvalue) (duration : Q)
    (st : Q * list string) : Q * list string :=
  let '(score, issues) := st in
  let phoneme_type := classify_phoneme_detailed phoneme in
  let type_issues := check_phoneme_type_quality phoneme phoneme_type features duration in
  (score - QofNat (length type_issues) * 8, issues ++ type_issues)%Q.

Definition score_phoneme_quality (phoneme : string) (features : gmap string fvalue)
    (duration : Q) : Q * list string :=
  let st : Q * list string := (80, [])%Q in
  let st := duration_rule phoneme duration st in
  let st := mfcc_rule phoneme features st in
  let st := energy_rule phoneme features st in
  let st := centroid_rule phoneme features st in
  let '(score, issues) := type_rule phoneme features duration st in
  (py_max 0 (py_min 100 score), issues).

Definition get_quality_level (score : Q) : string :=
  if Qgeb score 90 then "excellent"
  else if Qgeb score 75 then "good"
  else if Qgeb score 60 then "fair"
  else "poor".
End Rules.

Record PhonemeScore := {
  phoneme : string;
  start_time : Q;
  end_time : Q;
  score : Q;
  confidence : Q;
  quality : string;
  issues : list string
}.

(** One entry of the list [analyze_word_pronunciation] returns (a [dict]
    with these keys in the source). *)
Record WordScore := {
  w_word : string;
  w_score : Q;
  w_quality : string;
  w_phonemes : list string;
  w_phoneme_scores : list (string * Q * string * list string);
  w_issues : list string;
  w_suggestions : list string;
  w_needs_improvement : bool
}.

(** The fields of the result the properties below speak about; the
    suggestion texts and the duration and pitch summaries are left out. *)
Record DetailedPronunciationResult := {
  overall_score : Q;
  phoneme_scores : list PhonemeScore;
  word_scores : list WordScore;
  pronunciation_issues : list string
}.

Definition extract_acoustic_features (B : Backend) (audio_data : list Q) (sr : positive)
    : gmap string fvalue :=
  match acoustic_stats B audio_data sr with
  | Py.Return st =>
      list_to_map [
        ("f0", FVec (st_f0 st));
        ("f0_mean", FNum (st_f0_mean st));
        ("f0_std", FNum (st_f0_std st));
        ("mfcc", FMat (st_mfcc st));
        ("mfcc_mean", FVec (st_mfcc_mean st));
        ("mfcc_std", FVec (st_mfcc_std st));
        ("spectral_centroid_mean", FNum (st_spectral_centroid_mean st));
        ("spectral_bandwidth_mean", FNum (st_spectral_bandwidth_mean st));
        ("energy_mean", FNum (st_energy_mean st));
        ("energy_std", FNum (st_energy_std st));
        ("zcr_mean", FNum (st_zcr_mean st)) ]
  | Py.Raise _ => ∅
  end.

Definition force_align_ctc (B : Backend) (audio_data : list Q)
    (phoneme_sequence : list string) (sr : positive) : list (string * Q * Q) :=
  (* the same statements follow the model call and sit in its handler *)
  let uniform : list (string * Q * Q) :=
    let total_duration := (QofNat (length audio_data) / QofPos sr)%Q in
    let phoneme_count := length phoneme_sequence in
    if (phoneme_count =? 0)%nat then []
    else
      let avg_duration := (total_duration / QofNat phoneme_count)%Q in
      imap (fun i phoneme =>
              (phoneme, QofNat i * avg_duration, QofNat (i + 1) * avg_duration)%Q)
           phoneme_sequence in
  match ctc_predict B audio_data sr with
  | Py.Return _ => uniform
  | Py.Raise _ => uniform
  end.

Definition _get_word_specific_suggestions (word : string) (problematic_phonemes : list string)
    : list string :=
  let word_tips : gmap string string := list_to_map [
    ("the", "注意 'th' 的发音，舌尖轻触上齿");
    ("this", "'th' 和 'is' 要连接自然，不要停顿");
    ("that", "强调 'th' 的摩擦音和 'a' 的开口度");
    ("think", "'th' 和 'ink' 的连接要流畅");
    ("thank", "'th' + 'ank'，注意鼻音 'n'");
    ("with", "'w' 要圆唇，'th' 要清晰");
    ("water", "注意 'wa' 的双唇收缩和 'ter' 的卷舌音");
    ("work", "'w' 圆唇开始，'or' 要有适当的元音长度");
    ("world", "'w' + 'or' + 'ld'，最后的 'ld' 要清晰");
    ("beautiful", "注意重音在 'beau'，'ti' 要轻读");
    ("important", "重音在 'por'，注意每个音节的清晰度");
    ("different", "'dif' + 'fer' + 'ent'，注意重音分配");
    ("school", "'sch' 要连续发音，'ool' 要拖长");
    ("people", "'peo' + 'ple'，注意最后的轻音节");
    ("because", "'be' + 'cause'，重音在 'cause'") ] in
  let suggestions : list string :=
    match word_tips !! word with
    | Some tip => [tip]
    | None => []
    end in
  foldl (fun suggestions phoneme =>
           if String.eqb phoneme "θ" then
             suggestions ++ ["练习 'th' 音：舌尖轻触上齿，气流从舌齿间通过"]
           else if String.eqb phoneme "ð" then
             suggestions ++ ["浊 'th' 音要有声带振动，与清 'th' 区分"]
           else if String.eqb phoneme "r" then
             suggestions ++ ["英语 'r' 音：舌尖不触碰任何部位，轻微卷起"]
           else if String.eqb phoneme "l" then
             suggestions ++ ["'l' 音：舌尖抵住上齿龈，气流从舌侧流出"]
           else if str_in_list phoneme ["æ"; "ɑː"; "ɒ"] then
             suggestions ++ ["开口元音：需要更大的张口度和更低的舌位"]
           else if str_in_list phoneme ["iː"; "ɪ"] then
             suggestions ++ ["高元音：舌位要高，嘴型略扁"]
           else if str_in_list phoneme ["s"; "z"] then
             suggestions ++ ["'s/z' 音：舌尖接近上齿龈，保持狭窄缝隙"]
           else if str_in_list phoneme ["ʃ"; "ʒ"] then
             suggestions ++ ["'sh/zh' 音：舌身抬高，唇部略圆"]
           else suggestions) suggestions problematic_phonemes.

(** [', '.join(l)] *)
Fixpoint comma_join (l : list string) : string :=
  match l with
  | [] => EmptyString
  | [x] => x
  | x :: rest => x +:+ ", " +:+ comma_join rest
  end.

Definition is_empty {A} (l : list A) : bool :=
  match l with [] => true | _ => false end.

Definition _generate_word_suggestions (word : string) (phoneme_scores : list PhonemeScore)
    (issues : list string) : list string :=
  let suggestions : list string := [] in
  let poor_phonemes :=
    map phoneme (filter (fun ps => quality ps = "poor") phoneme_scores) in
  let fair_phonemes :=
    map phoneme (filter (fun ps => quality ps = "fair") phoneme_scores) in
  let timing_issues :=
    filter (fun issue => Py.str_in "过短" issue || Py.str_in "过长" issue = true) issues in
  let suggestions :=
    if is_empty timing_issues then suggestions
    else suggestions ++ ["单词 '" +:+ word +:+ "' 的发音节奏需要调整，注意每个音素的时长"] in
  let clarity_issues :=
    filter (fun issue => Py.str_in "不稳定" issue || Py.str_in "清晰" issue
                         || Py.str_in "能量不足" issue = true) issues in
  let suggestions :=
    if is_empty clarity_issues then suggestions
    else suggestions ++ ["单词 '" +:+ word +:+ "' 需要更清晰的发音，注意口型和发声"] in
  let suggestions :=
    if is_empty poor_phonemes then suggestions
    else
      let problematic_phonemes := comma_join (Py.list_set poor_phonemes) in
      suggestions ++ ["单词 '" +:+ word +:+ "' 中的音素 [" +:+ problematic_phonemes +:+ "] 需要重点练习"] in
  let suggestions :=
    if negb (is_empty fair_phonemes) && is_empty poor_phonemes then
      suggestions ++ ["单词 '" +:+ word +:+ "' 的发音基本正确，可以进一步完善"]
    else suggestions in
  let word_specific_suggestions :=
    _get_word_specific_suggestions word (poor_phonemes ++ fair_phonemes) in
  let suggestions := suggestions ++ word_specific_suggestions in
  if is_empty poor_phonemes && is_empty fair_phonemes
     && is_empty timing_issues && is_empty clarity_issues then
    suggestions ++ ["单词 '" +:+ word +:+ "' 的发音很好！"]
  else suggestions.

(** The search of [analyze_word_pronunciation] around the cursor: the first
    index of the window whose score carries the expected phoneme. *)
Fixpoint search_window (phoneme_scores : list PhonemeScore) (expected : string)
    (window : list nat) : option (PhonemeScore * nat) :=
  match window with
  | [] => None
  | i :: rest =>
      match phoneme_scores !! i with
      | Some ps =>
          if String.eqb (phoneme ps) expected then Some (ps, (i + 1)%nat)
          else search_window phoneme_scores expected rest
      | None => search_window phoneme_scores expected rest
      end
  end.

(** One turn of the loop [for phoneme in word_phonemes]; the state is
    [(current_phoneme_index, word_phoneme_scores, word_issues)]. *)
Definition resolve_phoneme (phoneme_scores : list PhonemeScore)
    (st : nat * list PhonemeScore * list string) (expected : string)
    : nat * list PhonemeScore * list string :=
  let '(current_phoneme_index, word_phoneme_scores, word_issues) := st in
  if (current_phoneme_index <? length phoneme_scores)%nat then
    let found :=
      match phoneme_scores !! current_phoneme_index with
      | Some ps =>
          if String.eqb (phoneme ps) expected then Some (ps, (current_phoneme_index + 1)%nat)
          else
            let lo := Nat.max 0 (current_phoneme_index - 2) in
            let hi := Nat.min (length phoneme_scores) (current_phoneme_index + 3) in
            search_window phoneme_scores expected (seq lo (hi - lo))
      | None => None
      end in
    match found with
    | Some (found_score, next_index) =>
        (next_index, word_phoneme_scores ++ [found_score], word_issues ++ issues found_score)
    | None => st
    end
  else st.

Section Words.
Variable U : Py.Unicode.

(** The entry for a word none of whose phonemes was found. *)
Definition unresolved_word (word_clean : string) (word_phonemes : list string) : WordScore :=
  {| w_word := word_clean;
     w_score := 0;
     w_quality := "unknown";
     w_phonemes := word_phonemes;
     w_phoneme_scores := [];
     w_issues := ["无法获取该单词的详细发音分析"];
     w_suggestions := ["请重点练习单词 '" +:+ word_clean +:+ "' 的发音"];
     w_needs_improvement := true |}.

(** One turn of the loop [for word in words]; the state is
    [(current_phoneme_index, word_scores)]. *)
Definition analyze_word (word_phoneme_mapping : gmap string (list string))
    (phoneme_scores : list PhonemeScore) (st : nat * list WordScore) (word : string)
    : nat * list WordScore :=
  let '(current_phoneme_index, word_scores) := st in
  let word_clean := Py.re_sub_nonword U (Py.lower U word) in
  match word_phoneme_mapping !! word_clean with
  | Some word_phonemes =>
      let '(current_phoneme_index, word_phoneme_scores, word_issues) :=
        foldl (resolve_phoneme phoneme_scores)
              (current_phoneme_index, [], []) word_phonemes in
      if negb (is_empty word_phoneme_scores) then
        let quality_weights : gmap string Q :=
          list_to_map [("excellent", 1.0); ("good", 1.1); ("fair", 1.3); ("poor", 1.5)]%Q in
        let weighted_scores :=
          map (fun ps => (score ps / default 1.0 (quality_weights !! quality ps))%Q)
              word_phoneme_scores in
        let word_score := np_mean weighted_scores in
        let severe_issues :=
          filter (fun issue => Py.str_in "过短" issue || Py.str_in "过长" issue
                               || Py.str_in "能量不足" issue || Py.str_in "不稳定" issue = true)
                 word_issues in
        let word_score :=
          if Qgtb (QofNat (length severe_issues)) (QofNat (length word_phonemes) * 0.3)
          then (word_score * 0.85)%Q else word_score in
        let word_quality := get_quality_level word_score in
        let word_suggestions :=
          _generate_word_suggestions word_clean word_phoneme_scores word_issues in
        let word_analysis :=
          {| w_word := word_clean;
             w_score := py_round1 word_score;
             w_quality := word_quality;
             w_phonemes := word_phonemes;
             w_phoneme_scores :=
               map (fun ps => (phoneme ps, score ps, quality ps, issues ps))
                   word_phoneme_scores;
             w_issues := Py.list_set word_issues;
             w_suggestions := word_suggestions;
             w_needs_improvement :=
               Qltb word_score 70 || (0 <? length severe_issues)%nat |} in
        (current_phoneme_index, word_scores ++ [word_analysis])
      else
        (current_phoneme_index, word_scores ++ [unresolved_word word_clean word_phonemes])
  | None => (current_phoneme_index, word_scores)
  end.

Definition analyze_word_pronunciation (words : list string)
    (word_phoneme_mapping : gmap string (list string))
    (phoneme_scores : list PhonemeScore) : list WordScore :=
  snd (foldl (analyze_word word_phoneme_mapping phoneme_scores) (0%nat, []) words).
End Words.

(** Step 7 of [analyze_pronunciation_detailed]: the utterance score from the
    phoneme scores and the issues collected along with them. *)
Definition compute_overall_score (phoneme_scores : list PhonemeScore)
    (all_issues : list string) : Q :=
  if negb (is_empty phoneme_scores) then
    let quality_weights : gmap string Q :=
      list_to_map [("excellent", 1.0); ("good", 0.9); ("fair", 0.7); ("poor", 0.4)]%Q in
    let weighted_scores :=
      map (fun ps =>
             let quality_weight := default 0.5%Q (quality_weights !! quality ps) in
             let adjusted_score := (score ps * confidence ps * quality_weight)%Q in
             adjusted_score) phoneme_scores in
    let base_score := if negb (is_empty weighted_scores) then np_mean weighted_scores else 0%Q in
    let penalty := 0%Q in
    let poor_ratio :=
      (QofNat (length (filter (fun ps => quality ps = "poor") phoneme_scores))
       / QofNat (length phoneme_scores))%Q in
    let fair_ratio :=
      (QofNat (length (filter (fun ps => quality ps = "fair") phoneme_scores))
       / QofNat (length phoneme_scores))%Q in
    let penalty :=
      if Qgtb poor_ratio 0.3 then (penalty + 15)%Q
      else if Qgtb poor_ratio 0.2 then (penalty + 10)%Q
      else penalty in
    let penalty := if Qgtb fair_ratio 0.4 then (penalty + 8)%Q else penalty in
    let total_issues := length all_issues in
    let penalty :=
      if Qgtb (QofNat total_issues) (QofNat (length phoneme_scores) * 0.5) then (penalty + 12)%Q
      else if Qgtb (QofNat total_issues) (QofNat (length phoneme_scores) * 0.3) then (penalty + 6)%Q
      else penalty in
    let severe_issues :=
      filter (fun issue => Py.str_in "过短" issue || Py.str_in "过长" issue
                           || Py.str_in "能量不足" issue = true) all_issues in
    let penalty := if (3 <? length severe_issues)%nat then (penalty + 10)%Q else penalty in
    let overall_score := py_max 0 (py_min 100 (base_score - penalty)) in
    let overall_score :=
      if Qgtb overall_score 85
         && (Qgtb poor_ratio 0.1 || (1 <? length severe_issues)%nat)
      then py_min 85 (overall_score - 5) else overall_score in
    let overall_score :=
      if Qgtb overall_score 75 && Qgtb poor_ratio 0.2
      then py_min 75 (overall_score - 5) else overall_score in
    overall_score
  else 0%Q.

Section Analysis.
Variable U : Py.Unicode.
Variable B : Backend.
Variable self : t.

(** Step 5: one turn of the loop over the alignments; the state is
    [(phoneme_scores, all_issues)]. *)
Definition score_alignment (audio_data : list Q) (sr : positive)
    (st : list PhonemeScore * list string) (alignment : string * Q * Q)
    : list PhonemeScore * list string :=
  let '(phoneme_scores, all_issues) := st in
  let '(phoneme, start_time, end_time) := alignment in
  let start_sample := py_int (start_time * QofPos sr) in
  let end_sample := py_int (end_time * QofPos sr) in
  let phoneme_audio := py_slice audio_data start_sample end_sample in
  if (0 <? length phoneme_audio)%nat then
    let phoneme_features := extract_acoustic_features B phoneme_audio sr in
    let duration := (end_time - start_time)%Q in
    let '(score, issues) := score_phoneme_quality self phoneme phoneme_features duration in
    let confidence := py_min 1.0 (py_max 0.3 (1.0 - QofNat (length issues) * 0.1)) in
    let phoneme_score :=
      {| phoneme := phoneme;
         start_time := start_time;
         end_time := end_time;
         score := score;
         confidence := confidence;
         quality := get_quality_level score;
         issues := issues |} in
    (phoneme_scores ++ [phoneme_score], all_issues ++ issues)
  else st.

(** No statement of the [try] block raises on a float buffer and a text,
    so the function is total and its handler is not entered. *)
Definition analyze_pronunciation_detailed (audio_data : list Q) (reference_text : string)
    (sr : positive) : DetailedPronunciationResult :=
  let phoneme_sequence := text_to_phonemes U self reference_text in
  let words := Py.split U (Py.lower U reference_text) in
  let word_phoneme_mapping := map_words_to_phonemes U self words in
  let alignments := force_align_ctc B audio_data phoneme_sequence sr in
  let '(phoneme_scores, all_issues) :=
    foldl (score_alignment audio_data sr) ([], []) alignments in
  let word_scores := analyze_word_pronunciation U words word_phoneme_mapping phoneme_scores in
  let overall_score := compute_overall_score phoneme_scores all_issues in
  {| overall_score := overall_score;
     phoneme_scores := phoneme_scores;
     word_scores := word_scores;
     pronunciation_issues := Py.list_set all_issues |}.

(** The result the handler of [analyze_pronunciation_detailed] builds from
    the exception it caught. *)
Definition analysis_failure_result (e : Py.Exception) : DetailedPronunciationResult :=
  {| overall_score := 0;
     phoneme_scores := [];
     word_scores := [];
     pronunciation_issues := ["分析过程中出错: " +:+ Py.str_of_exception e] |}.
End Analysis.

End PhonemeScorer.

(** ** 音素特征提取.py *)

Module PhonemeAligner.

Record t := {
  min_phoneme_duration : Q;
  max_phoneme_duration : Q
}.

Definition __init__ : t :=
  {| min_phoneme_duration := 0.03; max_phoneme_duration := 0.4 |}.

Definition simple_uniform_alignment (audio_length : nat) (phoneme_sequence : list string)
    (sr : positive) : list (string * Q * Q) :=
  let total_duration := (QofNat audio_length / QofPos sr)%Q in
  let phoneme_count := length phoneme_sequence in
  if (phoneme_count =? 0)%nat then []
  else
    let avg_duration := (total_duration / QofNat phoneme_count)%Q in
    imap (fun i phoneme =>
            let start_time := (QofNat i * avg_duration)%Q in
            let end_time := (QofNat (i + 1) * avg_duration)%Q in
            (phoneme, start_time, end_time)) phoneme_sequence.

Definition duration_weights : gmap string Q :=
  list_to_map [
    ("æ", 1.2); ("ɪ", 1.0); ("ʊ", 1.0); ("iː", 1.5); ("uː", 1.5); ("ɜː", 1.8);
    ("ʌ", 1.1); ("aɪ", 1.3); ("aʊ", 1.3); ("ɔɪ", 1.3); ("e", 1.1); ("ɒ", 1.1);
    ("p", 0.6); ("b", 0.7); ("t", 0.6); ("d", 0.7); ("k", 0.6); ("g", 0.7);
    ("f", 0.9); ("v", 0.8); ("θ", 0.8); ("ð", 0.7); ("s", 0.9); ("z", 0.8);
    ("ʃ", 0.9); ("ʒ", 0.8); ("tʃ", 0.8); ("dʒ", 0.8);
    ("m", 0.8); ("n", 0.8); ("ŋ", 0.8); ("l", 0.8); ("r", 0.8);
    ("w", 0.7); ("j", 0.6); ("h", 0.5) ]%Q.

(** The loop of [duration_weighted_alignment] from the time [current_time]
    on, over the phonemes paired with their weights. *)
Fixpoint allot (self : t) (total_weight total_duration current_time : Q)
    (items : list (string * Q)) : list (string * Q * Q) :=
  match items with
  | [] => []
  | (phoneme, weight) :: rest =>
      let duration := ((weight / total_weight) * total_duration)%Q in
      let duration :=
        py_max (min_phoneme_duration self) (py_min (max_phoneme_duration self) duration) in
      let start_time := current_time in
      let end_time := (current_time + duration)%Q in
      (phoneme, start_time, end_time) :: allot self total_weight total_duration end_time rest
  end.

Definition duration_weighted_alignment (self : t) (audio_length : nat)
    (phoneme_sequence : list string) (sr : positive) : list (string * Q * Q) :=
  let total_duration := (QofNat audio_length / QofPos sr)%Q in
  let phoneme_count := length phoneme_sequence in
  if (phoneme_count =? 0)%nat then []
  else
    let weights := map (fun ph => default 1.0%Q (duration_weights !! ph)) phoneme_sequence in
    let total_weight := Qsum weights in
    let current_time := 0.0%Q in
    allot self total_weight total_duration current_time (zip phoneme_sequence weights).

(** [np.linspace(0, stop, num, dtype=int)], with the products taken
    exactly; NumPy truncates the binary64 product, which can land one index
    lower.  The properties use only that the indices are in range. *)
Definition linspace_int (stop : nat) (num : nat) : list nat :=
  match num with
  | O => []
  | S O => [O]
  | _ =>
      let step := (QofNat stop / QofNat (num - 1))%Q in
      map (fun i => py_int (QofNat i * step)) (seq 0 num)
  end.

(** What the signal-processing prefix of [energy_based_alignment] gives:
    the frame indices [np.where(np.abs(diff) > np.std(diff) * 0.5)[0]]
    found on the smoothed RMS curve, or the exception raised on the way. *)
Definition EnergyBackend := list Q -> positive -> Py.outcome (list nat).

(** [arr[idx]] for an index array; [None] stands for [IndexError]. *)
Definition take_indices {A} (arr : list A) (idx : list nat) : option (list A) :=
  mapM (fun i => arr !! i) idx.

(** One turn of the last loop of [energy_based_alignment]: the segment
    [(phoneme_sequence[i], segment_times[i], segment_times[i + 1])], or
    [None] for [IndexError]. *)
Definition segment_at (phoneme_sequence : list string) (segment_times : list Q) (i : nat)
    : option (string * Q * Q) :=
  ph ← phoneme_sequence !! i;
  start_time ← segment_times !! i;
  end_time ← segment_times !! (i + 1)%nat;
  Some (ph, start_time, end_time).

Definition energy_based_alignment (E : EnergyBackend) (audio : list Q)
    (phoneme_sequence : list string) (sr : positive) : list (string * Q * Q) :=
  let hop_length := 512%nat in
  match E audio sr with
  | Py.Return change_points =>
      let time_per_frame := (QofNat hop_length / QofPos sr)%Q in
      let change_times := map (fun cp => (QofNat cp * time_per_frame)%Q) change_points in
      let total_duration := (QofNat (length audio) / QofPos sr)%Q in
      let phoneme_count := length phoneme_sequence in
      if (phoneme_count =? 0)%nat then []
      else if (length change_times <? phoneme_count - 1)%nat then
        simple_uniform_alignment (length audio) phoneme_sequence sr
      else
        let selected : option (list Q) :=
          if (0 <? length change_times)%nat then
            take_indices change_times
              (linspace_int (length change_times - 1) (phoneme_count - 1))
          else Some [] in
        match selected with
        | Some times =>
            let segment_times := [0.0%Q] ++ times ++ [total_duration] in
            let alignments :=
              mapM (segment_at phoneme_sequence segment_times) (seq 0 phoneme_count) in
            match alignments with
            | Some alignments => alignments
            | None => simple_uniform_alignment (length audio) phoneme_sequence sr
            end
        | None => simple_uniform_alignment (length audio) phoneme_sequence sr
        end
  | Py.Raise _ => simple_uniform_alignment (length audio) phoneme_sequence sr
  end.

End PhonemeAligner.

Module AcousticFeatureExtractor.

Import PhonemeScorer (fvalue, FNum, FVec, FMat).

Record t := {
  sr : positive;
  hop_length : nat;
  n_fft : nat
}.

Definition __init__ (sr : positive) : t :=
  {| sr := sr; hop_length := 512; n_fft := 2048 |}.

(** What the [try] block of [extract_spectral_features] computes. *)
Record SpectralStats := {
  sp_centroid_mean : Q;
  sp_centroid_std : Q;
  sp_bandwidth_mean : Q;
  sp_bandwidth_std : Q;
  sp_contrast_mean : list Q;
  sp_rolloff_mean : Q;
  sp_mfcc_mean : list Q;
  sp_mfcc_std : list Q;
  sp_chroma_mean : list Q;
  sp_chroma_std : list Q
}.

(** What the [try] block of [extract_temporal_features] computes. *)
Record TemporalStats := {
  tm_rms_mean : Q;
  tm_rms_std : Q;
  tm_zcr_mean : Q;
  tm_zcr_std : Q;
  tm_energy_mean : Q;
  tm_energy_std : Q;
  tm_energy_max : Q;
  tm_silence_ratio : Q
}.

(** librosa, scipy and the numpy reductions that are not rational. *)
Record Numeric := {
  librosa_yin : list Q -> positive -> Py.outcome (list Q);
  np_std : list Q -> Q;
  np_median : list Q -> Q;
  (* stats.linregress(np.arange(len(v)), v): the slope *)
  linregress_slope : list Q -> Py.outcome Q;
  (* librosa.lpc, scipy.signal.freqz and find_peaks: the peak frequencies *)
  lpc_formants : list Q -> positive -> Py.outcome (list Q);
  spectral_stats : list Q -> positive -> Py.outcome SpectralStats;
  temporal_stats : list Q -> Py.outcome TemporalStats
}.

Definition f0_defaults : gmap string fvalue :=
  list_to_map [("f0_mean", FNum 0); ("f0_std", FNum 0); ("f0_median", FNum 0);
               ("f0_range", FNum 0); ("f0_slope", FNum 0); ("voicing_rate", FNum 0)].

Definition formant_defaults : gmap string fvalue :=
  list_to_map [("f1", FNum 0); ("f2", FNum 0); ("f3", FNum 0);
               ("f1_f2_ratio", FNum 0); ("formant_bandwidth", FNum 0)].

Section Extract.
Variable N : Numeric.
Variable self : t.

Definition extract_f0_features (audio : list Q) : gmap string fvalue :=
  match librosa_yin N audio (sr self) with
  | Py.Return f0 =>
      let valid_f0 := filter (fun x => Qgtb x 0 = true) f0 in
      if (length valid_f0 =? 0)%nat then f0_defaults
      else
        let features : gmap string fvalue :=
          list_to_map [
            ("f0_mean", FNum (np_mean valid_f0));
            ("f0_std", FNum (np_std N valid_f0));
            ("f0_median", FNum (np_median N valid_f0));
            ("f0_range", FNum (np_max valid_f0 - np_min valid_f0)%Q);
            ("voicing_rate", FNum (QofNat (length valid_f0) / QofNat (length f0))%Q) ] in
        if (1 <? length valid_f0)%nat then
          match linregress_slope N valid_f0 with
          | Py.Return slope => <["f0_slope" := FNum slope]> features
          | Py.Raise _ => f0_defaults
          end
        else <["f0_slope" := FNum 0]> features
  | Py.Raise _ => f0_defaults
  end.

Definition extract_formant_features (audio : list Q) : gmap string fvalue :=
  match audio with
  | [] => formant_defaults    (* audio[0] raises IndexError, caught below *)
  | first :: rest =>
      let pre_emphasis := 0.97%Q in
      let emphasized :=
        first :: zip_with (fun x prev => (x - pre_emphasis * prev)%Q) rest audio in
      let lpc_order := 10%nat in
      if (lpc_order <? length emphasized)%nat then
        match lpc_formants N emphasized (sr self) with
        | Py.Return formants =>
            let f1 := default 0%Q (formants !! 0%nat) in
            let f2 := default 0%Q (formants !! 1%nat) in
            let f3 := default 0%Q (formants !! 2%nat) in
            list_to_map [
              ("f1", FNum f1);
              ("f2", FNum f2);
              ("f3", FNum f3);
              ("f1_f2_ratio", FNum (if Qgtb f1 0 then f2 / f1 else 0)%Q);
              ("formant_bandwidth",
                 FNum (if (1 <? length formants)%nat then np_std N formants else 0%Q)) ]
        | Py.Raise _ => formant_defaults
        end
      else formant_defaults
  end.

Definition extract_spectral_features (audio : list Q) : gmap string fvalue :=
  match spectral_stats N audio (sr self) with
  | Py.Return st =>
      list_to_map [
        ("spectral_centroid_mean", FNum (sp_centroid_mean st));
        ("spectral_centroid_std", FNum (sp_centroid_std st));
        ("spectral_bandwidth_mean", FNum (sp_bandwidth_mean st));
        ("spectral_bandwidth_std", FNum (sp_bandwidth_std st));
        ("spectral_contrast_mean", FVec (sp_contrast_mean st));
        ("spectral_rolloff_mean", FNum (sp_rolloff_mean st));
        ("mfcc_mean", FVec (sp_mfcc_mean st));
        ("mfcc_std", FVec (sp_mfcc_std st));
        ("chroma_mean", FVec (sp_chroma_mean st));
        ("chroma_std", FVec (sp_chroma_std st)) ]
  | Py.Raise _ => ∅
  end.

Definition extract_temporal_features (audio : list Q) : gmap string fvalue :=
  match temporal_stats N audio with
  | Py.Return st =>
      list_to_map [
        ("rms_mean", FNum (tm_rms_mean st));
        ("rms_std", FNum (tm_rms_std st));
        ("zcr_mean", FNum (tm_zcr_mean st));
        ("zcr_std", FNum (tm_zcr_std st));
        ("energy_mean", FNum (tm_energy_mean st));
        ("energy_std", FNum (tm_energy_std st));
        ("energy_max", FNum (tm_energy_max st));
        ("silence_ratio", FNum (tm_silence_ratio st)) ]
  | Py.Raise _ => ∅
  end.

(** [features.update(d)]: the keys of [d] win. *)
Definition update (features d : gmap string fvalue) : gmap string fvalue := d ∪ features.

Definition extract_all_features (audio : list Q) : gmap string fvalue :=
  if (length audio =? 0)%nat then ∅
  else
    let features : gmap string fvalue := ∅ in
    let f0_features := extract_f0_features audio in
    let features := update features f0_features in
    let formant_features := extract_formant_features audio in
    let features := update features formant_features in
    let spectral_features := extract_spectral_features audio in
    let features := update features spectral_features in
    let temporal_features := extract_temporal_features audio in
    let features := update features temporal_features in
    features.
End Extract.

(** The names under which the four extractors store their features. *)
Definition f0_keys : list string :=
  ["f0_mean"; "f0_std"; "f0_median"; "f0_range"; "f0_slope"; "voicing_rate"].
Definition formant_keys : list string :=
  ["f1"; "f2"; "f3"; "f1_f2_ratio"; "formant_bandwidth"].
Definition spectral_keys : list string :=
  ["spectral_centroid_mean"; "spectral_centroid_std"; "spectral_bandwidth_mean";
   "spectral_bandwidth_std"; "spectral_contrast_mean"; "spectral_rolloff_mean";
   "mfcc_mean"; "mfcc_std"; "chroma_mean"; "chroma_std"].
Definition temporal_keys : list string :=
  ["rms_mean"; "rms_std"; "zcr_mean"; "zcr_std"; "energy_mean"; "energy_std";
   "energy_max"; "silence_ratio"].
Definition feature_keys : list string :=
  f0_keys ++ formant_keys ++ spectral_keys ++ temporal_keys.

(** A library in which [librosa.util.frame] refuses a buffer shorter than
    the frame length, 1024 samples in [extract_temporal_features], as
    librosa does; the other calls answer with silence. *)
Definition framing_numeric : Numeric :=
  {| librosa_yin := fun audio _ => Py.Return [0%Q];
     np_std := fun _ => 0%Q;
     np_median := fun _ => 0%Q;
     linregress_slope := fun _ => Py.Return 0%Q;
     lpc_formants := fun _ _ => Py.Return [];
     spectral_stats := fun _ _ =>
       Py.Return {| sp_centroid_mean := 0; sp_centroid_std := 0;
                    sp_bandwidth_mean := 0; sp_bandwidth_std := 0;
                    sp_contrast_mean := []; sp_rolloff_mean := 0;
                    sp_mfcc_mean := []; sp_mfcc_std := [];
                    sp_chroma_mean := []; sp_chroma_std := [] |};
     temporal_stats := fun audio =>
       if (length audio <? 1024)%nat
       then Py.Raise (Py.LibraryError "Input is too short for frame_length=1024")
       else Py.Return {| tm_rms_mean := 0; tm_rms_std := 0; tm_zcr_mean := 0;
                         tm_zcr_std := 0; tm_energy_mean := 0; tm_energy_std := 0;
                         tm_energy_max := 0; tm_silence_ratio := 0 |} |}.

End AcousticFeatureExtractor.

Module PronunciationQualityAssessor.

Import PhonemeScorer (fvalue, fnum, str_in_list).

(** The table [vowel_expectations] of the constructor, one field per key;
    the table [consonant_expectations] is never read. *)
Record t := {
  vowel_spectral_centroid : Q * Q;
  vowel_f1_range : Q * Q;
  vowel_f2_range : Q * Q;
  vowel_voicing_rate : Q * Q
}.

Definition __init__ : t :=
  {| vowel_spectral_centroid := (800, 1500);
     vowel_f1_range := (200, 1000);
     vowel_f2_range := (800, 2500);
     vowel_voicing_rate := (0.8, 1.0) |}%Q.

Definition classify_phoneme (phoneme : string) : string :=
  let vowels := ["æ"; "ɪ"; "ʊ"; "iː"; "uː"; "ɜː"; "ʌ"; "aɪ"; "aʊ"; "ɔɪ"; "e"; "ɒ"; "ɑː"] in
  let fricatives := ["f"; "v"; "s"; "z"; "ʃ"; "ʒ"; "θ"; "ð"; "h"] in
  let stops := ["p"; "b"; "t"; "d"; "k"; "g"] in
  let nasals := ["m"; "n"; "ŋ"] in
  let liquids := ["l"; "r"] in
  let glides := ["w"; "j"] in
  if str_in_list phoneme vowels then "vowel"
  else if str_in_list phoneme fricatives then "fricative"
  else if str_in_list phoneme stops then "stop"
  else if str_in_list phoneme nasals then "nasal"
  else if str_in_list phoneme liquids then "liquid"
  else if str_in_list phoneme glides then "glide"
  else "unknown".

Definition assess_vowel_quality (self : t) (features : gmap string fvalue) (phoneme : string)
    : Q * list string :=
  let score := 100.0%Q in
  let issues : list string := [] in
  let '(score, issues) :=
    match fnum features "voicing_rate" with
    | Some voicing_rate =>
        if Qltb voicing_rate 0.7 then
          (score - 20, issues ++ ["元音'" +:+ phoneme +:+ "'有声程度不足"])%Q
        else (score, issues)
    | None => (score, issues)
    end in
  let '(score, issues) :=
    match fnum features "spectral_centroid_mean" with
    | Some centroid =>
        let '(expected_min, expected_max) := vowel_spectral_centroid self in
        if Qltb centroid expected_min || Qgtb centroid expected_max then
          (score - 15, issues ++ ["元音'" +:+ phoneme +:+ "'音色偏离标准"])%Q
        else (score, issues)
    | None => (score, issues)
    end in
  let '(score, issues) :=
    match fnum features "f1", fnum features "f2" with
    | Some f1, Some f2 =>
        if Qgtb f1 0 && Qgtb f2 0 then
          if str_in_list phoneme ["æ"; "ɑː"] && Qltb f1 600 then
            (score - 12, issues ++ ["低元音'" +:+ phoneme +:+ "'开口度不够"])%Q
          else if str_in_list phoneme ["iː"; "ɪ"] && Qgtb f1 500 then
            (score - 12, issues ++ ["高元音'" +:+ phoneme +:+ "'舌位偏低"])%Q
          else (score, issues)
        else (score, issues)
    | _, _ => (score, issues)
    end in
  (py_max 0 score, issues).

Definition assess_consonant_quality (features : gmap string fvalue)
    (phoneme phoneme_type : string) : Q * list string :=
  let score := 100.0%Q in
  let issues : list string := [] in
  let '(score, issues) :=
    if String.eqb phoneme_type "fricative" then
      let '(score, issues) :=
        match fnum features "spectral_centroid_mean" with
        | Some centroid =>
            if Qltb centroid 2000 then
              (score - 20, issues ++ ["摩擦音'" +:+ phoneme +:+ "'高频成分不足"])%Q
            else (score, issues)
        | None => (score, issues)
        end in
      match fnum features "zcr_mean" with
      | Some zcr_mean =>
          if Qltb zcr_mean 0.1 then
            (score - 15, issues ++ ["摩擦音'" +:+ phoneme +:+ "'摩擦特征不明显"])%Q
          else (score, issues)
      | None => (score, issues)
      end
    else if String.eqb phoneme_type "stop" then
      match fnum features "energy_max", fnum features "energy_mean" with
      | Some energy_max, Some energy_mean =>
          let energy_ratio :=
            if Qgtb energy_mean 0 then (energy_max / energy_mean)%Q else 0%Q in
          if Qltb energy_ratio 3 then
            (score - 18, issues ++ ["爆破音'" +:+ phoneme +:+ "'爆破特征不明显"])%Q
          else (score, issues)
      | _, _ => (score, issues)
      end
    else if String.eqb phoneme_type "nasal" then
      let '(score, issues) :=
        match fnum features "spectral_centroid_mean" with
        | Some centroid =>
            if Qgtb centroid 1500 then
              (score - 15, issues ++ ["鼻音'" +:+ phoneme +:+ "'频谱过高"])%Q
            else (score, issues)
        | None => (score, issues)
        end in
      match fnum features "voicing_rate" with
      | Some voicing_rate =>
          if Qltb voicing_rate 0.8 then
            (score - 12, issues ++ ["鼻音'" +:+ phoneme +:+ "'有声性不足"])%Q
          else (score, issues)
      | None => (score, issues)
      end
    else (score, issues) in
  (py_max 0 score, issues).

Definition assess_phoneme_quality (self : t) (phoneme : string)
    (features : gmap string fvalue) (duration : Q) : Q * list string :=
  let phoneme_type := classify_phoneme phoneme in
  if String.eqb phoneme_type "vowel" then assess_vowel_quality self features phoneme
  else assess_consonant_quality features phoneme phoneme_type.

End PronunciationQualityAssessor.

(** ** 发音评分模块.py *)

Module Scoring.

Import PhonemeScorer (DetailedPronunciationResult).

(** What [score_pronunciation] finds around it. *)
Record Env := {
  (* the module-level flag set by the import of the phoneme modules *)
  PHONEME_SCORING_AVAILABLE : bool;
  (* did _import_dependencies() return torch, transformers and librosa *)
  dependencies_imported : bool;
  (* the model directory computed from __file__ *)
  model_name : string;
  path_exists : string -> bool;               (* os.path.exists *)
  path_join : string -> string -> string;     (* os.path.join *)
  (* torch.device, the two from_pretrained calls, model.to and model.eval *)
  load_model : Py.outcome unit;
  (* the processor, the model's logits, argmax and batch_decode *)
  recognise : list Q -> Py.outcome string;
  (* [distance] of Levenshtein or of python_Levenshtein, when one imports *)
  levenshtein : option (string -> string -> nat);
  unicode : Py.Unicode;
  backend : PhonemeScorer.Backend
}.

(** What a call gives back: a float, a [DetailedPronunciationResult], or the
    [dict] of [create_simple_detailed_result] when the phoneme modules are
    missing. *)
Inductive result :=
| Score (score : Q)
| Detailed (r : DetailedPronunciationResult)
| SimpleDict (overall_score : Q) (transcription reference_text : string).

Definition reported_score (r : result) : Q :=
  match r with
  | Score s => s
  | Detailed d => PhonemeScorer.overall_score d
  | SimpleDict s _ _ => s
  end.

#[global] Instance outcome_ret : MRet Py.outcome := fun _ a => Py.Return a.
#[global] Instance outcome_bind : MBind Py.outcome := fun _ _ f m =>
  match m with
  | Py.Return a => f a
  | Py.Raise e => Py.Raise e
  end.

(** The edit distance of the Levenshtein package, over code points: one
    row of the dynamic-programming table per character of the first string. *)
Fixpoint lev_step (c : string) (t : list string) (prev : list nat) (left : nat) : list nat :=
  match t, prev with
  | tj :: t', diag :: ((up :: _) as prev') =>
      let cost := if String.eqb c tj then 0%nat else 1%nat in
      let v := Nat.min (Nat.min (up + 1) (left + 1)) (diag + cost) in
      v :: lev_step c t' prev' v
  | _, _ => []
  end.

Definition lev_distance (s1 s2 : string) : nat :=
  let t := Py.chars s2 in
  let row0 := seq 0 (S (length t)) in
  let '(_, row) :=
    foldl (fun '(i, row) c => (S i, S i :: lev_step c t row (S i))) (0%nat, row0) (Py.chars s1) in
  List.last row 0%nat.

Section Score.
Variable E : Env.

Definition create_simple_detailed_result (score : Q) (transcription reference_text : string)
    : result :=
  if negb (PHONEME_SCORING_AVAILABLE E) then
    SimpleDict score transcription reference_text
  else
    Detailed {| PhonemeScorer.overall_score := score;
                PhonemeScorer.phoneme_scores := [];
                PhonemeScorer.word_scores := [];
                PhonemeScorer.pronunciation_issues := ["未进行音素级分析"] |}.

(** The local function of the branch without a Levenshtein library. *)
Definition improved_similarity (str1 str2 : string) : Q :=
  let str1 := Py.strip (unicode E) (Py.lower (unicode E) str1) in
  let str2 := Py.strip (unicode E) (Py.lower (unicode E) str2) in
  if (Py.len str1 =? 0)%nat || (Py.len str2 =? 0)%nat then 0%Q
  else
    let char_similarity :=
      (QofNat (length (filter (fun c => Py.str_in c str2 = true) (Py.chars str1)))
       / QofNat (Nat.max (Py.len str1) (Py.len str2)))%Q in
    let words1 := Py.list_set (Py.split (unicode E) str1) in
    let words2 := Py.list_set (Py.split (unicode E) str2) in
    let word_similarity :=
      if (length words1 =? 0)%nat || (length words2 =? 0)%nat then 0%Q
      else
        (QofNat (length (filter (fun w => w ∈ words2) words1))
         / QofNat (Nat.max (length words1) (length words2)))%Q in
    (char_similarity * 0.4 + word_similarity * 0.6)%Q.

(** The check of the model files: the first missing one raises. *)
Fixpoint check_required_files (required_files : list string) : Py.outcome unit :=
  match required_files with
  | [] => Py.Return tt
  | file :: rest =>
      let file_path := path_join E (model_name E) file in
      if negb (path_exists E file_path) then
        Py.Raise (Py.FileNotFoundError ("模型文件缺失: " +:+ file_path))
      else check_required_files rest
  end.

(** [audio_data / np.max(np.abs(audio_data))] when the peak is positive *)
Definition normalise (audio_data : list Q) : list Q :=
  let peak := np_max (map Qabs audio_data) in
  if Qgtb peak 0 then map (fun x => (x / peak)%Q) audio_data else audio_data.

(** The body of the outer [try]. *)
Definition score_body (audio_data : list Q) (reference_text : string) (detailed : bool)
    : Py.outcome result :=
  _ ← (if negb (dependencies_imported E) then
         Py.Raise (Py.ImportError "必要的依赖库未安装，请运行: pip install -r requirements.txt")
       else Py.Return tt);
  _ ← (if (length audio_data =? 0)%nat then Py.Raise (Py.ValueError "音频数据为空")
       else Py.Return tt);
  _ ← (if negb (path_exists E (model_name E)) then
         Py.Raise (Py.FileNotFoundError ("模型路径不存在: " +:+ model_name E))
       else Py.Return tt);
  _ ← check_required_files ["config.json"; "pytorch_model.bin"; "vocab.json"];
  _ ← load_model E;
  let audio_data := normalise audio_data in
  transcription ← recognise E audio_data;
  match levenshtein E with
  | None =>
      let score := (100 * improved_similarity transcription reference_text)%Q in
      let final_score := py_max 0 (py_min score 100) in
      Py.Return (Score final_score)
  | Some distance =>
      let distance_score :=
        distance (Py.lower (unicode E) transcription) (Py.lower (unicode E) reference_text) in
      let max_distance := Nat.max (Py.len transcription) (Py.len reference_text) in
      let score :=
        if (max_distance =? 0)%nat then 100%Q
        else
          let similarity := (1 - QofNat distance_score / QofNat max_distance)%Q in
          (100 * similarity)%Q in
      let final_score := py_max 0 (py_min score 100) in
      if detailed && PHONEME_SCORING_AVAILABLE E then
        (* the analysis does not raise, so the handler around it is not entered *)
        let phoneme_scorer := PhonemeScorer.__init__ in
        let detailed_result :=
          PhonemeScorer.analyze_pronunciation_detailed
            (unicode E) (backend E) phoneme_scorer audio_data reference_text 16000 in
        Py.Return (Detailed
          {| PhonemeScorer.overall_score :=
               py_max (PhonemeScorer.overall_score detailed_result) (final_score * 0.8);
             PhonemeScorer.phoneme_scores := PhonemeScorer.phoneme_scores detailed_result;
             PhonemeScorer.word_scores := PhonemeScorer.word_scores detailed_result;
             PhonemeScorer.pronunciation_issues :=
               PhonemeScorer.pronunciation_issues detailed_result |})
      else if detailed then
        Py.Return (create_simple_detailed_result final_score transcription reference_text)
      else Py.Return (Score final_score)
  end.

(** The message the outer handler derives from the exception. *)
Definition error_message (e : Py.Exception) : string :=
  let text := Py.str_of_exception e in
  if Py.str_in "CUDA" text then "GPU内存不足，建议使用CPU模式或减少音频长度"
  else if Py.str_in "model" (Py.lower (unicode E) text) then
    "模型加载失败，请检查模型文件是否完整"
  else if Py.str_in "audio" (Py.lower (unicode E) text) then
    "音频处理失败，请检查音频格式和长度"
  else "未知错误: " +:+ text.

Definition score_pronunciation (audio_data : list Q) (reference_text : string)
    (detailed : bool) : Py.outcome result :=
  match score_body audio_data reference_text detailed with
  | Py.Return r => Py.Return r
  | Py.Raise e => Py.Raise (Py.RuntimeError ("发音评分失败: " +:+ error_message e))
  end.

Definition score_pronunciation_detailed (audio_data : list Q) (reference_text : string)
    : Py.outcome result :=
  score_pronunciation audio_data reference_text true.
End Score.

(** A complete installation, for running the entry point: the recogniser
    hears [THE CAT] whatever the buffer, and every segment has the same
    quiet, steady features. *)
Definition installed_backend : PhonemeScorer.Backend :=
  {| PhonemeScorer.acoustic_stats := fun _ _ =>
       Py.Return {| PhonemeScorer.st_f0 := [120%Q];
                    PhonemeScorer.st_f0_mean := 120;
                    PhonemeScorer.st_f0_std := 0;
                    PhonemeScorer.st_mfcc := [[1%Q]; [2%Q]];
                    PhonemeScorer.st_mfcc_mean := [1%Q; 2%Q];
                    PhonemeScorer.st_mfcc_std := [0%Q; 0%Q];
                    PhonemeScorer.st_spectral_centroid_mean := 1200;
                    PhonemeScorer.st_spectral_bandwidth_mean := 900;
                    PhonemeScorer.st_energy_mean := 0.02;
                    PhonemeScorer.st_energy_std := 0.001;
                    PhonemeScorer.st_zcr_mean := 0.1 |};
     PhonemeScorer.ctc_predict := fun _ _ => Py.Return tt |}.

Definition installed : Env :=
  {| PHONEME_SCORING_AVAILABLE := true;
     dependencies_imported := true;
     model_name := "data/models/wav2vec2-base-960h";
     path_exists := fun _ => true;
     path_join := fun a b => a +:+ "/" +:+ b;
     load_model := Py.Return tt;
     recognise := fun _ => Py.Return "THE CAT";
     levenshtein := Some lev_distance;
     unicode := Py.letters_only;
     backend := installed_backend |}.

End Scoring.

(** ** app.py: the two routes that call the scorer

    [score_pronunciation_api] and [score_pronunciation_detailed_api] below
    are the last block of the two handlers, the one that runs once the
    upload is decoded: the call of the scorer, the answer built from its
    result and the answer built from its exception.  The whole handlers,
    from the request on, are [score_pronunciation_route] and
    [score_pronunciation_detailed_route]; what they do to the file system
    and the decoders is an outcome the request carries.  [format_1f] stands
    for the float format [:.1f]. *)

Module Api.

Import Scoring.

Inductive response :=
| Simple (score : string)                       (* {"score": ...}, status 200 *)
| Phonemes (overall_score : string)             (* the detailed answer, status 200 *)
    (phoneme_scores : list PhonemeScorer.PhonemeScore)
    (pronunciation_issues : list string) (detailed : bool)
| Failure (status : nat) (error : string).      (* {"error": ...} *)

Section Routes.
Variable E : Env.
Variable format_1f : Q -> string.

Definition score_pronunciation_api (audio_data : list Q) (reference_text : string)
    : response :=
  let failure (error_msg : string) :=
    if Py.str_in "发音评分失败" error_msg then Failure 500 error_msg
    else Failure 500 ("评分计算失败: " +:+ error_msg) in
  match score_pronunciation E audio_data reference_text false with
  | Py.Return (Score score) => Simple (format_1f score)
  (* the float format applied to an object raises TypeError *)
  | Py.Return (Detailed _) =>
      failure "unsupported format string passed to DetailedPronunciationResult.__format__"
  | Py.Return (SimpleDict _ _ _) =>
      failure "unsupported format string passed to dict.__format__"
  | Py.Raise e => failure (Py.str_of_exception e)
  end.

Definition score_pronunciation_detailed_api (audio_data : list Q) (reference_text : string)
    : response :=
  match score_pronunciation_detailed E audio_data reference_text with
  | Py.Return (Detailed result) =>
      Phonemes (format_1f (PhonemeScorer.overall_score result))
               (PhonemeScorer.phoneme_scores result)
               (PhonemeScorer.pronunciation_issues result) true
  | Py.Return (SimpleDict overall_score _ _) =>
      Phonemes (format_1f overall_score) [] [] false
  | Py.Return (Score result) =>
      Phonemes (format_1f result) [] [] false
  | Py.Raise e =>
      let error_msg := Py.str_of_exception e in
      if Py.str_in "发音评分失败" error_msg then Failure 500 error_msg
      else Failure 500 ("音素级评分计算失败: " +:+ error_msg)
  end.
End Routes.

(** *** The whole handlers *)

(** What the request does to the upload: the file part and the outcome of
    the input and output the handler performs on it. *)
Record Upload := {
  (* audio_file.filename; a file part without a file has none and is falsy *)
  filename : string;
  (* audio_file.save(audio_path) followed by os.path.getsize(audio_path) *)
  save : Py.outcome nat;
  (* os.path.exists(audio_path) in the check that follows; the size is
     taken to be the one just read *)
  saved_file_exists : bool;
  (* the conversion to WAV when the extension asks for it, librosa.load and
     the soundfile fallback with its resampling: the samples at 16 kHz, or
     the exception the loading ends with *)
  load : Py.outcome (list Q)
}.

Record Request := {
  form_reference_text : option string;   (* request.form.get('reference_text') *)
  files_audio_file : option Upload       (* request.files.get('audio_file') *)
}.

Section Handlers.
Variable E : Env.
Variable format_1f : Q -> string.

(** The part the two handlers share word for word: the validation of the
    parameters, the saving and the loading of the upload, the check and the
    normalisation of the buffer.  [outer_prefix] is the message of the
    outermost handler and [score] the block around the call of the scorer. *)
Definition handle_upload (outer_prefix : string) (score : list Q -> string -> response)
    (request : Request) : response :=
  match form_reference_text request with
  | None => Failure 400 "缺少参考文本"
  | Some reference_text =>
      if String.eqb reference_text "" then Failure 400 "缺少参考文本"
      else
        match files_audio_file request with
        | None => Failure 400 "缺少音频文件"
        | Some audio_file =>
            if String.eqb (filename audio_file) "" then Failure 400 "缺少音频文件"
            else
              match save audio_file with
              | Py.Raise e => Failure 500 (outer_prefix +:+ Py.str_of_exception e)
              | Py.Return file_size =>
                  if negb (saved_file_exists audio_file) || (file_size =? 0)%nat then
                    Failure 500 "音频文件保存失败或为空文件"
                  else
                    match load audio_file with
                    | Py.Raise e =>
                        Failure 500 ("音频加载失败: " +:+ Py.str_of_exception e)
                    | Py.Return audio_data =>
                        if (length audio_data =? 0)%nat then
                          Failure 500 ("音频加载失败: " +:+ "音频数据为空")
                        else score (normalise audio_data) reference_text
                    end
              end
        end
  end.

(** [score_pronunciation_api], the whole handler of /api/score-pronunciation *)
Definition score_pronunciation_route (request : Request) : response :=
  handle_upload "评分过程中出错: " (score_pronunciation_api E format_1f) request.

(** [score_pronunciation_detailed_api], the whole handler of
    /api/score-pronunciation-detailed *)
Definition score_pronunciation_detailed_route (request : Request) : response :=
  handle_upload "音素级评分过程中出错: " (score_pronunciation_detailed_api E format_1f)
                request.
End Handlers.

End Api.

(** ** The alignments in binary64

    The uniform and the duration-weighted alignment once more, on the
    binary64 numbers of the program, to see what rounding does to a
    statement. *)

Module Binary64.

(** The binary64 number nearest to a decimal constant of the source, or to
    an integer operand: numerator and denominator are exact in binary64 and
    the division rounds to nearest, as the parser of Python does. *)
Definition of_Q (q : Q) : PrimFloat.float :=
  PrimFloat.div (PrimFloat.of_uint63 (Uint63.of_Z (Qnum q)))
                (PrimFloat.of_uint63 (Uint63.of_Z (Zpos (Qden q)))).

Definition of_nat (n : nat) : PrimFloat.float :=
  PrimFloat.of_uint63 (Uint63.of_Z (Z.of_nat n)).

Definition py_max (a b : PrimFloat.float) : PrimFloat.float :=
  if PrimFloat.ltb a b then b else a.
Definition py_min (a b : PrimFloat.float) : PrimFloat.float :=
  if PrimFloat.ltb b a then b else a.

Definition simple_uniform_alignment (audio_length : nat) (phoneme_sequence : list string)
    (sr : positive) : list (string * PrimFloat.float * PrimFloat.float) :=
  let total_duration := PrimFloat.div (of_nat audio_length) (of_nat (Pos.to_nat sr)) in
  let phoneme_count := length phoneme_sequence in
  if (phoneme_count =? 0)%nat then []
  else
    let avg_duration := PrimFloat.div total_duration (of_nat phoneme_count) in
    imap (fun i phoneme =>
            let start_time := PrimFloat.mul (of_nat i) avg_duration in
            let end_time := PrimFloat.mul (of_nat (i + 1)) avg_duration in
            (phoneme, start_time, end_time)) phoneme_sequence.

Fixpoint allot (self : PhonemeAligner.t)
    (total_weight total_duration current_time : PrimFloat.float)
    (items : list (string * PrimFloat.float))
    : list (string * PrimFloat.float * PrimFloat.float) :=
  match items with
  | [] => []
  | (phoneme, weight) :: rest =>
      let duration := PrimFloat.mul (PrimFloat.div weight total_weight) total_duration in
      let duration :=
        py_max (of_Q (PhonemeAligner.min_phoneme_duration self))
               (py_min (of_Q (PhonemeAligner.max_phoneme_duration self)) duration) in
      let start_time := current_time in
      let end_time := PrimFloat.add current_time duration in
      (phoneme, start_time, end_time) :: allot self total_weight total_duration end_time rest
  end.

Definition duration_weighted_alignment (self : PhonemeAligner.t) (audio_length : nat)
    (phoneme_sequence : list string) (sr : positive)
    : list (string * PrimFloat.float * PrimFloat.float) :=
  let total_duration := PrimFloat.div (of_nat audio_length) (of_nat (Pos.to_nat sr)) in
  let phoneme_count := length phoneme_sequence in
  if (phoneme_count =? 0)%nat then []
  else
    let weights :=
      map (fun ph => of_Q (default 1.0%Q (PhonemeAligner.duration_weights !! ph)))
          phoneme_sequence in
    let total_weight := foldl PrimFloat.add (of_nat 0) weights in
    let current_time := of_Q 0.0 in
    allot self total_weight total_duration current_time (zip phoneme_sequence weights).

End Binary64.

(** ** Vocabulary of the properties *)

(** A phoneme score as the loop of [analyze_pronunciation_detailed] builds
    it: scored by [score_phoneme_quality] on some feature dictionary over
    its own span, with the confidence and the label derived from that. *)
Definition scored (self : PhonemeScorer.t) (ps : PhonemeScorer.PhonemeScore) : Prop :=
  exists features,
    PhonemeScorer.score_phoneme_quality self (PhonemeScorer.phoneme ps) features
        (PhonemeScorer.end_time ps - PhonemeScorer.start_time ps)%Q
      = (PhonemeScorer.score ps, PhonemeScorer.issues ps)
    /\ PhonemeScorer.confidence ps
       = py_min 1.0 (py_max 0.3 (1.0 - QofNat (length (PhonemeScorer.issues ps)) * 0.1))
    /\ PhonemeScorer.quality ps = PhonemeScorer.get_quality_level (PhonemeScorer.score ps).

(** No entry of the score sequence carries the expected phoneme. *)
Definition absent_from (phoneme_scores : list PhonemeScorer.PhonemeScore)
    (expected : string) : Prop :=
  forall ps, ps ∈ phoneme_scores -> PhonemeScorer.phoneme ps <> expected.

Definition is_sentinel (ws : PhonemeScorer.WordScore) : Prop :=
  PhonemeScorer.w_score ws = 0%Q /\ PhonemeScorer.w_quality ws = "unknown"
  /\ PhonemeScorer.w_issues ws <> []
  /\ PhonemeScorer.w_needs_improvement ws = true.

Definition seg_phoneme (s : string * Q * Q) : string := s.1.1.
Definition seg_start (s : string * Q * Q) : Q := s.1.2.
Definition seg_end (s : string * Q * Q) : Q := s.2.

(** The segments tile [[0, total_duration]] in the order of the phonemes. *)
Definition tiling (total_duration : Q) (phoneme_sequence : list string)
    (segments : list (string * Q * Q)) : Prop :=
  map seg_phoneme segments = phoneme_sequence
  /\ (exists first, head segments = Some first /\ (seg_start first == 0)%Q)
  /\ (forall i a b, segments !! i = Some a -> segments !! S i = Some b ->
        (seg_end a == seg_start b)%Q)
  /\ (exists final, last segments = Some final /\ (seg_end final == total_duration)%Q).

(** Each segment starts where the one before it ends, from [from] to [to]. *)
Fixpoint chained (from : Q) (segments : list (string * Q * Q)) (to : Q) : Prop :=
  match segments with
  | [] => (from == to)%Q
  | s :: rest => (seg_start s == from)%Q /\ chained (seg_end s) rest to
  end.

Definition durations (segments : list (string * Q * Q)) : list Q :=
  map (fun s => (seg_end s - seg_start s)%Q) segments.

(** The prior weight of a phoneme, 1.0 outside the table. *)
Definition weight_of (ph : string) : Q := default 1.0%Q (PhonemeAligner.duration_weights !! ph).

(** The span a phoneme of weight [weight] gets, after the clamp. *)
Definition clamped_span (self : PhonemeAligner.t) (total_weight total_duration weight : Q) : Q :=
  py_max (PhonemeAligner.min_phoneme_duration self)
         (py_min (PhonemeAligner.max_phoneme_duration self)
                 (weight / total_weight * total_duration)).

Fixpoint Qtotal (l : list Q) : Q :=
  match l with
  | [] => 0
  | x :: rest => x + Qtotal rest
  end.

(** *** The utterance score in the words of the specification

    The quantities section 4.6 of the specification names, over the list
    of phoneme scores alone: the issues of an utterance are those of its
    phoneme scores, and an issue is severe when it speaks of a span that is
    too short or too long, or of missing energy. *)

Definition quality_weight (q : string) : Q :=
  if decide (q = "excellent") then 1.0
  else if decide (q = "good") then 0.9
  else if decide (q = "fair") then 0.7
  else if decide (q = "poor") then 0.4
  else 0.5.

Definition quality_ratio (q : string) (l : list PhonemeScorer.PhonemeScore) : Q :=
  (QofNat (length (filter (fun ps => PhonemeScorer.quality ps = q) l)) / QofNat (length l))%Q.

Definition utterance_issues (l : list PhonemeScorer.PhonemeScore) : list string :=
  concat (map PhonemeScorer.issues l).

Definition is_severe (issue : string) : bool :=
  Py.str_in "过短" issue || Py.str_in "过长" issue || Py.str_in "能量不足" issue.

Definition severe_count (l : list PhonemeScorer.PhonemeScore) : nat :=
  length (filter (fun issue => is_severe issue = true) (utterance_issues l)).

Definition weighted_mean (l : list PhonemeScorer.PhonemeScore) : Q :=
  (Qtotal (map (fun ps => PhonemeScorer.score ps * PhonemeScorer.confidence ps
                          * quality_weight (PhonemeScorer.quality ps))%Q l)
   / QofNat (length l))%Q.

Definition global_penalty (l : list PhonemeScorer.PhonemeScore) : Q :=
  let n := QofNat (length l) in
  let issue_count := QofNat (length (utterance_issues l)) in
  ((if Qgtb (quality_ratio "poor" l) 0.3 then 15
    else if Qgtb (quality_ratio "poor" l) 0.2 then 10 else 0)
   + (if Qgtb (quality_ratio "fair" l) 0.4 then 8 else 0)
   + (if Qgtb issue_count (n * 0.5) then 12
      else if Qgtb issue_count (n * 0.3) then 6 else 0)
   + (if (3 <? severe_count l)%nat then 10 else 0))%Q.

Definition penalised_score (l : list PhonemeScorer.PhonemeScore) : Q :=
  Qmax 0 (Qmin 100 (weighted_mean l - global_penalty l)).

(** The final adjustments, where [lowered limit s] is what a score [s] above
    the limit becomes. *)
Definition final_adjustments (lowered : Q -> Q -> Q) (l : list PhonemeScorer.PhonemeScore)
    (s : Q) : Q :=
  let s :=
    if Qgtb s 85 && (Qgtb (quality_ratio "poor" l) 0.1 || (1 <? severe_count l)%nat)
    then lowered 85%Q s else s in
  if Qgtb s 75 && Qgtb (quality_ratio "poor" l) 0.2 then lowered 75%Q s else s.

(** As the claim words it: the score is capped at the limit. *)
Definition claimed_overall_score (l : list PhonemeScorer.PhonemeScore) : Q :=
  match l with
  | [] => 0
  | _ => final_adjustments (fun limit _ => limit) l (penalised_score l)
  end.

(** As the code has it: five points are taken off before the cap. *)
Definition lowered_overall_score (l : list PhonemeScorer.PhonemeScore) : Q :=
  match l with
  | [] => 0
  | _ => final_adjustments (fun limit s => Qmin limit (s - 5)) l (penalised_score l)
  end.

(** *** What the entry point returns

    The score [score_pronunciation] derives from the transcription, and the
    value it returns once the transcription is there. *)

Definition similarity_score (E : Scoring.Env) (transcription reference_text : string) : Q :=
  match Scoring.levenshtein E with
  | None =>
      py_max 0 (py_min (100 * Scoring.improved_similarity E transcription reference_text) 100)
  | Some distance =>
      let max_distance := Nat.max (Py.len transcription) (Py.len reference_text) in
      py_max 0 (py_min
        (if (max_distance =? 0)%nat then 100
         else 100 * (1 - QofNat (distance (Py.lower (Scoring.unicode E) transcription)
                                          (Py.lower (Scoring.unicode E) reference_text))
                         / QofNat max_distance))%Q 100)
  end.

Definition returned_result (E : Scoring.Env) (transcription : string) (audio_data : list Q)
    (reference_text : string) (detailed : bool) : Scoring.result :=
  let final_score := similarity_score E transcription reference_text in
  match Scoring.levenshtein E with
  | None => Scoring.Score final_score
  | Some _ =>
      if detailed && Scoring.PHONEME_SCORING_AVAILABLE E then
        let r := PhonemeScorer.analyze_pronunciation_detailed (Scoring.unicode E)
                   (Scoring.backend E) PhonemeScorer.__init__
                   (Scoring.normalise audio_data) reference_text 16000 in
        Scoring.Detailed
          {| PhonemeScorer.overall_score :=
               py_max (PhonemeScorer.overall_score r) (final_score * 0.8);
             PhonemeScorer.phoneme_scores := PhonemeScorer.phoneme_scores r;
             PhonemeScorer.word_scores := PhonemeScorer.word_scores r;
             PhonemeScorer.pronunciation_issues := PhonemeScorer.pronunciation_issues r |}
      else if detailed then
        Scoring.create_simple_detailed_result E final_score transcription reference_text
      else Scoring.Score final_score
  end.

(** *** Alignments without a gap *)

(** The segments follow the phonemes, the first starts at 0 and each one
    starts where the one before it ends. *)
Definition gapless (phoneme_sequence : list string) (segments : list (string * Q * Q))
    : Prop :=
  map seg_phoneme segments = phoneme_sequence
  /\ (exists first, head segments = Some first /\ (seg_start first == 0)%Q)
  /\ (forall i a b, segments !! i = Some a -> segments !! S i = Some b ->
        (seg_end a == seg_start b)%Q).

(** *** What the word loop resolves *)

(** The phoneme scores the loop [for phoneme in word_phonemes] collects for
    a word when it starts with the cursor at [current_phoneme_index]: the
    exact match at the cursor first, then the window around it. *)
Definition resolved_scores (phoneme_scores : list PhonemeScorer.PhonemeScore)
    (current_phoneme_index : nat) (word_phonemes : list string)
    : list PhonemeScorer.PhonemeScore :=
  (foldl (PhonemeScorer.resolve_phoneme phoneme_scores)
         (current_phoneme_index, [], []) word_phonemes).1.2.

(** Where the cursor stands once the words [words] have been analysed. *)
Definition cursor_after (U : Py.Unicode) (word_phoneme_mapping : gmap string (list string))
    (phoneme_scores : list PhonemeScorer.PhonemeScore) (words : list string) : nat :=
  fst (foldl (PhonemeScorer.analyze_word U word_phoneme_mapping phoneme_scores)
             (0%nat, []) words).

(** *** Requests that reach the scorer *)

(** The request carries a text and a file that is saved and decoded into
    the non-empty buffer [audio_data]: the handler reaches the scorer. *)
Definition reaches_scorer (request : Api.Request) (reference_text : string)
    (audio_data : list Q) : Prop :=
  exists audio_file file_size,
    Api.form_reference_text request = Some reference_text /\ reference_text <> ""
    /\ Api.files_audio_file request = Some audio_file /\ Api.filename audio_file <> ""
    /\ Api.save audio_file = Py.Return file_size
    /\ Api.saved_file_exists audio_file = true /\ file_size <> 0%nat
    /\ Api.load audio_file = Py.Return audio_data /\ audio_data <> [].

(** An installation whose model directory is missing. *)
Definition missing_model : Scoring.Env :=
  {| Scoring.PHONEME_SCORING_AVAILABLE := true;
     Scoring.dependencies_imported := true;
     Scoring.model_name := "data/models/wav2vec2-base-960h";
     Scoring.path_exists := fun _ => false;
     Scoring.path_join := fun a b => a +:+ "/" +:+ b;
     Scoring.load_model := Py.Return tt;
     Scoring.recognise := fun _ => Py.Return "THE CAT";
     Scoring.levenshtein := Some Scoring.lev_distance;
     Scoring.unicode := Py.letters_only;
     Scoring.backend := Scoring.installed_backend |}.

(** A request with the text [the cat] and a small WAV file of eight samples. *)
Definition the_cat_request : Api.Request :=
  {| Api.form_reference_text := Some "the cat";
     Api.files_audio_file :=
       Some {| Api.filename := "the_cat.wav";
               Api.save := Py.Return 60%nat;
               Api.saved_file_exists := true;
               Api.load := Py.Return (repeat 0.25%Q 8) |} |}.

(** *** Quantities of the further properties *)

(** The labels of [get_quality_level], from the worst to the best. *)
Definition quality_rank (q : string) : nat :=
  if decide (q = "excellent") then 3
  else if decide (q = "good") then 2
  else if decide (q = "fair") then 1
  else 0.

(** The state [(score, issues)] of the rules of [score_phoneme_quality]:
    points are missing from the base score 80 exactly when an issue is
    recorded. *)
Definition charged (st : Q * list string) : Prop :=
  (snd st = [] /\ (fst st == 80)%Q) \/ (snd st <> [] /\ (fst st < 80)%Q).

(** The phoneme and the span of a phoneme score, as an alignment segment. *)
Definition span_of (ps : PhonemeScorer.PhonemeScore) : string * Q * Q :=
  (PhonemeScorer.phoneme ps, PhonemeScorer.start_time ps, PhonemeScorer.end_time ps).

(** What a word score keeps of a phoneme score. *)
Definition summary_of (ps : PhonemeScorer.PhonemeScore) : string * Q * string * list string :=
  (PhonemeScorer.phoneme ps, PhonemeScorer.score ps, PhonemeScorer.quality ps,
   PhonemeScorer.issues ps).

(** A word score built from the phoneme scores [pss]. *)
Definition word_entry_ok (pss : list PhonemeScorer.PhonemeScore)
    (ws : PhonemeScorer.WordScore) : Prop :=
  Forall (fun item => exists ps, ps ∈ pss /\ item = summary_of ps)
         (PhonemeScorer.w_phoneme_scores ws)
  /\ (length (PhonemeScorer.w_phoneme_scores ws) <= length (PhonemeScorer.w_phonemes ws))%nat
  /\ (PhonemeScorer.w_quality ws = "unknown" <-> PhonemeScorer.w_phoneme_scores ws = []).

(** A word score that is neither good nor excellent. *)
Definition word_entry_modest (ws : PhonemeScorer.WordScore) : Prop :=
  PhonemeScorer.w_quality ws ∈ ["fair"; "poor"; "unknown"]
  /\ (0 <= PhonemeScorer.w_score ws <= 72.7)%Q
  /\ PhonemeScorer.w_suggestions ws <> [].

(** The class of [PronunciationQualityAssessor.classify_phoneme] that a
    class of [PhonemeScorer.classify_phoneme_detailed] falls into. *)
Definition coarse_type (detailed_type : string) : string :=
  if PhonemeScorer.str_in_list detailed_type ["low_vowel"; "high_vowel"; "mid_vowel"; "diphthong"]
  then "vowel"
  else if PhonemeScorer.str_in_list detailed_type ["sibilant_fricative"; "non_sibilant_fricative"]
  then "fricative"
  else if PhonemeScorer.str_in_list detailed_type ["voiceless_stop"; "voiced_stop"] then "stop"
  else if String.eqb detailed_type "affricate" then "unknown"
  else detailed_type.

(** The installation of [Scoring.installed] without a Levenshtein library. *)
Definition without_levenshtein : Scoring.Env :=
  {| Scoring.PHONEME_SCORING_AVAILABLE := true;
     Scoring.dependencies_imported := true;
     Scoring.model_name := "data/models/wav2vec2-base-960h";
     Scoring.path_exists := fun _ => true;
     Scoring.path_join := fun a b => a +:+ "/" +:+ b;
     Scoring.load_model := Py.Return tt;
     Scoring.recognise := fun _ => Py.Return "THE CAT";
     Scoring.levenshtein := None;
     Scoring.unicode := Py.letters_only;
     Scoring.backend := Scoring.installed_backend |}.

(* ================================================================== *)
(** * Properties *)

(** ** Text to phonemes *)

Example text_to_phonemes_the_cat :
  PhonemeScorer.text_to_phonemes Py.letters_only PhonemeScorer.__init__ "The cat!"
  = ["ð"; "ə"; "c"; "æ"; "t"].
Proof. vm_compute. reflexivity. Qed.

Example text_to_phonemes_good U :
  PhonemeScorer.text_to_phonemes U PhonemeScorer.__init__ "good" = ["g"; "ɒ"; "ɒ"; "d"].
Proof. vm_compute. reflexivity. Qed.

Example mapped_phonemes_good U :
  PhonemeScorer.mapped_phonemes_of_text U PhonemeScorer.__init__ "good" = ["g"; "ʊ"; "d"].
Proof. vm_compute. reflexivity. Qed.

Example lev_kitten : Scoring.lev_distance "kitten" "sitting" = 3%nat.
Proof. vm_compute. reflexivity. Qed.

(** ** Comparisons and clamps on rationals *)

Lemma Qltb_true x y : Qltb x y = true <-> (x < y)%Q.
Proof.
  unfold Qltb. rewrite negb_true_iff. split.
  - intros H. apply Qnot_le_lt. intros Hle. apply Qle_bool_iff in Hle. congruence.
  - intros H. destruct (Qle_bool y x) eqn:E; [|reflexivity].
    apply Qle_bool_iff in E. exfalso. apply (Qlt_not_le _ _ H E).
Qed.

Lemma Qltb_false x y : Qltb x y = false <-> (y <= x)%Q.
Proof.
  unfold Qltb. rewrite negb_false_iff. apply Qle_bool_iff.
Qed.

Lemma py_max_cases a b :
  (Qltb a b = true /\ py_max a b = b) \/ (Qltb a b = false /\ py_max a b = a).
Proof. unfold py_max. destruct (Qltb a b); auto. Qed.

Lemma py_min_cases a b :
  (Qltb b a = true /\ py_min a b = b) \/ (Qltb b a = false /\ py_min a b = a).
Proof. unfold py_min. destruct (Qltb b a); auto. Qed.

Ltac split_clamp_at a b cases :=
  let H := fresh "Hcmp" in let E := fresh "Eclamp" in
  destruct (cases a b) as [[H E]|[H E]]; rewrite E in *; clear E;
  [apply Qltb_true in H | apply Qltb_false in H].

Ltac split_clamps :=
  repeat match goal with
  | |- context [py_min ?a ?b] => split_clamp_at a b py_min_cases
  | _ : context [py_min ?a ?b] |- _ => split_clamp_at a b py_min_cases
  | |- context [py_max ?a ?b] => split_clamp_at a b py_max_cases
  | _ : context [py_max ?a ?b] |- _ => split_clamp_at a b py_max_cases
  end.

Lemma clamp_bounds lo hi x : (lo <= hi)%Q -> (lo <= py_max lo (py_min hi x) <= hi)%Q.
Proof. intros Hlh. split_clamps; split; lra. Qed.

Lemma clamp_le lo hi x c : (lo <= c)%Q -> (x <= c)%Q -> (py_max lo (py_min hi x) <= c)%Q.
Proof. intros H1 H2. split_clamps; lra. Qed.

Lemma py_max_is_Qmax a b : (py_max a b == Qmax a b)%Q.
Proof.
  destruct (py_max_cases a b) as [[H E]|[H E]]; rewrite E.
  - apply Qltb_true in H. symmetry. apply Q.max_r. lra.
  - apply Qltb_false in H. symmetry. apply Q.max_l. lra.
Qed.

Lemma py_min_is_Qmin a b : (py_min a b == Qmin a b)%Q.
Proof.
  destruct (py_min_cases a b) as [[H E]|[H E]]; rewrite E.
  - apply Qltb_true in H. symmetry. apply Q.min_r. lra.
  - apply Qltb_false in H. symmetry. apply Q.min_l. lra.
Qed.

Lemma QofNat_nonneg n : (0 <= QofNat n)%Q.
Proof. unfold QofNat. change 0%Q with (inject_Z 0). rewrite <- Zle_Qle. lia. Qed.

(** ** The phoneme rules only deduct *)

Section RuleProofs.
Import PhonemeScorer.

Lemma duration_rule_le self phoneme duration st :
  (fst (duration_rule self phoneme duration st) <= fst st)%Q.
Proof.
  destruct st as [s i]. unfold duration_rule.
  destruct (duration_thresholds self !! phoneme) as [[mn mx]|]; simpl; [|lra].
  repeat (match goal with |- context [if ?b then _ else _] => destruct b end); simpl; lra.
Qed.

Lemma mfcc_rule_le phoneme features st :
  (fst (mfcc_rule phoneme features st) <= fst st)%Q.
Proof.
  destruct st as [s i]. unfold mfcc_rule.
  destruct (fvec features "mfcc_mean"); simpl; [|lra].
  repeat (match goal with |- context [if ?b then _ else _] => destruct b end); simpl; lra.
Qed.

Lemma energy_rule_le phoneme features st :
  (fst (energy_rule phoneme features st) <= fst st)%Q.
Proof.
  destruct st as [s i]. unfold energy_rule.
  destruct (fnum features "energy_mean"); simpl; [|lra].
  repeat (match goal with |- context [if ?b then _ else _] => destruct b end); simpl; lra.
Qed.

Lemma centroid_rule_le phoneme features st :
  (fst (centroid_rule phoneme features st) <= fst st)%Q.
Proof.
  destruct st as [s i]. unfold centroid_rule.
  destruct (fnum features "spectral_centroid_mean"); simpl; [|lra].
  repeat (match goal with |- context [if ?b then _ else _] => destruct b end); simpl; lra.
Qed.

Lemma type_rule_le phoneme features duration st :
  (fst (type_rule phoneme features duration st) <= fst st)%Q.
Proof.
  destruct st as [s i]. unfold type_rule. simpl.
  pose proof (QofNat_nonneg
    (length (check_phoneme_type_quality phoneme (classify_phoneme_detailed phoneme) features duration))).
  lra.
Qed.

Lemma score_phoneme_quality_unfold self phoneme features duration :
  score_phoneme_quality self phoneme features duration =
  let st := type_rule phoneme features duration
              (centroid_rule phoneme features
                 (energy_rule phoneme features
                    (mfcc_rule phoneme features
                       (duration_rule self phoneme duration (80%Q, []))))) in
  (py_max 0 (py_min 100 (fst st)), snd st).
Proof.
  unfold score_phoneme_quality.
  destruct (type_rule _ _ _ _) as [s i]. reflexivity.
Qed.

Lemma score_phoneme_quality_bounds self phoneme features duration :
  (0 <= fst (score_phoneme_quality self phoneme features duration) <= 100)%Q.
Proof.
  rewrite score_phoneme_quality_unfold. cbv zeta. cbn [fst]. apply clamp_bounds. lra.
Qed.

Lemma score_phoneme_quality_le_base self phoneme features duration :
  (fst (score_phoneme_quality self phoneme features duration) <= 80)%Q.
Proof.
  rewrite score_phoneme_quality_unfold. cbv zeta. cbn [fst].
  apply clamp_le; [lra|].
  eapply Qle_trans; [apply type_rule_le|].
  eapply Qle_trans; [apply centroid_rule_le|].
  eapply Qle_trans; [apply energy_rule_le|].
  eapply Qle_trans; [apply mfcc_rule_le|].
  eapply Qle_trans; [apply duration_rule_le|].
  cbn [fst]. lra.
Qed.

Lemma get_quality_level_excellent s :
  get_quality_level s = "excellent" <-> (90 <= s)%Q.
Proof.
  unfold get_quality_level, Qgeb. split.
  - intros H. destruct (Qle_bool 90 s) eqn:E; [apply Qle_bool_iff; exact E|].
    repeat (match type of H with context [if ?b then _ else _] => destruct b end); discriminate.
  - intros H. apply Qle_bool_iff in H. rewrite H. reflexivity.
Qed.
End RuleProofs.

Section PipelineProofs.
Import PhonemeScorer.

Lemma score_alignment_cases B self audio sr pss iss a :
  score_alignment B self audio sr (pss, iss) a = (pss, iss)
  \/ exists ps, scored self ps
       /\ score_alignment B self audio sr (pss, iss) a = (pss ++ [ps], iss ++ issues ps).
Proof.
  destruct a as [[ph s] e]. unfold score_alignment.
  destruct (0 <? length _)%nat; [|left; reflexivity].
  right.
  destruct (score_phoneme_quality self ph _ (e - s)) as [sc isu] eqn:Hq.
  exists {| phoneme := ph; start_time := s; end_time := e; score := sc;
            confidence := py_min 1.0 (py_max 0.3 (1.0 - QofNat (length isu) * 0.1));
            quality := get_quality_level sc; issues := isu |}.
  split; [|reflexivity].
  eexists. cbn. split; [exact Hq|]. split; reflexivity.
Qed.

Lemma score_alignments_invariant B self audio sr alignments pss iss :
  Forall (scored self) pss ->
  iss = concat (map issues pss) ->
  let '(pss', iss') := foldl (score_alignment B self audio sr) (pss, iss) alignments in
  Forall (scored self) pss' /\ iss' = concat (map issues pss').
Proof.
  revert pss iss. induction alignments as [|a rest IH]; intros pss iss HF Hiss.
  - simpl. auto.
  - cbn [foldl].
    destruct (score_alignment_cases B self audio sr pss iss a) as [E|(ps & Hps & E)];
      rewrite E.
    + apply IH; assumption.
    + apply IH.
      * apply Forall_app. split; [assumption|]. constructor; [assumption|constructor].
      * rewrite map_app, concat_app. cbn. rewrite app_nil_r. congruence.
Qed.

Lemma analysis_phoneme_scores U B self audio text sr :
  let r := analyze_pronunciation_detailed U B self audio text sr in
  Forall (scored self) (phoneme_scores r)
  /\ overall_score r =
       compute_overall_score (phoneme_scores r) (concat (map issues (phoneme_scores r)))
  /\ pronunciation_issues r = Py.list_set (concat (map issues (phoneme_scores r))).
Proof.
  unfold analyze_pronunciation_detailed.
  pose proof (score_alignments_invariant B self audio sr
    (force_align_ctc B audio (text_to_phonemes U self text) sr) [] []) as H.
  destruct (foldl _ _ _) as [pss iss].
  destruct H as [HF Hi]; [constructor|reflexivity|].
  cbn. subst iss. auto.
Qed.

Lemma scored_bounds self ps :
  scored self ps ->
  (0 <= score ps <= 100)%Q /\ (score ps <= 80)%Q
  /\ (confidence ps == Qmin 1 (Qmax 0.3 (1 - 0.1 * QofNat (length (issues ps)))))%Q
  /\ (0.3 <= confidence ps <= 1)%Q
  /\ quality ps <> "excellent".
Proof.
  intros (features & Hq & Hc & Hl).
  pose proof (score_phoneme_quality_bounds self (phoneme ps) features
                (end_time ps - start_time ps)) as Hb.
  pose proof (score_phoneme_quality_le_base self (phoneme ps) features
                (end_time ps - start_time ps)) as Hle.
  rewrite Hq in Hb, Hle. cbn [fst] in Hb, Hle.
  split; [exact Hb|]. split; [exact Hle|].
  split; [|split].
  - rewrite Hc, py_min_is_Qmin, py_max_is_Qmax.
    apply Q.min_compat; [reflexivity|]. apply Q.max_compat; [reflexivity|]. ring.
  - rewrite Hc. pose proof (clamp_bounds 0.3 1.0 (1.0 - QofNat (length (issues ps)) * 0.1)).
    (* py_min 1 (py_max 0.3 x) *)
    split_clamps; split; lra.
  - rewrite Hl. intros Hex. apply get_quality_level_excellent in Hex. lra.
Qed.
End PipelineProofs.

(** ** The two lexicons *)

Section LexiconProofs.
Import PhonemeScorer.

Lemma rules_lookup_elem (rules : list (string * list string)) w ps :
  (list_to_map rules : gmap string (list string)) !! w = Some ps -> (w, ps) ∈ rules.
Proof. apply elem_of_list_to_map_2. Qed.

Lemma converter_rules_in_mapper_rules w ps :
  (w, ps) ∈ text_to_phonemes_rules ->
  (list_to_map map_words_to_phonemes_rules : gmap string (list string)) !! w = Some ps.
Proof.
  intros H. unfold text_to_phonemes_rules in H.
  repeat (apply elem_of_cons in H as [H|H]; [inversion H; subst; vm_compute; reflexivity|]).
  apply elem_of_nil in H. contradiction.
Qed.

Lemma converter_and_mapper_agree_on_rule U w ps :
  (w, ps) ∈ text_to_phonemes_rules ->
  mapped_phonemes_of_text U __init__ w = text_to_phonemes U __init__ w.
Proof.
  intros H. unfold text_to_phonemes_rules in H.
  repeat (apply elem_of_cons in H as [H|H]; [inversion H; subst; vm_compute; reflexivity|]).
  apply elem_of_nil in H. contradiction.
Qed.

Theorem lexicons_differ U :
  let converter : gmap string (list string) := list_to_map text_to_phonemes_rules in
  let mapper : gmap string (list string) := list_to_map map_words_to_phonemes_rules in
  converter ⊂ mapper
  /\ mapped_phonemes_of_text U __init__ "good" <> text_to_phonemes U __init__ "good"
  /\ (forall w, is_Some (converter !! w) ->
        mapped_phonemes_of_text U __init__ w = text_to_phonemes U __init__ w).
Proof.
  cbv zeta. split; [|split].
  - split.
    + apply map_subseteq_spec. intros w ps Hw.
      apply converter_rules_in_mapper_rules, rules_lookup_elem, Hw.
    + intros Hsub. rewrite map_subseteq_spec in Hsub.
      specialize (Hsub "good" ["g"; "ʊ"; "d"]).
      assert (Hgood : (list_to_map map_words_to_phonemes_rules : gmap string (list string))
                        !! "good" = Some ["g"; "ʊ"; "d"]) by (vm_compute; reflexivity).
      specialize (Hsub Hgood). vm_compute in Hsub. discriminate.
  - vm_compute. discriminate.
  - intros w [ps Hw]. apply rules_lookup_elem in Hw.
    eapply converter_and_mapper_agree_on_rule, Hw.
Qed.
End LexiconProofs.

(** ** Word-level analysis *)

Section WordProofs.
Import PhonemeScorer.

Lemma search_window_absent pss expected window :
  absent_from pss expected -> search_window pss expected window = None.
Proof.
  intros Habs. induction window as [|i rest IH]; [reflexivity|].
  cbn [search_window]. destruct (pss !! i) as [ps|] eqn:Hi; [|exact IH].
  destruct (String.eqb (phoneme ps) expected) eqn:E; [|exact IH].
  apply String.eqb_eq in E. exfalso. eapply Habs; [|exact E].
  eapply list_elem_of_lookup_2, Hi.
Qed.

Lemma resolve_phoneme_absent pss st expected :
  absent_from pss expected -> resolve_phoneme pss st expected = st.
Proof.
  intros Habs. destruct st as [[cur wps] wis]. unfold resolve_phoneme.
  destruct (cur <? length pss)%nat; [|reflexivity].
  destruct (pss !! cur) as [ps|] eqn:Hc; [|reflexivity].
  destruct (String.eqb (phoneme ps) expected) eqn:E.
  - apply String.eqb_eq in E. exfalso. eapply Habs; [|exact E].
    eapply list_elem_of_lookup_2, Hc.
  - rewrite search_window_absent by assumption. reflexivity.
Qed.

Lemma resolve_phonemes_absent pss st word_phonemes :
  Forall (absent_from pss) word_phonemes ->
  foldl (resolve_phoneme pss) st word_phonemes = st.
Proof.
  intros HF. revert st. induction HF as [|p rest Hp _ IH]; intros st; [reflexivity|].
  cbn [foldl]. rewrite resolve_phoneme_absent by assumption. apply IH.
Qed.

Lemma analyze_word_unresolved U mapping pss cur acc word word_phonemes :
  mapping !! Py.re_sub_nonword U (Py.lower U word) = Some word_phonemes ->
  Forall (absent_from pss) word_phonemes ->
  analyze_word U mapping pss (cur, acc) word
  = (cur, acc ++ [unresolved_word (Py.re_sub_nonword U (Py.lower U word)) word_phonemes]).
Proof.
  intros Hm Habs. unfold analyze_word. rewrite Hm.
  rewrite resolve_phonemes_absent by assumption. reflexivity.
Qed.

Lemma analyze_word_extends U mapping pss st word :
  exists extra, snd (analyze_word U mapping pss st word) = snd st ++ extra
    /\ Forall (fun ws => w_phoneme_scores ws = [] -> is_sentinel ws) extra.
Proof.
  destruct st as [cur acc]. unfold analyze_word.
  destruct (mapping !! _) as [wp|]; [|exists []; cbn; rewrite app_nil_r; auto].
  destruct (foldl _ _ wp) as [[cur' wps] wis].
  destruct wps as [|p wps]; cbn [is_empty negb].
  - eexists. cbn [snd]. split; [reflexivity|].
    constructor; [|constructor]. intros _. repeat split; discriminate.
  - eexists. cbn [snd]. split; [reflexivity|].
    constructor; [|constructor]. cbn. discriminate.
Qed.

Lemma analyze_words_extends U mapping pss st words :
  exists extra, snd (foldl (analyze_word U mapping pss) st words) = snd st ++ extra
    /\ Forall (fun ws => w_phoneme_scores ws = [] -> is_sentinel ws) extra.
Proof.
  revert st. induction words as [|w rest IH]; intros st.
  - exists []. cbn. rewrite app_nil_r. auto.
  - cbn [foldl].
    destruct (analyze_word_extends U mapping pss st w) as (e1 & H1 & F1).
    destruct (IH (analyze_word U mapping pss st w)) as (e2 & H2 & F2).
    exists (e1 ++ e2). rewrite H2, H1, app_assoc. split; [reflexivity|].
    apply Forall_app. auto.
Qed.

Lemma analyze_words_unresolved U mapping pss st words word word_phonemes :
  word ∈ words ->
  mapping !! Py.re_sub_nonword U (Py.lower U word) = Some word_phonemes ->
  Forall (absent_from pss) word_phonemes ->
  unresolved_word (Py.re_sub_nonword U (Py.lower U word)) word_phonemes
    ∈ snd (foldl (analyze_word U mapping pss) st words).
Proof.
  intros Hin Hm Habs. revert st.
  induction words as [|w rest IH]; intros st; [inversion Hin|].
  cbn [foldl]. apply elem_of_cons in Hin as [->|Hin].
  - destruct st as [cur acc].
    rewrite (analyze_word_unresolved U mapping pss cur acc w word_phonemes Hm Habs).
    destruct (analyze_words_extends U mapping pss
                (cur, acc ++ [unresolved_word (Py.re_sub_nonword U (Py.lower U w)) word_phonemes])
                rest) as (extra & -> & _).
    cbn [snd]. rewrite !elem_of_app, list_elem_of_singleton. auto.
  - apply IH, Hin.
Qed.

(** every index the search visits is a valid index of the score list *)
Lemma search_window_in_range (pss : list PhonemeScore) (cur i : nat) :
  i ∈ seq (Nat.max 0 (cur - 2)) (Nat.min (length pss) (cur + 3) - Nat.max 0 (cur - 2)) ->
  is_Some (pss !! i).
Proof.
  intros Hi. apply elem_of_seq in Hi. apply lookup_lt_is_Some. lia.
Qed.

Theorem unresolved_word_is_sentinel U words mapping pss word word_phonemes :
  word ∈ words ->
  mapping !! Py.re_sub_nonword U (Py.lower U word) = Some word_phonemes ->
  Forall (absent_from pss) word_phonemes ->
  exists ws,
    ws ∈ analyze_word_pronunciation U words mapping pss
    /\ w_word ws = Py.re_sub_nonword U (Py.lower U word)
    /\ w_phoneme_scores ws = []
    /\ is_sentinel ws.
Proof.
  intros Hin Hm Habs.
  exists (unresolved_word (Py.re_sub_nonword U (Py.lower U word)) word_phonemes).
  split; [apply analyze_words_unresolved; assumption|].
  repeat split; discriminate.
Qed.

Theorem words_without_scores_are_sentinels U words mapping pss :
  Forall (fun ws => w_phoneme_scores ws = [] -> is_sentinel ws)
         (analyze_word_pronunciation U words mapping pss).
Proof.
  unfold analyze_word_pronunciation.
  destruct (analyze_words_extends U mapping pss (0%nat, []) words) as (extra & -> & HF).
  exact HF.
Qed.
Lemma analyze_word_sentinel U mapping pss cur acc word word_phonemes :
  mapping !! Py.re_sub_nonword U (Py.lower U word) = Some word_phonemes ->
  resolved_scores pss cur word_phonemes = [] ->
  snd (analyze_word U mapping pss (cur, acc) word)
  = acc ++ [unresolved_word (Py.re_sub_nonword U (Py.lower U word)) word_phonemes].
Proof.
  intros Hm Hnone. unfold analyze_word. rewrite Hm.
  unfold resolved_scores in Hnone.
  destruct (foldl (resolve_phoneme pss) (cur, [], []) word_phonemes) as [[cur' wps] wis].
  cbn [fst snd] in Hnone. subst wps. reflexivity.
Qed.

Lemma exhausted_cursor_resolves_nothing pss cur word_phonemes :
  (length pss <= cur)%nat -> resolved_scores pss cur word_phonemes = [].
Proof.
  intros Hcur. unfold resolved_scores.
  assert (H : foldl (resolve_phoneme pss) (cur, [], []) word_phonemes = (cur, [], [])).
  { induction word_phonemes as [|p rest IH]; [reflexivity|].
    cbn [foldl]. unfold resolve_phoneme at 2.
    destruct (Nat.ltb_spec cur (length pss)); [lia|]. exact IH. }
  rewrite H. reflexivity.
Qed.

Lemma absent_phonemes_resolve_nothing pss cur word_phonemes :
  Forall (absent_from pss) word_phonemes -> resolved_scores pss cur word_phonemes = [].
Proof.
  intros HF. unfold resolved_scores. rewrite resolve_phonemes_absent by exact HF. reflexivity.
Qed.

End WordProofs.

(** ** Alignment *)

Section AlignerProofs.
Import PhonemeAligner.

Lemma chained_from_proper from from' segments to :
  (from == from')%Q -> chained from segments to -> chained from' segments to.
Proof.
  destruct segments as [|s rest]; cbn; intros E H.
  - rewrite <- E. exact H.
  - destruct H as [H1 H2]. split; [rewrite H1; exact E|exact H2].
Qed.

Lemma chained_to_proper from segments to to' :
  (to == to')%Q -> chained from segments to -> chained from segments to'.
Proof.
  revert from. induction segments as [|s rest IH]; cbn; intros from E H.
  - rewrite H. exact E.
  - destruct H as [H1 H2]. split; [exact H1|]. eapply IH; eassumption.
Qed.

Lemma chained_adjacent from segments to i a b :
  chained from segments to ->
  segments !! i = Some a -> segments !! S i = Some b -> (seg_end a == seg_start b)%Q.
Proof.
  revert from i. induction segments as [|s rest IH]; intros from i H Ha Hb; [discriminate|].
  destruct H as [_ H]. destruct i as [|i].
  - cbn in Ha. injection Ha as ->. destruct rest as [|s' rest']; [discriminate|].
    cbn in Hb. injection Hb as ->. destruct H as [H _]. symmetry. exact H.
  - eapply IH; eassumption.
Qed.

Lemma chained_last from segments to s :
  chained from (s :: segments) to ->
  exists final, last (s :: segments) = Some final /\ (seg_end final == to)%Q.
Proof.
  revert from s. induction segments as [|s' rest IH]; intros from s [_ H].
  - exists s. split; [reflexivity|exact H].
  - destruct (IH _ _ H) as (final & Hl & He). exists final. split; [|exact He].
    rewrite last_cons_cons. exact Hl.
Qed.

Lemma chained_tiling total_duration phoneme_sequence segments :
  segments <> [] ->
  map seg_phoneme segments = phoneme_sequence ->
  chained 0 segments total_duration ->
  tiling total_duration phoneme_sequence segments.
Proof.
  intros Hne Hmap Hch. destruct segments as [|s rest]; [congruence|].
  split; [exact Hmap|]. split; [|split].
  - exists s. split; [reflexivity|]. destruct Hch as [H _]. exact H.
  - intros i a b. eapply chained_adjacent, Hch.
  - eapply chained_last, Hch.
Qed.

(** *** Uniform alignment *)

Lemma QofNat_S n : (QofNat (S n) == QofNat n + 1)%Q.
Proof. unfold QofNat. rewrite Nat2Z.inj_succ, <- Z.add_1_r, inject_Z_plus. reflexivity. Qed.

Lemma QofNat_add n m : (QofNat (n + m) == QofNat n + QofNat m)%Q.
Proof. unfold QofNat. rewrite Nat2Z.inj_add, inject_Z_plus. reflexivity. Qed.

Lemma QofNat_pos n : (0 < n)%nat -> (0 < QofNat n)%Q.
Proof. intros H. unfold QofNat. change 0%Q with (inject_Z 0). rewrite <- Zlt_Qlt. lia. Qed.

Lemma QofPos_pos p : (0 < QofPos p)%Q.
Proof. unfold QofPos. change 0%Q with (inject_Z 0). rewrite <- Zlt_Qlt. lia. Qed.

Lemma uniform_chained avg (l : list string) (k : nat) :
  chained (QofNat k * avg)
    (imap (fun i phoneme => (phoneme, QofNat (k + i) * avg, QofNat (k + i + 1) * avg)%Q) l)
    (QofNat (k + length l) * avg).
Proof.
  revert k. induction l as [|x l IH]; intros k.
  - cbn. rewrite Nat.add_0_r. reflexivity.
  - cbn [imap chained seg_start seg_end fst snd length]. split.
    + rewrite Nat.add_0_r. reflexivity.
    + specialize (IH (S k)).
      erewrite imap_ext; [|intros i y _; cbn; rewrite Nat.add_succ_r; reflexivity].
      eapply chained_from_proper; [|eapply chained_to_proper; [|exact IH]].
      * rewrite Nat.add_0_r, Nat.add_1_r. reflexivity.
      * rewrite Nat.add_succ_r. reflexivity.
Qed.

Lemma uniform_phonemes (f g : nat -> Q) (l : list string) :
  map seg_phoneme (imap (fun i phoneme => (phoneme, f i, g i)) l) = l.
Proof.
  revert f g. induction l as [|x l IH]; intros f g; [reflexivity|].
  cbn [imap map]. f_equal. apply (IH (f ∘ S) (g ∘ S)).
Qed.

Lemma simple_uniform_alignment_tiling audio_length phoneme_sequence sr :
  phoneme_sequence <> [] ->
  tiling (QofNat audio_length / QofPos sr) phoneme_sequence
         (simple_uniform_alignment audio_length phoneme_sequence sr).
Proof.
  intros Hne. unfold simple_uniform_alignment.
  destruct phoneme_sequence as [|p rest]; [congruence|].
  set (l := p :: rest). change (length l =? 0)%nat with false. cbv iota zeta.
  apply chained_tiling.
  - discriminate.
  - apply (uniform_phonemes (fun i => _) (fun i => _)).
  - pose proof (uniform_chained (QofNat audio_length / QofPos sr / QofNat (length l)) l 0) as H.
    cbn [Nat.add] in H.
    eapply chained_from_proper; [|eapply chained_to_proper; [|exact H]].
    + unfold QofNat at 1. cbn. ring.
    + assert (Hpos : (0 < QofNat (length l))%Q) by (apply QofNat_pos; cbn; lia).
      pose proof (QofPos_pos sr). field. split; lra.
Qed.


(** *** Energy-based alignment *)

Lemma length_linspace_int stop num : length (linspace_int stop num) = num.
Proof.
  unfold linspace_int. destruct num as [|[|n]]; [reflexivity..|].
  rewrite length_map, length_seq. reflexivity.
Qed.

Lemma length_take_indices {A} (arr : list A) idx picked :
  take_indices arr idx = Some picked -> length picked = length idx.
Proof.
  unfold take_indices. intros H. apply mapM_Some_1 in H.
  symmetry. eapply Forall2_length, H.
Qed.

Lemma segment_at_Some phoneme_sequence segment_times i s :
  segment_at phoneme_sequence segment_times i = Some s ->
  phoneme_sequence !! i = Some (seg_phoneme s)
  /\ segment_times !! i = Some (seg_start s)
  /\ segment_times !! S i = Some (seg_end s).
Proof.
  unfold segment_at. intros H.
  destruct (phoneme_sequence !! i) as [ph|]; [|discriminate].
  destruct (segment_times !! i) as [a|]; [|discriminate].
  rewrite Nat.add_1_r in H.
  destruct (segment_times !! S i) as [b|]; [|discriminate].
  cbn in H. injection H as <-. auto.
Qed.



(** *** Duration-weighted alignment *)

Lemma foldl_Qplus a l : (foldl Qplus a l == a + Qtotal l)%Q.
Proof.
  revert a. induction l as [|x l IH]; intros a; cbn [foldl Qtotal].
  - ring.
  - rewrite IH. ring.
Qed.

Lemma Qsum_total l : (Qsum l == Qtotal l)%Q.
Proof. unfold Qsum. rewrite foldl_Qplus. ring. Qed.

Lemma allot_phonemes self W T cur items :
  map seg_phoneme (allot self W T cur items) = map fst items.
Proof.
  revert cur. induction items as [|[ph w] rest IH]; intros cur; [reflexivity|].
  cbn [allot map fst]. f_equal. apply IH.
Qed.

Lemma allot_chained self W T cur items :
  chained cur (allot self W T cur items)
          (cur + Qtotal (map (fun it => clamped_span self W T (snd it)) items)).
Proof.
  revert cur. induction items as [|[ph w] rest IH]; intros cur.
  - cbn. ring.
  - cbn [allot chained seg_start seg_end fst snd map Qtotal]. split; [reflexivity|].
    eapply chained_to_proper; [|apply IH]. unfold clamped_span. ring.
Qed.

Lemma allot_durations self W T cur items :
  (Qtotal (durations (allot self W T cur items))
   == Qtotal (map (fun it => clamped_span self W T (snd it)) items))%Q.
Proof.
  revert cur. induction items as [|[ph w] rest IH]; intros cur.
  - reflexivity.
  - cbn [allot durations map Qtotal seg_start seg_end fst snd].
    fold (durations (allot self W T
            (cur + py_max (min_phoneme_duration self)
                     (py_min (max_phoneme_duration self) (w / W * T))) rest)).
    rewrite IH. unfold clamped_span. ring.
Qed.

Lemma allot_durations_bounded self W T cur items :
  (min_phoneme_duration self <= max_phoneme_duration self)%Q ->
  Forall (fun d => (min_phoneme_duration self <= d <= max_phoneme_duration self)%Q)
         (durations (allot self W T cur items)).
Proof.
  intros Hmm. revert cur. induction items as [|[ph w] rest IH]; intros cur.
  - constructor.
  - cbn [allot durations map seg_start seg_end fst snd]. constructor; [|apply IH].
    pose proof (clamp_bounds (min_phoneme_duration self) (max_phoneme_duration self)
                  (w / W * T) Hmm) as Hb.
    revert Hb. generalize (py_max (min_phoneme_duration self)
                (py_min (max_phoneme_duration self) (w / W * T))).
    intros d Hb. split; lra.
Qed.

Lemma clamped_span_inside self W T w :
  (min_phoneme_duration self <= w / W * T <= max_phoneme_duration self)%Q ->
  (clamped_span self W T w == w / W * T)%Q.
Proof.
  unfold clamped_span. generalize (w / W * T)%Q. intros x [Hlo Hhi].
  split_clamps; lra.
Qed.

Lemma unclamped_total self W T (weights : list Q) :
  Forall (fun w => (min_phoneme_duration self <= w / W * T <= max_phoneme_duration self)%Q)
         weights ->
  (Qtotal (map (clamped_span self W T) weights) == Qtotal weights / W * T)%Q.
Proof.
  induction 1 as [|w rest Hw _ IH]; cbn [map Qtotal].
  - unfold Qdiv. ring.
  - rewrite IH, (clamped_span_inside _ _ _ _ Hw). unfold Qdiv. ring.
Qed.

Lemma duration_weighted_alignment_unfold self audio_length p rest sr :
  let phoneme_sequence := p :: rest in
  let weights := map weight_of phoneme_sequence in
  duration_weighted_alignment self audio_length phoneme_sequence sr
  = allot self (Qsum weights) (QofNat audio_length / QofPos sr) 0.0
          (zip phoneme_sequence weights).
Proof. reflexivity. Qed.

Theorem duration_weighted_alignment_props self audio_length phoneme_sequence sr :
  phoneme_sequence <> [] ->
  let total_duration := (QofNat audio_length / QofPos sr)%Q in
  let weights := map weight_of phoneme_sequence in
  let total_weight := Qsum weights in
  let segments := duration_weighted_alignment self audio_length phoneme_sequence sr in
  tiling (Qtotal (map (clamped_span self total_weight total_duration) weights))
         phoneme_sequence segments
  /\ (Qsum (durations segments)
      == Qtotal (map (clamped_span self total_weight total_duration) weights))%Q.
Proof.
  intros Hne. destruct phoneme_sequence as [|p rest]; [congruence|].
  cbv zeta. rewrite duration_weighted_alignment_unfold. cbv zeta.
  set (l := p :: rest). set (W := Qsum (map weight_of l)).
  set (T := (QofNat audio_length / QofPos sr)%Q).
  assert (Hsnd : map (fun it : string * Q => clamped_span self W T (snd it))
                     (zip l (map weight_of l))
                 = map (clamped_span self W T) (map weight_of l)).
  { rewrite <- (map_map snd (clamped_span self W T)).
    f_equal. apply snd_zip. rewrite length_map. lia. }
  split.
  - apply chained_tiling.
    + discriminate.
    + rewrite allot_phonemes. apply fst_zip. rewrite length_map. lia.
    + eapply chained_from_proper; [|eapply chained_to_proper; [|apply allot_chained]].
      * reflexivity.
      * rewrite Hsnd. ring.
  - rewrite Qsum_total, allot_durations, Hsnd. reflexivity.
Qed.
(** *** What holds of the binary64 values as well

    The lemmas above compute in exact arithmetic.  Those below say of the
    segments only what rounding leaves true. *)

Lemma tiling_gapless total_duration phoneme_sequence segments :
  tiling total_duration phoneme_sequence segments -> gapless phoneme_sequence segments.
Proof. intros (H1 & H2 & H3 & _). repeat split; assumption. Qed.





Lemma allot_lookup self W T items : forall cur i s,
  allot self W T cur items !! i = Some s ->
  exists ph w,
    items !! i = Some (ph, w)
    /\ seg_phoneme s = ph
    /\ seg_end s = (seg_start s + clamped_span self W T w)%Q.
Proof.
  induction items as [|[ph w] rest IH]; intros cur i s Hs; [discriminate|].
  cbn [allot] in Hs. destruct i as [|i].
  - cbn in Hs. injection Hs as <-. exists ph, w. repeat split; reflexivity.
  - cbn [lookup list_lookup] in Hs |- *. apply (IH _ _ _ Hs).
Qed.

Lemma clamped_span_bounds W T w :
  (0.03 <= clamped_span __init__ W T w <= 0.4)%Q.
Proof. unfold clamped_span. apply clamp_bounds. cbn. lra. Qed.

End AlignerProofs.

(** ** The claims on alignment *)

Section AlignmentClaims.
Import PhonemeAligner.

Lemma tiling_total_proper total total' phoneme_sequence segments :
  (total == total')%Q ->
  tiling total phoneme_sequence segments -> tiling total' phoneme_sequence segments.
Proof.
  intros E (H1 & H2 & H3 & (final & Hl & He)).
  split; [exact H1|]. split; [exact H2|]. split; [exact H3|].
  exists final. split; [exact Hl|]. rewrite He. exact E.
Qed.

Lemma unclamped_weight_nonzero self W T w :
  (0 < min_phoneme_duration self)%Q ->
  (min_phoneme_duration self <= w / W * T <= max_phoneme_duration self)%Q ->
  ~ (W == 0)%Q.
Proof.
  intros Hpos [Hlo _] HW.
  assert (Hz : (w / W * T == 0)%Q).
  { rewrite HW. unfold Qdiv. change (/ 0)%Q with 0%Q. ring. }
  rewrite Hz in Hlo. lra.
Qed.

Lemma unclamped_spans_total self phoneme_sequence total_duration :
  phoneme_sequence <> [] ->
  (0 < min_phoneme_duration self)%Q ->
  let weights := map weight_of phoneme_sequence in
  let total_weight := Qsum weights in
  Forall (fun w => (min_phoneme_duration self <= w / total_weight * total_duration
                    <= max_phoneme_duration self)%Q) weights ->
  (Qtotal (map (clamped_span self total_weight total_duration) weights) == total_duration)%Q.
Proof.
  intros Hne Hpos weights total_weight HF.
  rewrite (unclamped_total _ _ _ _ HF).
  assert (HW : ~ (total_weight == 0)%Q).
  { destruct phoneme_sequence as [|p rest]; [congruence|].
    inversion HF as [|w ws Hw _]; subst.
    eapply unclamped_weight_nonzero; eassumption. }
  unfold total_weight at 1. rewrite <- Qsum_total. fold total_weight.
  field. exact HW.
Qed.

(** Claim C2, as the code has it.  The duration-weighted alignment gives
    each phoneme a span between 0.03 s and 0.4 s, its weighted share
    [weight / total_weight * total_duration] clamped, and lays the spans end
    to end from 0: a segment ends at its start plus its span and the next
    one starts there.  The durations sum to the total audio duration to
    within 1e-6 s when no weighted share falls outside these bounds, that is
    when the clamp changes no span; a clamped span is not made up for. *)
Theorem duration_weighted_sum_when_unclamped audio_length phoneme_sequence sr :
  phoneme_sequence <> [] ->
  let total_duration := (QofNat audio_length / QofPos sr)%Q in
  let weights := map weight_of phoneme_sequence in
  let total_weight := Qsum weights in
  let segments := duration_weighted_alignment __init__ audio_length phoneme_sequence sr in
  gapless phoneme_sequence segments
  /\ (forall i s, segments !! i = Some s ->
        exists ph,
          phoneme_sequence !! i = Some ph
          /\ seg_end s
             = (seg_start s + clamped_span __init__ total_weight total_duration (weight_of ph))%Q
          /\ (0.03 <= clamped_span __init__ total_weight total_duration (weight_of ph)
              <= 0.4)%Q)
  /\ (Forall (fun w => (0.03 <= w / total_weight * total_duration <= 0.4)%Q) weights ->
      (Qabs (Qsum (durations segments) - total_duration) <= 1e-6)%Q).
Proof.
  intros Hne. cbv zeta.
  destruct (duration_weighted_alignment_props __init__ audio_length phoneme_sequence sr Hne)
    as [Htile Hsum]. cbv zeta in Htile, Hsum.
  split; [eapply tiling_gapless, Htile|]. split.
  - intros i s Hs. destruct phoneme_sequence as [|p rest]; [congruence|].
    rewrite duration_weighted_alignment_unfold in Hs. cbv zeta in Hs.
    apply allot_lookup in Hs as (ph & w & Hi & _ & He).
    apply lookup_zip_with_Some in Hi as (ph' & w' & Hpair & Hph & Hw).
    injection Hpair as <- <-.
    change (map weight_of (p :: rest)) with (weight_of <$> (p :: rest)) in Hw.
    rewrite list_lookup_fmap, Hph in Hw. cbn in Hw. injection Hw as <-.
    exists ph. split; [exact Hph|]. split; [exact He|apply clamped_span_bounds].
  - intros HF.
    assert (Heq : (Qsum (durations (duration_weighted_alignment __init__ audio_length
                                      phoneme_sequence sr))
                   == QofNat audio_length / QofPos sr)%Q).
    { rewrite Hsum. apply (unclamped_spans_total __init__); [exact Hne|cbn; lra|exact HF]. }
    rewrite Heq.
    assert (Hz : (QofNat audio_length / QofPos sr - QofNat audio_length / QofPos sr == 0)%Q)
      by ring.
    rewrite Hz. apply Qle_bool_iff. reflexivity.
Qed.

Lemma duration_weighted_sum_witness :
  (Qabs (Qsum (durations (duration_weighted_alignment __init__ 16000
                            ["ð"; "ə"; "c"; "æ"; "t"] 16000))
         - QofNat 16000 / QofPos 16000) <= 1e-6)%Q.
Proof.
  apply (duration_weighted_sum_when_unclamped 16000 ["ð"; "ə"; "c"; "æ"; "t"] 16000).
  - discriminate.
  - repeat constructor; vm_compute; discriminate.
Defined.

(** Claim C2 as stated fails: one second of audio for the single phoneme
    [s] gives one segment, clamped to 0.4 s. *)
Lemma duration_weighted_sum_counterexample :
  ~ (Qabs (Qsum (durations (duration_weighted_alignment __init__ 16000 ["s"] 16000))
           - QofNat 16000 / QofPos 16000) <= 1e-6)%Q.
Proof.
  intros H. apply Qle_bool_iff in H. vm_compute in H. discriminate.
Qed.



Example energy_based_alignment_cuts :
  energy_based_alignment (fun _ _ => Py.Return [2; 5]%nat)
    (repeat 0%Q 4096) ["ð"; "ə"; "c"] 16000
  = [("ð", 0.0, QofNat 2 * (QofNat 512 / QofPos 16000));
     ("ə", QofNat 2 * (QofNat 512 / QofPos 16000), QofNat 5 * (QofNat 512 / QofPos 16000));
     ("c", QofNat 5 * (QofNat 512 / QofPos 16000), QofNat 4096 / QofPos 16000)]%Q.
Proof. vm_compute. reflexivity. Qed.


End AlignmentClaims.

(** ** The claims on phoneme scores *)

Section PhonemeScoreClaims.
Import PhonemeScorer.

(** Claim C6.  Whatever the phoneme, the features and the duration, the
    score of [score_phoneme_quality] lies in [[0, 100]]; and every phoneme
    score the analysis builds has the confidence
    [min(1, max(0.3, 1 - 0.1 * issue_count))], hence a confidence in
    [[0.3, 1]], and a score in [[0, 100]]. *)
Theorem phoneme_score_and_confidence_bounds :
  (forall self phoneme features duration,
      (0 <= fst (score_phoneme_quality self phoneme features duration) <= 100)%Q)
  /\ (forall U B self audio_data reference_text sr ps,
        ps ∈ phoneme_scores (analyze_pronunciation_detailed U B self audio_data reference_text sr) ->
        (confidence ps == Qmin 1 (Qmax 0.3 (1 - 0.1 * QofNat (length (issues ps)))))%Q
        /\ (0.3 <= confidence ps <= 1)%Q
        /\ (0 <= score ps <= 100)%Q).
Proof.
  split; [apply score_phoneme_quality_bounds|].
  intros U B self audio_data reference_text sr ps Hin.
  destruct (analysis_phoneme_scores U B self audio_data reference_text sr) as [HF _].
  rewrite Forall_forall in HF.
  destruct (scored_bounds self ps (HF ps Hin)) as (Hs & _ & Hc & Hcb & _).
  auto.
Qed.

Lemma phoneme_score_and_confidence_bounds_witness :
  exists ps,
    phoneme_scores (analyze_pronunciation_detailed Py.letters_only Scoring.installed_backend
                      __init__ (repeat 0.5%Q 8) "the cat" 16000) !! 3%nat = Some ps
    /\ (0.3 <= confidence ps <= 1)%Q /\ (0 <= score ps <= 100)%Q.
Proof.
  eexists. split; [vm_compute; reflexivity|].
  eapply (proj2 phoneme_score_and_confidence_bounds Py.letters_only Scoring.installed_backend
            __init__ (repeat 0.5%Q 8) "the cat" 16000%positive).
  eapply (list_elem_of_lookup_2 _ 3%nat). vm_compute. reflexivity.
Defined.

(** Claim C8.  No rule of [score_phoneme_quality] adds to the base score:
    the score is at most 80, so no phoneme score the analysis builds is
    labelled excellent. *)
Theorem phoneme_score_never_excellent :
  (forall self phoneme features duration,
      (fst (score_phoneme_quality self phoneme features duration) <= 80)%Q)
  /\ (forall U B self audio_data reference_text sr ps,
        ps ∈ phoneme_scores (analyze_pronunciation_detailed U B self audio_data reference_text sr) ->
        (score ps <= 80)%Q /\ quality ps <> "excellent").
Proof.
  split; [apply score_phoneme_quality_le_base|].
  intros U B self audio_data reference_text sr ps Hin.
  destruct (analysis_phoneme_scores U B self audio_data reference_text sr) as [HF _].
  rewrite Forall_forall in HF.
  destruct (scored_bounds self ps (HF ps Hin)) as (_ & Hle & _ & _ & Hq).
  auto.
Qed.

Lemma phoneme_score_never_excellent_witness :
  exists ps,
    phoneme_scores (analyze_pronunciation_detailed Py.letters_only Scoring.installed_backend
                      __init__ (repeat 0.5%Q 8) "the cat" 16000) !! 0%nat = Some ps
    /\ (score ps <= 80)%Q /\ quality ps <> "excellent".
Proof.
  eexists. split; [vm_compute; reflexivity|].
  eapply (proj2 phoneme_score_never_excellent Py.letters_only Scoring.installed_backend
            __init__ (repeat 0.5%Q 8) "the cat" 16000%positive).
  eapply (list_elem_of_lookup_2 _ 0%nat). vm_compute. reflexivity.
Defined.

(** Claim C7.  A word of the list whose cleaned form is in the mapping and
    for which the search resolves no phoneme (neither at the cursor nor in
    the window of two entries before and after it) gets an entry with score
    0, quality [unknown], a non-empty list of issues and
    [needs_improvement] set, at its place in the result.  The search
    resolves nothing in particular when no entry of the score sequence
    carries a phoneme of the word, and when the cursor has passed the last
    entry.  The function is total; [search_window_in_range] shows that its
    search never leaves the score sequence. *)
Theorem unresolved_word_yields_sentinel U before word after word_phoneme_mapping
    phoneme_scores word_phonemes :
  word_phoneme_mapping !! Py.re_sub_nonword U (Py.lower U word) = Some word_phonemes ->
  let current_phoneme_index := cursor_after U word_phoneme_mapping phoneme_scores before in
  (Forall (absent_from phoneme_scores) word_phonemes ->
   resolved_scores phoneme_scores current_phoneme_index word_phonemes = [])
  /\ ((length phoneme_scores <= current_phoneme_index)%nat ->
      resolved_scores phoneme_scores current_phoneme_index word_phonemes = [])
  /\ (resolved_scores phoneme_scores current_phoneme_index word_phonemes = [] ->
      exists ws,
        analyze_word_pronunciation U (before ++ word :: after) word_phoneme_mapping
          phoneme_scores
          !! length (analyze_word_pronunciation U before word_phoneme_mapping phoneme_scores)
        = Some ws
        /\ w_word ws = Py.re_sub_nonword U (Py.lower U word)
        /\ w_phonemes ws = word_phonemes
        /\ w_phoneme_scores ws = []
        /\ w_score ws = 0%Q /\ w_quality ws = "unknown" /\ w_issues ws <> []
        /\ w_needs_improvement ws = true).
Proof.
  intros Hm current_phoneme_index.
  split; [apply absent_phonemes_resolve_nothing|].
  split; [apply exhausted_cursor_resolves_nothing|].
  intros Hnone.
  exists (unresolved_word (Py.re_sub_nonword U (Py.lower U word)) word_phonemes).
  split; [|repeat split; discriminate].
  unfold analyze_word_pronunciation, current_phoneme_index, cursor_after in *.
  rewrite foldl_app. cbn [foldl].
  destruct (foldl (analyze_word U word_phoneme_mapping phoneme_scores) (0%nat, []) before)
    as [cur acc] eqn:Eb.
  cbn [fst snd] in *.
  destruct (analyze_words_extends U word_phoneme_mapping phoneme_scores
              (analyze_word U word_phoneme_mapping phoneme_scores (cur, acc) word) after)
    as (extra & -> & _).
  rewrite (analyze_word_sentinel U _ _ cur acc word word_phonemes Hm Hnone).
  rewrite <- app_assoc. cbn [app].
  apply list_lookup_middle. reflexivity.
Qed.

(* the phonemes of [cat] are all in the score sequence, out of reach of the
   window around the cursor *)
Lemma unresolved_word_yields_sentinel_witness :
  exists ws,
    analyze_word_pronunciation Py.letters_only ["cat"]
      (map_words_to_phonemes Py.letters_only __init__ ["cat"])
      (map (fun ph => {| phoneme := ph; start_time := 0; end_time := 0.1; score := 80;
                         confidence := 1.0; quality := "good"; issues := [] |})
           ["ð"; "ə"; "ð"; "ə"; "c"; "æ"; "t"]) !! 0%nat = Some ws
    /\ w_word ws = "cat"
    /\ w_phonemes ws = ["c"; "æ"; "t"]
    /\ w_phoneme_scores ws = []
    /\ w_score ws = 0%Q /\ w_quality ws = "unknown" /\ w_issues ws <> []
    /\ w_needs_improvement ws = true.
Proof.
  refine (proj2 (proj2 (unresolved_word_yields_sentinel Py.letters_only [] "cat" []
           (map_words_to_phonemes Py.letters_only __init__ ["cat"])
           (map (fun ph => {| phoneme := ph; start_time := 0; end_time := 0.1; score := 80;
                              confidence := 1.0; quality := "good"; issues := [] |})
                ["ð"; "ə"; "ð"; "ə"; "c"; "æ"; "t"])
           ["c"; "æ"; "t"] _)) _).
  - vm_compute. reflexivity.
  - vm_compute. reflexivity.
Defined.

(** The second [the] of [the the] finds the cursor past the two scores. *)
Example second_the_is_unresolved :
  map w_quality
    (analyze_word_pronunciation Py.letters_only ["the"; "the"]
       (map_words_to_phonemes Py.letters_only __init__ ["the"; "the"])
       (map (fun ph => {| phoneme := ph; start_time := 0; end_time := 0.1; score := 80;
                          confidence := 1.0; quality := "good"; issues := [] |})
            ["ð"; "ə"]))
  = ["fair"; "unknown"].
Proof. vm_compute. reflexivity. Qed.

Lemma lexicons_differ_witness :
  mapped_phonemes_of_text Py.letters_only __init__ "people"
  = text_to_phonemes Py.letters_only __init__ "people".
Proof.
  apply (proj2 (proj2 (lexicons_differ Py.letters_only))).
  vm_compute. eexists. reflexivity.
Defined.

End PhonemeScoreClaims.

(** ** The utterance score *)

Section OverallScoreProofs.
Import PhonemeScorer.

Lemma Qltb_compat x x' y y' : (x == x')%Q -> (y == y')%Q -> Qltb x y = Qltb x' y'.
Proof. intros Hx Hy. unfold Qltb. rewrite Hx, Hy. reflexivity. Qed.

Lemma quality_weight_lookup q :
  default 0.5%Q ((list_to_map [("excellent", 1.0); ("good", 0.9); ("fair", 0.7); ("poor", 0.4)]%Q
                    : gmap string Q) !! q) = quality_weight q.
Proof.
  unfold quality_weight. cbn [list_to_map foldr curry fst snd uncurry].
  repeat case_decide; subst; try reflexivity.
  rewrite !lookup_insert_ne by congruence. rewrite lookup_empty. reflexivity.
Qed.

Lemma lowered_compat limit x y :
  (x == y)%Q -> (py_min limit (x - 5) == Qmin limit (y - 5))%Q.
Proof.
  intros E. rewrite py_min_is_Qmin. apply Q.min_compat; [reflexivity|]. rewrite E. reflexivity.
Qed.

Lemma final_adjustments_compat l x y :
  (x == y)%Q ->
  (final_adjustments (fun limit s => py_min limit (s - 5)) l x
   == final_adjustments (fun limit s => Qmin limit (s - 5)) l y)%Q.
Proof.
  intros E. unfold final_adjustments, Qgtb.
  rewrite (Qltb_compat 85 85 x y (Qeq_refl _) E).
  destruct (Qltb 85 y && _).
  - pose proof (lowered_compat 85 x y E) as E1.
    rewrite (Qltb_compat 75 75 _ _ (Qeq_refl _) E1).
    destruct (Qltb 75 _ && _); [apply lowered_compat|]; exact E1.
  - rewrite (Qltb_compat 75 75 _ _ (Qeq_refl _) E).
    destruct (Qltb 75 _ && _); [apply lowered_compat|]; exact E.
Qed.

Lemma compute_overall_score_unfold p rest all_issues :
  let l := p :: rest in
  let severe := length (filter (fun issue => is_severe issue = true) all_issues) in
  let penalty :=
    (let penalty := 0 in
     let penalty := if Qgtb (quality_ratio "poor" l) 0.3 then penalty + 15
                    else if Qgtb (quality_ratio "poor" l) 0.2 then penalty + 10 else penalty in
     let penalty := if Qgtb (quality_ratio "fair" l) 0.4 then penalty + 8 else penalty in
     let penalty :=
       if Qgtb (QofNat (length all_issues)) (QofNat (length l) * 0.5) then penalty + 12
       else if Qgtb (QofNat (length all_issues)) (QofNat (length l) * 0.3) then penalty + 6
       else penalty in
     if (3 <? severe)%nat then penalty + 10 else penalty)%Q in
  let base :=
    np_mean (map (fun ps => score ps * confidence ps
                   * default 0.5 ((list_to_map [("excellent", 1.0); ("good", 0.9);
                                                 ("fair", 0.7); ("poor", 0.4)]
                                     : gmap string Q) !! quality ps))%Q l) in
  compute_overall_score l all_issues
  = (let s := py_max 0 (py_min 100 (base - penalty)) in
     let s := if Qgtb s 85 && (Qgtb (quality_ratio "poor" l) 0.1 || (1 <? severe)%nat)
              then py_min 85 (s - 5) else s in
     if Qgtb s 75 && Qgtb (quality_ratio "poor" l) 0.2 then py_min 75 (s - 5) else s).
Proof. reflexivity. Qed.

Lemma weighted_scores_mean l :
  l <> [] ->
  (np_mean (map (fun ps => score ps * confidence ps
                   * default 0.5 ((list_to_map [("excellent", 1.0); ("good", 0.9);
                                                 ("fair", 0.7); ("poor", 0.4)]
                                     : gmap string Q) !! quality ps))%Q l)
   == weighted_mean l)%Q.
Proof.
  intros Hne. unfold np_mean, weighted_mean. rewrite Qsum_total, length_map.
  erewrite map_ext; [reflexivity|].
  intros ps. cbv beta. rewrite quality_weight_lookup. reflexivity.
Qed.

(** The adjustments as the code writes them, [min(limit, score - 5)]. *)
Lemma compute_overall_score_lowered l :
  (compute_overall_score l (utterance_issues l) == lowered_overall_score l)%Q.
Proof.
  destruct l as [|p rest]; [reflexivity|].
  rewrite compute_overall_score_unfold. cbv zeta.
  unfold lowered_overall_score.
  match goal with |- (?lhs == _)%Q =>
    change lhs with
      (final_adjustments (fun limit s => py_min limit (s - 5)) (p :: rest)
         (py_max 0 (py_min 100 (
            np_mean (map (fun ps => score ps * confidence ps
                   * default 0.5 ((list_to_map [("excellent", 1.0); ("good", 0.9);
                                                 ("fair", 0.7); ("poor", 0.4)]
                                     : gmap string Q) !! quality ps))%Q (p :: rest))
            - (let penalty := 0 in
     let penalty := if Qgtb (quality_ratio "poor" (p :: rest)) 0.3 then penalty + 15
                    else if Qgtb (quality_ratio "poor" (p :: rest)) 0.2 then penalty + 10 else penalty in
     let penalty := if Qgtb (quality_ratio "fair" (p :: rest)) 0.4 then penalty + 8 else penalty in
     let penalty :=
       if Qgtb (QofNat (length (utterance_issues (p :: rest)))) (QofNat (length (p :: rest)) * 0.5) then penalty + 12
       else if Qgtb (QofNat (length (utterance_issues (p :: rest)))) (QofNat (length (p :: rest)) * 0.3) then penalty + 6
       else penalty in
     if (3 <? severe_count (p :: rest))%nat then penalty + 10 else penalty)%Q))))
  end.
  apply final_adjustments_compat.
  unfold penalised_score.
  rewrite py_max_is_Qmax, py_min_is_Qmin.
  apply Q.max_compat; [reflexivity|]. apply Q.min_compat; [reflexivity|].
  rewrite weighted_scores_mean by discriminate.
  unfold global_penalty. cbv zeta.
  repeat (match goal with |- context [if ?b then _ else _] => destruct b end); ring.
Qed.

End OverallScoreProofs.

(** ** The acoustic feature extractor *)

Section ExtractorProofs.
Import AcousticFeatureExtractor.
Import PhonemeScorer (fvalue, FNum, FVec, FMat).

Lemma dom_items (items : list (string * fvalue)) :
  dom (list_to_map items : gmap string fvalue) = list_to_set (items.*1).
Proof. apply dom_list_to_map_L. Qed.

Ltac key_sets :=
  apply set_eq; intros ?;
  cbn [fmap list_fmap fst];
  rewrite ?elem_of_union, ?elem_of_singleton, ?elem_of_list_to_set;
  unfold f0_keys, formant_keys, spectral_keys, temporal_keys;
  rewrite ?elem_of_cons, ?elem_of_nil; tauto.

Lemma dom_f0_defaults : dom f0_defaults = list_to_set f0_keys.
Proof. unfold f0_defaults. rewrite dom_items. reflexivity. Qed.

Lemma dom_formant_defaults : dom formant_defaults = list_to_set formant_keys.
Proof. unfold formant_defaults. rewrite dom_items. reflexivity. Qed.

Lemma dom_extract_f0_features N self audio :
  dom (extract_f0_features N self audio) = list_to_set f0_keys.
Proof.
  unfold extract_f0_features.
  destruct (librosa_yin N audio (sr self)) as [f0|e]; [|apply dom_f0_defaults].
  destruct (_ =? 0)%nat; [apply dom_f0_defaults|].
  destruct (1 <? _)%nat.
  - destruct (linregress_slope N _); [|apply dom_f0_defaults].
    rewrite dom_insert_L, dom_items. key_sets.
  - rewrite dom_insert_L, dom_items. key_sets.
Qed.

Lemma dom_extract_formant_features N self audio :
  dom (extract_formant_features N self audio) = list_to_set formant_keys.
Proof.
  unfold extract_formant_features.
  destruct audio as [|first rest]; [apply dom_formant_defaults|].
  cbv zeta. destruct (_ <? _)%nat; [|apply dom_formant_defaults].
  destruct (lpc_formants N _ (sr self)); [|apply dom_formant_defaults].
  rewrite dom_items. reflexivity.
Qed.

Lemma dom_extract_spectral_features N self audio :
  dom (extract_spectral_features N self audio)
  = match spectral_stats N audio (sr self) with
    | Py.Return _ => list_to_set spectral_keys
    | Py.Raise _ => ∅
    end.
Proof.
  unfold extract_spectral_features.
  destruct (spectral_stats N audio (sr self)); [|apply dom_empty_L].
  rewrite dom_items. reflexivity.
Qed.

Lemma dom_extract_temporal_features N audio :
  dom (extract_temporal_features N audio)
  = match temporal_stats N audio with
    | Py.Return _ => list_to_set temporal_keys
    | Py.Raise _ => ∅
    end.
Proof.
  unfold extract_temporal_features.
  destruct (temporal_stats N audio); [|apply dom_empty_L].
  rewrite dom_items. reflexivity.
Qed.

(** What [extract_all_features] returns on a non-empty buffer, one lookup
    at a time: the extractor that ran last wins. *)
Lemma lookup_extract_all_features N self audio k :
  audio <> [] ->
  extract_all_features N self audio !! k
  = union_with (fun x _ => Some x) (extract_temporal_features N audio !! k)
      (union_with (fun x _ => Some x) (extract_spectral_features N self audio !! k)
         (union_with (fun x _ => Some x) (extract_formant_features N self audio !! k)
            (extract_f0_features N self audio !! k))).
Proof.
  intros Hne. unfold extract_all_features, update.
  destruct audio as [|a rest]; [congruence|].
  change (length (a :: rest) =? 0)%nat with false. cbv iota zeta.
  rewrite !lookup_union, lookup_empty.
  destruct (extract_f0_features N self (a :: rest) !! k); reflexivity.
Qed.

Ltac in_keys H :=
  repeat (apply elem_of_cons in H as [->|H]); [..|inversion H].

Ltac not_in_keys :=
  let H := fresh in
  apply not_elem_of_dom_1;
  rewrite ?dom_extract_f0_features, ?dom_extract_formant_features;
  rewrite elem_of_list_to_set;
  unfold f0_keys, formant_keys, spectral_keys, temporal_keys;
  rewrite ?elem_of_cons, ?elem_of_nil; intros H; decompose [or] H; first [discriminate | contradiction].

Lemma other_keys_not_f0 N self audio k :
  k ∈ formant_keys ++ spectral_keys ++ temporal_keys ->
  extract_f0_features N self audio !! k = None.
Proof.
  intros Hk. unfold formant_keys, spectral_keys, temporal_keys in Hk. cbn [app] in Hk.
  in_keys Hk; not_in_keys.
Qed.

Lemma other_keys_not_formant N self audio k :
  k ∈ f0_keys ++ spectral_keys ++ temporal_keys ->
  extract_formant_features N self audio !! k = None.
Proof.
  intros Hk. unfold f0_keys, spectral_keys, temporal_keys in Hk. cbn [app] in Hk.
  in_keys Hk; not_in_keys.
Qed.

Lemma other_keys_not_spectral N self audio k :
  k ∈ f0_keys ++ formant_keys ++ temporal_keys ->
  extract_spectral_features N self audio !! k = None.
Proof.
  intros Hk. apply not_elem_of_dom_1. rewrite dom_extract_spectral_features.
  destruct (spectral_stats N audio (sr self)); [|apply not_elem_of_empty].
  rewrite elem_of_list_to_set.
  unfold f0_keys, formant_keys, temporal_keys in Hk. cbn [app] in Hk.
  in_keys Hk; unfold spectral_keys; rewrite ?elem_of_cons, ?elem_of_nil;
    intros H; decompose [or] H; first [discriminate | contradiction].
Qed.

Lemma other_keys_not_temporal N audio k :
  k ∈ f0_keys ++ formant_keys ++ spectral_keys ->
  extract_temporal_features N audio !! k = None.
Proof.
  intros Hk. apply not_elem_of_dom_1. rewrite dom_extract_temporal_features.
  destruct (temporal_stats N audio); [|apply not_elem_of_empty].
  rewrite elem_of_list_to_set.
  unfold f0_keys, formant_keys, spectral_keys in Hk. cbn [app] in Hk.
  in_keys Hk; unfold temporal_keys; rewrite ?elem_of_cons, ?elem_of_nil;
    intros H; decompose [or] H; first [discriminate | contradiction].
Qed.

Lemma keys_present (m : gmap string fvalue) (keys : list string) k :
  dom m = list_to_set keys -> k ∈ keys -> is_Some (m !! k).
Proof. intros Hd Hk. apply elem_of_dom. rewrite Hd. apply elem_of_list_to_set, Hk. Qed.

Lemma extract_f0_features_failure N self audio e k :
  librosa_yin N audio (sr self) = Py.Raise e ->
  k ∈ f0_keys -> extract_f0_features N self audio !! k = Some (FNum 0).
Proof.
  intros Hy Hk. unfold extract_f0_features. rewrite Hy.
  unfold f0_keys in Hk.
  repeat (apply elem_of_cons in Hk as [->|Hk]; [reflexivity|]).
  inversion Hk.
Qed.

Lemma extract_formant_features_failure N self audio e k :
  (forall emphasized, lpc_formants N emphasized (sr self) = Py.Raise e) ->
  k ∈ formant_keys -> extract_formant_features N self audio !! k = Some (FNum 0).
Proof.
  intros Hl Hk. unfold extract_formant_features.
  assert (Hd : formant_defaults !! k = Some (FNum 0)).
  { unfold formant_keys in Hk.
    repeat (apply elem_of_cons in Hk as [->|Hk]; [reflexivity|]).
    inversion Hk. }
  destruct audio as [|first rest]; [exact Hd|].
  cbv zeta. destruct (_ <? _)%nat; [|exact Hd]. rewrite Hl. exact Hd.
Qed.

Lemma extract_f0_features_regression_failure N self audio f0 e k :
  librosa_yin N audio (sr self) = Py.Return f0 ->
  linregress_slope N (filter (fun x => Qgtb x 0 = true) f0) = Py.Raise e ->
  (1 < length (filter (fun x => Qgtb x 0 = true) f0))%nat ->
  k ∈ f0_keys -> extract_f0_features N self audio !! k = Some (FNum 0).
Proof.
  intros Hy Hl Hlen Hk. unfold extract_f0_features. rewrite Hy. cbv zeta.
  destruct (Nat.eqb_spec (length (filter (fun x => Qgtb x 0 = true) f0)) 0) as [E0|_];
    [lia|].
  apply Nat.ltb_lt in Hlen. rewrite Hlen, Hl.
  unfold f0_keys in Hk.
  repeat (apply elem_of_cons in Hk as [->|Hk]; [reflexivity|]).
  inversion Hk.
Qed.

(** Claim C3: what the code does.  On a non-empty buffer the extractor
    returns a mapping in which the six pitch keys and the five formant keys
    are always present, so the mapping is not empty; they are zeroed when
    the pitch tracker, the regression or the formant estimator fails.  The
    spectral and the temporal extractor do not do what these two do: when
    one of them fails its keys are absent, all of them.  On an empty buffer
    the mapping is empty. *)
Theorem extract_all_features_keys N self audio :
  audio <> [] ->
  let features := extract_all_features N self audio in
  (forall k, k ∈ f0_keys ++ formant_keys -> is_Some (features !! k))
  /\ features <> ∅
  /\ (forall e k, librosa_yin N audio (sr self) = Py.Raise e -> k ∈ f0_keys ->
        features !! k = Some (FNum 0))
  /\ (forall f0 e k,
        librosa_yin N audio (sr self) = Py.Return f0 ->
        (1 < length (filter (fun x => Qgtb x 0 = true) f0))%nat ->
        linregress_slope N (filter (fun x => Qgtb x 0 = true) f0) = Py.Raise e ->
        k ∈ f0_keys -> features !! k = Some (FNum 0))
  /\ (forall e k, (forall emphasized, lpc_formants N emphasized (sr self) = Py.Raise e) ->
        k ∈ formant_keys -> features !! k = Some (FNum 0))
  /\ (forall k, k ∈ spectral_keys ->
        match spectral_stats N audio (sr self) with
        | Py.Return _ => is_Some (features !! k)
        | Py.Raise _ => features !! k = None
        end)
  /\ (forall k, k ∈ temporal_keys ->
        match temporal_stats N audio with
        | Py.Return _ => is_Some (features !! k)
        | Py.Raise _ => features !! k = None
        end)
  /\ extract_all_features N self [] = ∅.
Proof.
  intros Hne features.
  assert (Hf0 : forall k v, k ∈ f0_keys -> extract_f0_features N self audio !! k = Some v ->
                  features !! k = Some v).
  { intros k v Hk Hv. unfold features. rewrite lookup_extract_all_features by exact Hne.
    rewrite other_keys_not_temporal, other_keys_not_spectral, other_keys_not_formant
      by (rewrite !elem_of_app; auto).
    rewrite Hv. reflexivity. }
  assert (Hfm : forall k v, k ∈ formant_keys ->
                  extract_formant_features N self audio !! k = Some v ->
                  features !! k = Some v).
  { intros k v Hk Hv. unfold features. rewrite lookup_extract_all_features by exact Hne.
    rewrite other_keys_not_temporal, other_keys_not_spectral, other_keys_not_f0
      by (rewrite !elem_of_app; auto).
    rewrite Hv. reflexivity. }
  assert (Hbase : forall k, k ∈ f0_keys ++ formant_keys -> is_Some (features !! k)).
  { intros k Hk. apply elem_of_app in Hk as [Hk|Hk].
    - destruct (keys_present _ _ k (dom_extract_f0_features N self audio) Hk) as [v Hv].
      rewrite (Hf0 k v Hk Hv). eauto.
    - destruct (keys_present _ _ k (dom_extract_formant_features N self audio) Hk) as [v Hv].
      rewrite (Hfm k v Hk Hv). eauto. }
  split; [exact Hbase|]. split; [|split; [|split; [|split; [|split; [|split]]]]].
  - intros Hempty. destruct (Hbase "f1") as [v Hv].
    { unfold f0_keys, formant_keys. cbn [app]. rewrite !elem_of_cons. auto 10. }
    rewrite Hempty, lookup_empty in Hv. discriminate.
  - intros e k Hy Hk. apply (Hf0 k _ Hk).
    apply (extract_f0_features_failure N self audio e k Hy Hk).
  - intros f0 e k Hy Hlen Hl Hk. apply (Hf0 k _ Hk).
    apply (extract_f0_features_regression_failure N self audio f0 e k Hy Hl Hlen Hk).
  - intros e k Hl Hk. apply (Hfm k _ Hk).
    apply (extract_formant_features_failure N self audio e k Hl Hk).
  - intros k Hk. unfold features. rewrite lookup_extract_all_features by exact Hne.
    rewrite other_keys_not_temporal, other_keys_not_formant, other_keys_not_f0
      by (rewrite !elem_of_app; auto).
    pose proof (dom_extract_spectral_features N self audio) as Hd.
    destruct (spectral_stats N audio (sr self)).
    + destruct (keys_present _ _ k Hd Hk) as [v ->]. cbn. eauto.
    + rewrite (not_elem_of_dom_1 _ k) by (rewrite Hd; apply not_elem_of_empty). reflexivity.
  - intros k Hk. unfold features. rewrite lookup_extract_all_features by exact Hne.
    rewrite other_keys_not_spectral, other_keys_not_formant, other_keys_not_f0
      by (rewrite !elem_of_app; auto).
    pose proof (dom_extract_temporal_features N audio) as Hd.
    destruct (temporal_stats N audio).
    + destruct (keys_present _ _ k Hd Hk) as [v ->]. cbn. eauto.
    + rewrite (not_elem_of_dom_1 _ k) by (rewrite Hd; apply not_elem_of_empty). reflexivity.
  - reflexivity.
Qed.

Lemma extract_all_features_keys_witness :
  extract_all_features framing_numeric (__init__ 16000) [0.5%Q] !! "energy_mean" = None
  /\ extract_all_features framing_numeric (__init__ 16000) [0.5%Q] !! "f0_mean"
     = Some (FNum 0).
Proof.
  destruct (extract_all_features_keys framing_numeric (__init__ 16000) [0.5%Q])
    as (Hbase & _ & _ & _ & _ & _ & Htemporal & _).
  - discriminate.
  - split.
    + apply (Htemporal "energy_mean").
      apply (list_elem_of_lookup_2 _ 4%nat). reflexivity.
    + vm_compute. reflexivity.
Defined.

(** The keys are not all present: for a buffer of one sample the framing of
    [extract_temporal_features] raises, and the mapping has no key
    [energy_mean]. *)
Lemma extract_all_features_keys_counterexample :
  ~ (forall N self audio k,
        audio <> [] -> k ∈ feature_keys ->
        is_Some (extract_all_features N self audio !! k)).
Proof.
  intros H.
  destruct (H framing_numeric (__init__ 16000) [0.5%Q] "energy_mean") as [v Hv].
  - discriminate.
  - unfold feature_keys, f0_keys, formant_keys, spectral_keys, temporal_keys.
    cbn [app]. rewrite !elem_of_cons. auto 40.
  - vm_compute in Hv. discriminate.
Qed.

End ExtractorProofs.

(** ** The entry point *)

Section EntryPointProofs.
Import Scoring.

Lemma final_score_bounds s : (0 <= py_max 0 (py_min s 100) <= 100)%Q.
Proof. split_clamps; split; lra. Qed.

Lemma similarity_score_bounds E transcription reference_text :
  (0 <= similarity_score E transcription reference_text <= 100)%Q.
Proof.
  unfold similarity_score. destruct (levenshtein E); apply final_score_bounds.
Qed.

Lemma score_body_return E audio_data reference_text detailed res :
  score_body E audio_data reference_text detailed = Py.Return res ->
  audio_data <> []
  /\ exists transcription,
       recognise E (normalise audio_data) = Py.Return transcription
       /\ forall detailed',
            score_body E audio_data reference_text detailed'
            = Py.Return (returned_result E transcription audio_data reference_text detailed').
Proof.
  unfold score_body, mbind, outcome_bind.
  destruct (negb (dependencies_imported E)); [discriminate|].
  destruct audio_data as [|a rest]; [discriminate|].
  change (length (a :: rest) =? 0)%nat with false. cbv iota.
  destruct (negb (path_exists E (model_name E))); [discriminate|].
  destruct (check_required_files E _); [|discriminate].
  destruct (load_model E); [|discriminate].
  cbv zeta.
  destruct (recognise E (normalise (a :: rest))) as [transcription|e]; [|discriminate].
  intros _. split; [discriminate|]. exists transcription. split; [reflexivity|].
  intros detailed'. unfold returned_result, similarity_score.
  destruct (levenshtein E) as [distance|]; [|reflexivity].
  cbv zeta. destruct (detailed' && PHONEME_SCORING_AVAILABLE E); [reflexivity|].
  destruct detailed'; reflexivity.
Qed.

Lemma score_pronunciation_return E audio_data reference_text detailed res :
  score_pronunciation E audio_data reference_text detailed = Py.Return res ->
  score_body E audio_data reference_text detailed = Py.Return res.
Proof.
  unfold score_pronunciation.
  destruct (score_body E audio_data reference_text detailed); [|discriminate].
  intros H. exact H.
Qed.

(** Claim C9.  Whenever a call in detailed mode returns, the call in simple
    mode returns a similarity score [s] in [[0, 100]] and the score reported
    in detailed mode is at least [0.8 * s]; with the phoneme modules and a
    Levenshtein library at hand the reported score is the larger of the
    score of the phoneme analysis and [0.8 * s]. *)
Theorem detailed_score_at_least_four_fifths E audio_data reference_text res :
  score_pronunciation E audio_data reference_text true = Py.Return res ->
  exists s,
    score_pronunciation E audio_data reference_text false = Py.Return (Score s)
    /\ (0 <= s <= 100)%Q
    /\ (s * 0.8 <= reported_score res)%Q
    /\ (PHONEME_SCORING_AVAILABLE E = true -> is_Some (levenshtein E) ->
        exists d,
          res = Detailed d
          /\ (PhonemeScorer.overall_score d
              == Qmax (PhonemeScorer.overall_score
                         (PhonemeScorer.analyze_pronunciation_detailed (unicode E) (backend E)
                            PhonemeScorer.__init__ (normalise audio_data) reference_text 16000))
                      (s * 0.8))%Q).
Proof.
  intros H. apply score_pronunciation_return in H.
  destruct (score_body_return _ _ _ _ _ H) as (_ & transcription & _ & Hall).
  rewrite (Hall true) in H. injection H as <-.
  exists (similarity_score E transcription reference_text).
  pose proof (similarity_score_bounds E transcription reference_text) as Hb.
  split; [|split; [exact Hb|]].
  - unfold score_pronunciation. rewrite (Hall false). unfold returned_result.
    destruct (levenshtein E); reflexivity.
  - unfold returned_result. split.
    + destruct (levenshtein E) as [distance|]; [|cbn; lra].
      cbn [andb]. destruct (PHONEME_SCORING_AVAILABLE E) eqn:Ea.
      * cbn [reported_score PhonemeScorer.overall_score]. split_clamps; lra.
      * unfold create_simple_detailed_result. rewrite Ea. cbn. lra.
    + intros Ha [distance Hd]. rewrite Hd, Ha. cbn [andb].
      eexists. split; [reflexivity|].
      cbn [PhonemeScorer.overall_score]. apply py_max_is_Qmax.
Qed.

Lemma detailed_score_at_least_four_fifths_witness :
  exists s,
    score_pronunciation installed (repeat 0.5%Q 8) "the cat" false = Py.Return (Score s)
    /\ (s == 100)%Q
    /\ (s * 0.8 <= 80)%Q.
Proof.
  destruct (detailed_score_at_least_four_fifths installed (repeat 0.5%Q 8) "the cat"
              (returned_result installed "THE CAT" (repeat 0.5%Q 8) "the cat" true))
    as (s & Hs & _ & Hle & _).
  - vm_compute. reflexivity.
  - exists s. split; [exact Hs|].
    vm_compute in Hs. injection Hs as <-. split; [reflexivity|]. vm_compute. discriminate.
Defined.

(** Claim C1, as the code has it.  On an empty buffer [score_pronunciation]
    returns nothing: whatever the reference text and the mode, the check of
    the buffer (or, before it, the failed import of the dependencies) raises,
    and the handler raises [RuntimeError] with a message that starts with
    [发音评分失败]. *)
Theorem empty_audio_raises E reference_text detailed :
  score_pronunciation E [] reference_text detailed
  = Py.Raise (Py.RuntimeError
      ("发音评分失败: " +:+
       error_message E
         (if dependencies_imported E then Py.ValueError "音频数据为空"
          else Py.ImportError "必要的依赖库未安装，请运行: pip install -r requirements.txt"))).
Proof.
  unfold score_pronunciation, score_body, mbind, outcome_bind.
  destruct (dependencies_imported E); reflexivity.
Qed.

Example empty_audio_installed :
  score_pronunciation installed [] "the cat" true
  = Py.Raise (Py.RuntimeError "发音评分失败: 未知错误: 音频数据为空").
Proof. vm_compute. reflexivity. Qed.

(** Claim C1 as stated fails: with everything installed, the call on an
    empty buffer raises instead of returning a default result. *)
Lemma empty_audio_default_result_counterexample :
  ~ (forall E reference_text,
        exists r,
          score_pronunciation E [] reference_text true = Py.Return (Detailed r)
          /\ (PhonemeScorer.overall_score r == 0)%Q
          /\ PhonemeScorer.phoneme_scores r = []
          /\ PhonemeScorer.word_scores r = []
          /\ PhonemeScorer.pronunciation_issues r <> []).
Proof.
  intros H. destruct (H installed "the cat") as (r & Hr & _).
  rewrite empty_audio_installed in Hr. discriminate.
Qed.

End EntryPointProofs.

(** ** The rules of [score_phoneme_quality], issue by issue *)

Section RuleIssueProofs.
Import PhonemeScorer.

(** Property X1.

    The label of [get_quality_level] is one of the four grades and never
    gets worse when the score gets better. *)
Theorem get_quality_level_monotone s1 s2 :
  (s1 <= s2)%Q ->
  (quality_rank (get_quality_level s1) <= quality_rank (get_quality_level s2))%nat
  /\ get_quality_level s1 ∈ ["excellent"; "good"; "fair"; "poor"].
Proof.
  intros Hle. unfold get_quality_level, Qgeb. split.
  - destruct (Qle_bool 90 s1) eqn:A1; destruct (Qle_bool 75 s1) eqn:B1;
      destruct (Qle_bool 60 s1) eqn:C1;
      destruct (Qle_bool 90 s2) eqn:A2; destruct (Qle_bool 75 s2) eqn:B2;
      destruct (Qle_bool 60 s2) eqn:C2;
      vm_compute; try lia; exfalso;
      repeat match goal with
      | H : Qle_bool _ _ = true |- _ => apply Qle_bool_iff in H
      | H : Qle_bool ?a ?b = false |- _ =>
          assert (b < a)%Q
            by (apply Qnot_le_lt; intros Hc; apply Qle_bool_iff in Hc; congruence);
          clear H
      end; lra.
  - repeat (match goal with |- context [if ?b then _ else _] => destruct b end);
      rewrite !elem_of_cons; auto 10.
Qed.

Lemma get_quality_level_monotone_witness :
  (quality_rank (get_quality_level 65) <= quality_rank (get_quality_level 80))%nat.
Proof.
  apply (get_quality_level_monotone 65 80). vm_compute. discriminate.
Defined.

Lemma charged_cases s i (c : bool) d issue :
  charged (s, i) -> (0 < d)%Q ->
  charged (if c then ((s - d)%Q, i ++ [issue]) else (s, i)).
Proof.
  intros H Hd. destruct c; [|exact H].
  right. cbn [fst snd]. split.
  - intros Hnil. apply app_eq_nil in Hnil as [_ Hnil]. discriminate.
  - destruct H as [[_ H]|[_ H]]; cbn [fst] in H; lra.
Qed.

Lemma charged_add s i d issue :
  charged (s, i) -> (0 < d)%Q -> charged ((s - d)%Q, i ++ [issue]).
Proof. intros H Hd. apply (charged_cases s i true d issue H Hd). Qed.

Lemma duration_rule_charged self phoneme duration st :
  charged st -> charged (duration_rule self phoneme duration st).
Proof.
  destruct st as [s i]. intros H. unfold duration_rule.
  destruct (duration_thresholds self !! phoneme) as [[mn mx]|]; [|exact H].
  repeat (match goal with |- context [if ?b then _ else _] => destruct b end);
    try exact H; apply charged_add; (exact H || lra).
Qed.

Lemma mfcc_rule_charged phoneme features st :
  charged st -> charged (mfcc_rule phoneme features st).
Proof.
  destruct st as [s i]. intros H. unfold mfcc_rule.
  destruct (fvec features "mfcc_mean"); [|exact H].
  repeat (match goal with |- context [if ?b then _ else _] => destruct b end);
    try exact H; apply charged_add; (exact H || lra).
Qed.

Lemma energy_rule_charged phoneme features st :
  charged st -> charged (energy_rule phoneme features st).
Proof.
  destruct st as [s i]. intros H. unfold energy_rule.
  destruct (fnum features "energy_mean"); [|exact H].
  repeat (match goal with |- context [if ?b then _ else _] => destruct b end);
    try exact H; apply charged_add; (exact H || lra).
Qed.

Lemma centroid_rule_charged phoneme features st :
  charged st -> charged (centroid_rule phoneme features st).
Proof.
  destruct st as [s i]. intros H. unfold centroid_rule.
  destruct (fnum features "spectral_centroid_mean"); [|exact H].
  repeat (match goal with |- context [if ?b then _ else _] => destruct b end);
    try exact H; apply charged_add; (exact H || lra).
Qed.

Lemma check_phoneme_type_quality_length phoneme phoneme_type features duration :
  (length (check_phoneme_type_quality phoneme phoneme_type features duration) <= 1)%nat.
Proof.
  unfold check_phoneme_type_quality.
  repeat (match goal with
          | |- context [if ?b then _ else _] => destruct b
          | |- context [match fnum ?f ?k with _ => _ end] => destruct (fnum f k)
          end); cbn; lia.
Qed.

Lemma type_rule_charged phoneme features duration st :
  charged st -> charged (type_rule phoneme features duration st).
Proof.
  destruct st as [s i]. intros H. unfold type_rule. cbv zeta.
  pose proof (check_phoneme_type_quality_length phoneme (classify_phoneme_detailed phoneme)
                features duration) as Hl.
  destruct (check_phoneme_type_quality _ _ _ _) as [|x [|y r]]; [| |cbn in Hl; lia].
  - rewrite app_nil_r. destruct H as [[H1 H2]|[H1 H2]]; cbn [fst snd] in *.
    + left. cbn [fst snd]. split; [exact H1|]. rewrite H2. reflexivity.
    + right. cbn [fst snd]. split; [exact H1|].
      assert (Hz : (s - QofNat (length (@nil string)) * 8 == s)%Q)
        by (unfold QofNat; cbn; ring).
      rewrite Hz. exact H2.
  - apply (charged_add s i (QofNat 1 * 8) x H). reflexivity.
Qed.

Ltac one_more :=
  repeat (match goal with
          | |- context [if ?b then _ else _] => destruct b
          end); cbn [snd]; rewrite ?length_app; cbn [length]; lia.

Lemma duration_rule_one_issue self phoneme duration st :
  (length (snd (duration_rule self phoneme duration st)) <= length (snd st) + 1)%nat.
Proof.
  destruct st as [s i]. unfold duration_rule.
  destruct (duration_thresholds self !! phoneme) as [[mn mx]|]; [|cbn; lia]. one_more.
Qed.

Lemma mfcc_rule_one_issue phoneme features st :
  (length (snd (mfcc_rule phoneme features st)) <= length (snd st) + 1)%nat.
Proof.
  destruct st as [s i]. unfold mfcc_rule.
  destruct (fvec features "mfcc_mean"); [|cbn; lia]. one_more.
Qed.

Lemma energy_rule_one_issue phoneme features st :
  (length (snd (energy_rule phoneme features st)) <= length (snd st) + 1)%nat.
Proof.
  destruct st as [s i]. unfold energy_rule.
  destruct (fnum features "energy_mean"); [|cbn; lia]. one_more.
Qed.

Lemma centroid_rule_one_issue phoneme features st :
  (length (snd (centroid_rule phoneme features st)) <= length (snd st) + 1)%nat.
Proof.
  destruct st as [s i]. unfold centroid_rule.
  destruct (fnum features "spectral_centroid_mean"); [|cbn; lia]. one_more.
Qed.

Lemma type_rule_one_issue phoneme features duration st :
  (length (snd (type_rule phoneme features duration st)) <= length (snd st) + 1)%nat.
Proof.
  destruct st as [s i]. unfold type_rule. cbv zeta. cbn [snd].
  pose proof (check_phoneme_type_quality_length phoneme (classify_phoneme_detailed phoneme)
                features duration).
  rewrite length_app. lia.
Qed.

Lemma rules_outcome self phoneme features duration :
  let st := type_rule phoneme features duration
              (centroid_rule phoneme features
                 (energy_rule phoneme features
                    (mfcc_rule phoneme features
                       (duration_rule self phoneme duration (80%Q, []))))) in
  charged st /\ (length (snd st) <= 5)%nat.
Proof.
  cbv zeta.
  set (s0 := ((80%Q, []) : Q * list string)).
  set (s1 := duration_rule self phoneme duration s0).
  set (s2 := mfcc_rule phoneme features s1).
  set (s3 := energy_rule phoneme features s2).
  set (s4 := centroid_rule phoneme features s3).
  split.
  - apply type_rule_charged, centroid_rule_charged, energy_rule_charged,
      mfcc_rule_charged, duration_rule_charged. left. split; reflexivity.
  - pose proof (duration_rule_one_issue self phoneme duration s0).
    pose proof (mfcc_rule_one_issue phoneme features s1).
    pose proof (energy_rule_one_issue phoneme features s2).
    pose proof (centroid_rule_one_issue phoneme features s3).
    pose proof (type_rule_one_issue phoneme features duration s4).
    assert (Hzero : length (snd s0) = 0%nat) by reflexivity.
    subst s4 s3 s2 s1. lia.
Qed.

Lemma charged_clamped st :
  charged st -> (snd st = [] <-> (py_max 0 (py_min 100 (fst st)) == 80)%Q).
Proof.
  intros [[Hn Hs]|[Hn Hs]].
  - split; [intros _|intros _; exact Hn].
    revert Hs. generalize (fst st). intros x Hs. split_clamps; lra.
  - split; [intros Hnil; contradiction|].
    intros H80. exfalso. revert H80 Hs. generalize (fst st). intros x.
    split_clamps; lra.
Qed.

(** Property X2.

    Every issue of [score_phoneme_quality] costs points and every deduction
    is reported: the list of issues is empty exactly when the score is the
    base score 80; and one call reports at most five issues, one per rule. *)
Theorem score_phoneme_quality_issues self phoneme features duration :
  let '(score, issues) := score_phoneme_quality self phoneme features duration in
  (issues = [] <-> (score == 80)%Q) /\ (length issues <= 5)%nat.
Proof.
  rewrite score_phoneme_quality_unfold. cbv zeta.
  destruct (rules_outcome self phoneme features duration) as [Hc Hlen].
  split; [apply charged_clamped, Hc|exact Hlen].
Qed.

(** Property X3.

    In the analysis the floor 0.3 of the confidence is never reached: a
    phoneme score has at most five issues, so its confidence is at least
    0.5, and it has no issue exactly when its score is 80. *)
Theorem analysis_confidence_at_least_half U B self audio_data reference_text sr ps :
  ps ∈ phoneme_scores (analyze_pronunciation_detailed U B self audio_data reference_text sr) ->
  (0.5 <= confidence ps)%Q
  /\ (length (issues ps) <= 5)%nat
  /\ (issues ps = [] <-> (score ps == 80)%Q).
Proof.
  intros Hin.
  destruct (analysis_phoneme_scores U B self audio_data reference_text sr) as [HF _].
  rewrite Forall_forall in HF. destruct (HF ps Hin) as (features & Hq & Hc & _).
  pose proof (rules_outcome self (phoneme ps) features (end_time ps - start_time ps)) as Hr.
  rewrite score_phoneme_quality_unfold in Hq. cbv zeta in Hq, Hr.
  match type of Hr with charged ?t /\ _ => remember t as st eqn:Est end. clear Est.
  destruct Hr as [Hcharged Hlen]. apply charged_clamped in Hcharged.
  injection Hq as Hscore Hissues. rewrite Hscore, Hissues in Hcharged.
  rewrite Hissues in Hlen.
  split; [|split; [exact Hlen|exact Hcharged]].
  rewrite Hc.
  assert (Hn : (QofNat (length (issues ps)) <= 5)%Q).
  { unfold QofNat. change 5%Q with (inject_Z 5). rewrite <- Zle_Qle. lia. }
  revert Hn. generalize (QofNat (length (issues ps))). intros n Hn.
  split_clamps; lra.
Qed.

Lemma analysis_confidence_at_least_half_witness :
  exists ps,
    phoneme_scores (analyze_pronunciation_detailed Py.letters_only Scoring.installed_backend
                      __init__ (repeat 0.5%Q 8) "the cat" 16000) !! 4%nat = Some ps
    /\ (0.5 <= confidence ps)%Q.
Proof.
  eexists. split; [vm_compute; reflexivity|].
  eapply (analysis_confidence_at_least_half Py.letters_only Scoring.installed_backend
            __init__ (repeat 0.5%Q 8) "the cat" 16000%positive).
  eapply (list_elem_of_lookup_2 _ 4%nat). vm_compute. reflexivity.
Defined.
End RuleIssueProofs.

(** ** The utterance score of the analysis *)

Section UtteranceScoreProofs.
Import PhonemeScorer.

Lemma adjustments_bounds s (c1 c2 : bool) :
  (0 <= s <= 100)%Q ->
  let s1 := if Qgtb s 85 && c1 then py_min 85 (s - 5) else s in
  let s2 := if Qgtb s1 75 && c2 then py_min 75 (s1 - 5) else s1 in
  (0 <= s2 <= 100)%Q /\ (s2 <= s)%Q /\ (s <= 75 -> s2 = s)%Q.
Proof.
  intros Hs. cbv zeta. unfold Qgtb.
  destruct (Qltb 85 s) eqn:E85; cbn [andb].
  - apply Qltb_true in E85. destruct c1.
    + destruct (Qltb 75 (py_min 85 (s - 5))) eqn:E75; cbn [andb].
      * apply Qltb_true in E75. destruct c2; split_clamps; repeat split; lra.
      * split_clamps; repeat split; lra.
    + destruct (Qltb 75 s) eqn:E75; cbn [andb].
      * destruct c2; split_clamps; repeat split; lra.
      * repeat split; lra.
  - apply Qltb_false in E85.
    destruct (Qltb 75 s) eqn:E75; cbn [andb].
    + apply Qltb_true in E75. destruct c2; split_clamps; repeat split; lra.
    + repeat split; lra.
Qed.

Lemma compute_overall_score_range phoneme_scores all_issues :
  (0 <= compute_overall_score phoneme_scores all_issues <= 100)%Q.
Proof.
  destruct phoneme_scores as [|p rest]; [cbn; lra|].
  rewrite compute_overall_score_unfold. cbv zeta.
  match goal with |- context [py_max 0 (py_min 100 ?x)] =>
    pose proof (clamp_bounds 0 100 x ltac:(lra)) as Hb;
    revert Hb; generalize (py_max 0 (py_min 100 x)) end.
  intros s Hs.
  apply (adjustments_bounds s _ _ Hs).
Qed.

Lemma Qtotal_le_all (l : list Q) c :
  Forall (fun x => (x <= c)%Q) l -> (Qtotal l <= QofNat (length l) * c)%Q.
Proof.
  induction 1 as [|x rest Hx _ IH]; cbn [Qtotal length].
  - change (QofNat 0) with 0%Q. lra.
  - rewrite QofNat_S. lra.
Qed.

Lemma np_mean_le_all (l : list Q) c :
  l <> [] -> Forall (fun x => (x <= c)%Q) l -> (np_mean l <= c)%Q.
Proof.
  intros Hne HF. unfold np_mean. rewrite Qsum_total.
  assert (Hpos : (0 < QofNat (length l))%Q).
  { apply QofNat_pos. destruct l; [congruence|cbn; lia]. }
  apply Qle_shift_div_r; [exact Hpos|].
  rewrite Qmult_comm. apply Qtotal_le_all, HF.
Qed.

Lemma scored_weight self ps :
  scored self ps ->
  (PhonemeScorer.score ps * confidence ps * quality_weight (quality ps) <= 72)%Q.
Proof.
  intros Hs. destruct (scored_bounds self ps Hs) as ([Hs0 _] & Hs80 & _ & [Hc0 Hc1] & Hq).
  destruct Hs as (_ & _ & _ & Hl).
  assert (Hw : (0 <= quality_weight (quality ps) <= 0.9)%Q).
  { rewrite Hl in Hq |- *. unfold get_quality_level in *.
    repeat (match goal with
            | |- context [if Qgeb ?a ?b then _ else _] => destruct (Qgeb a b)
            | H : context [if Qgeb ?a ?b then _ else _] |- _ => destruct (Qgeb a b)
            end); try congruence; vm_compute; split; discriminate. }
  revert Hs0 Hs80 Hc0 Hc1 Hw.
  generalize (PhonemeScorer.score ps) (confidence ps) (quality_weight (quality ps)).
  intros s c w Hs0 Hs80 Hc0 Hc1 [Hw0 Hw1].
  assert (H1 : (s * c <= 80)%Q) by nra.
  assert (H2 : (0 <= s * c)%Q) by nra.
  nra.
Qed.

Lemma global_penalty_nonneg l : (0 <= global_penalty l)%Q.
Proof.
  unfold global_penalty. cbv zeta.
  repeat (match goal with |- context [if ?b then _ else _] => destruct b end); lra.
Qed.

Lemma clamped_is_penalised p rest penalty :
  let l := p :: rest in
  (penalty == global_penalty l)%Q ->
  (py_max 0 (py_min 100
     (np_mean (map (fun ps => PhonemeScorer.score ps * confidence ps
                   * default 0.5 ((list_to_map [("excellent", 1.0); ("good", 0.9);
                                                 ("fair", 0.7); ("poor", 0.4)]
                                     : gmap string Q) !! quality ps))%Q l) - penalty))
   == penalised_score l)%Q.
Proof.
  intros l Hp. unfold penalised_score.
  rewrite py_max_is_Qmax, py_min_is_Qmin.
  apply Q.max_compat; [reflexivity|]. apply Q.min_compat; [reflexivity|].
  rewrite weighted_scores_mean by discriminate. rewrite Hp. reflexivity.
Qed.

(** Property X4.

    The utterance score stays within [[0, 100]], whatever the phoneme
    scores and the issues handed in, and it is 0 when there is no phoneme
    score.  Computed from the issues of the phoneme scores themselves, it
    never exceeds the weighted mean minus the penalties, clamped: the final
    adjustments only lower it. *)
Theorem compute_overall_score_bounds phoneme_scores all_issues :
  (0 <= compute_overall_score phoneme_scores all_issues <= 100)%Q
  /\ compute_overall_score [] all_issues = 0%Q
  /\ (phoneme_scores <> [] -> all_issues = utterance_issues phoneme_scores ->
      (compute_overall_score phoneme_scores all_issues <= penalised_score phoneme_scores)%Q).
Proof.
  split; [apply compute_overall_score_range|]. split; [reflexivity|].
  intros Hne ->. destruct phoneme_scores as [|p rest]; [congruence|]. clear Hne.
  rewrite compute_overall_score_unfold. cbv zeta.
  match goal with |- context [py_max 0 (py_min 100 (?b - ?pen))] =>
    set (base := b); set (penalty := pen) end.
  assert (Hpen : (penalty == global_penalty (p :: rest))%Q).
  { unfold penalty, global_penalty, severe_count, utterance_issues. cbv zeta.
    repeat (match goal with |- context [if ?b then _ else _] => destruct b end); ring. }
  pose proof (clamped_is_penalised p rest penalty Hpen) as Hcl.
  cbv zeta in Hcl. fold base in Hcl.
  pose proof (clamp_bounds 0 100 (base - penalty) ltac:(lra)) as Hs.
  revert Hs Hcl. generalize (py_max 0 (py_min 100 (base - penalty))). intros s Hs Hcl.
  match goal with |- context [Qgtb s 85 && ?c1] =>
    destruct (adjustments_bounds s c1 (Qgtb (quality_ratio "poor" (p :: rest)) 0.2) Hs)
      as (_ & Hle & _) end.
  cbv zeta in Hle. rewrite <- Hcl. exact Hle.
Qed.

(** Property X5.

    The analysis never reports more than 72: its phoneme scores are at most
    80 and never labelled excellent, so the weighted mean is at most
    80 * 0.9.  The two final adjustments (above 85, above 75) therefore
    never apply to a score the analysis computes, which is the weighted mean
    minus the penalties, clamped at 0. *)
Theorem analysis_overall_score_at_most_72 U B self audio_data reference_text sr :
  let r := analyze_pronunciation_detailed U B self audio_data reference_text sr in
  (0 <= overall_score r <= 72)%Q
  /\ (phoneme_scores r <> [] ->
      (overall_score r == penalised_score (phoneme_scores r))%Q).
Proof.
  intros r.
  destruct (analysis_phoneme_scores U B self audio_data reference_text sr)
    as (HF & Ho & _).
  fold r in HF, Ho. rewrite Ho. clear Ho.
  destruct (phoneme_scores r) as [|p rest] eqn:El.
  { split; [cbn; lra|congruence]. }
  rewrite compute_overall_score_unfold. cbv zeta.
  match goal with |- context [py_max 0 (py_min 100 (?b - ?pen))] =>
    set (base := b); set (penalty := pen) end.
  assert (Hpen : (penalty == global_penalty (p :: rest))%Q).
  { unfold penalty, global_penalty, severe_count, utterance_issues. cbv zeta.
    repeat (match goal with |- context [if ?b then _ else _] => destruct b end); ring. }
  assert (Hbase : (base <= 72)%Q).
  { apply np_mean_le_all; [discriminate|].
    apply Forall_map. eapply Forall_impl; [exact HF|].
    intros ps Hps. cbv beta. rewrite quality_weight_lookup. apply (scored_weight self ps Hps). }
  pose proof (global_penalty_nonneg (p :: rest)) as Hpn.
  pose proof (clamped_is_penalised p rest penalty Hpen) as Hcl.
  cbv zeta in Hcl. fold base in Hcl.
  assert (Hs : (0 <= py_max 0 (py_min 100 (base - penalty)) <= 72)%Q).
  { assert (Hx : (base - penalty <= 72)%Q) by (rewrite Hpen; lra).
    revert Hx. generalize (base - penalty)%Q. intros x Hx. split_clamps; split; lra. }
  revert Hs Hcl. generalize (py_max 0 (py_min 100 (base - penalty))). intros s Hs Hcl.
  match goal with |- context [Qgtb s 85 && ?c1] =>
    destruct (adjustments_bounds s c1 (Qgtb (quality_ratio "poor" (p :: rest)) 0.2))
      as (_ & _ & Hsame) end.
  { lra. }
  cbv zeta in Hsame. rewrite Hsame by lra.
  split; [exact Hs|]. intros _. exact Hcl.
Qed.
Lemma compute_overall_score_of_scored self l :
  l <> [] -> Forall (scored self) l ->
  (compute_overall_score l (utterance_issues l) == penalised_score l)%Q
  /\ (0 <= penalised_score l <= 72)%Q.
Proof.
  intros Hne HF. destruct l as [|p rest]; [congruence|]. clear Hne.
  rewrite compute_overall_score_unfold. cbv zeta.
  match goal with |- context [py_max 0 (py_min 100 (?b - ?pen))] =>
    set (base := b); set (penalty := pen) end.
  assert (Hpen : (penalty == global_penalty (p :: rest))%Q).
  { unfold penalty, global_penalty, severe_count, utterance_issues. cbv zeta.
    repeat (match goal with |- context [if ?b then _ else _] => destruct b end); ring. }
  assert (Hbase : (base <= 72)%Q).
  { apply np_mean_le_all; [discriminate|].
    apply Forall_map. eapply Forall_impl; [exact HF|].
    intros ps Hps. cbv beta. rewrite quality_weight_lookup. apply (scored_weight self ps Hps). }
  pose proof (global_penalty_nonneg (p :: rest)) as Hpn.
  pose proof (clamped_is_penalised p rest penalty Hpen) as Hcl.
  cbv zeta in Hcl. fold base in Hcl.
  assert (Hs : (0 <= py_max 0 (py_min 100 (base - penalty)) <= 72)%Q).
  { assert (Hx : (base - penalty <= 72)%Q) by (rewrite Hpen; lra).
    revert Hx. generalize (base - penalty)%Q. intros x Hx. split_clamps; split; lra. }
  rewrite <- Hcl.
  revert Hs. generalize (py_max 0 (py_min 100 (base - penalty))). intros s Hs.
  match goal with |- context [Qgtb s 85 && ?c1] =>
    destruct (adjustments_bounds s c1 (Qgtb (quality_ratio "poor" (p :: rest)) 0.2))
      as (_ & _ & Hsame) end.
  { lra. }
  cbv zeta in Hsame. rewrite Hsame by lra.
  split; [reflexivity|exact Hs].
Qed.

Lemma cap_not_reached lowered l s :
  (s <= 75)%Q -> final_adjustments lowered l s = s.
Proof.
  intros Hs. unfold final_adjustments, Qgtb.
  assert (H85 : Qltb 85 s = false) by (apply Qltb_false; lra).
  assert (H75 : Qltb 75 s = false) by (apply Qltb_false; lra).
  rewrite H85. cbn [andb]. rewrite H75. reflexivity.
Qed.

(** Claim C4.  The utterance score the analysis reports is the one the
    claim describes: 0 without phoneme scores, otherwise the weighted mean
    minus the penalties, clamped to [[0, 100]], then capped at 85 and at 75
    under the stated conditions.  The code lowers a score above a limit to
    [min(limit, score - 5)] where the claim caps it, but the phoneme scores
    of the analysis are at most 80 and never excellent: the clamped score is
    at most 72 and neither adjustment is ever applied. *)
Theorem analysis_overall_score_as_claimed U B self audio_data reference_text sr :
  let r := analyze_pronunciation_detailed U B self audio_data reference_text sr in
  (overall_score r == claimed_overall_score (phoneme_scores r))%Q.
Proof.
  intros r.
  destruct (analysis_phoneme_scores U B self audio_data reference_text sr)
    as (HF & Ho & _).
  fold r in HF, Ho. rewrite Ho. clear Ho.
  destruct (phoneme_scores r) as [|p rest] eqn:El; [reflexivity|].
  destruct (compute_overall_score_of_scored self (p :: rest) ltac:(discriminate) HF)
    as [Heq Hb].
  change (concat (map issues (p :: rest))) with (utterance_issues (p :: rest)).
  rewrite Heq. unfold claimed_overall_score.
  rewrite cap_not_reached by lra. reflexivity.
Qed.
End UtteranceScoreProofs.

(** ** The three alignments, segment by segment *)

Section AlignmentSegmentProofs.
Import PhonemeAligner.

Lemma force_align_ctc_uniform B audio_data phoneme_sequence sr :
  PhonemeScorer.force_align_ctc B audio_data phoneme_sequence sr
  = simple_uniform_alignment (length audio_data) phoneme_sequence sr.
Proof.
  unfold PhonemeScorer.force_align_ctc, simple_uniform_alignment.
  destruct (PhonemeScorer.ctc_predict B audio_data sr); reflexivity.
Qed.

(** Property X6.

    The forced alignment of the scorer is the uniform alignment of the
    aligner, whether the speech model answers or raises; its segments
    follow the phonemes, start at 0 and leave no gap. *)
Theorem force_align_ctc_is_uniform B audio_data phoneme_sequence sr :
  PhonemeScorer.force_align_ctc B audio_data phoneme_sequence sr
  = simple_uniform_alignment (length audio_data) phoneme_sequence sr
  /\ (phoneme_sequence <> [] ->
      gapless phoneme_sequence
              (PhonemeScorer.force_align_ctc B audio_data phoneme_sequence sr)).
Proof.
  split; [apply force_align_ctc_uniform|].
  intros Hne. rewrite force_align_ctc_uniform.
  eapply tiling_gapless, simple_uniform_alignment_tiling, Hne.
Qed.

Lemma force_align_ctc_is_uniform_witness :
  gapless ["ð"; "ə"]
          (PhonemeScorer.force_align_ctc Scoring.installed_backend (repeat 0%Q 8)
             ["ð"; "ə"] 16000).
Proof.
  apply (force_align_ctc_is_uniform Scoring.installed_backend (repeat 0%Q 8)
           ["ð"; "ə"] 16000).
  discriminate.
Defined.

Lemma Qtotal_bounds (l : list Q) lo hi :
  Forall (fun d => (lo <= d <= hi)%Q) l ->
  (QofNat (length l) * lo <= Qtotal l <= QofNat (length l) * hi)%Q.
Proof.
  induction 1 as [|x rest Hx _ IH]; cbn [Qtotal length].
  - change (QofNat 0) with 0%Q. lra.
  - rewrite QofNat_S. lra.
Qed.

(** Property X9.

    The energy-based alignment falls back on the uniform one when the
    signal processing raises and when it finds fewer change points than
    the phonemes need. *)
Theorem energy_based_alignment_fallback (E : EnergyBackend) audio phoneme_sequence sr :
  (forall e, E audio sr = Py.Raise e ->
     energy_based_alignment E audio phoneme_sequence sr
     = simple_uniform_alignment (length audio) phoneme_sequence sr)
  /\ (forall change_points,
        E audio sr = Py.Return change_points ->
        (length change_points < length phoneme_sequence - 1)%nat ->
        energy_based_alignment E audio phoneme_sequence sr
        = simple_uniform_alignment (length audio) phoneme_sequence sr).
Proof.
  split.
  - intros e He. unfold energy_based_alignment. rewrite He. reflexivity.
  - intros cps He Hfew. unfold energy_based_alignment. rewrite He. cbv zeta.
    destruct (length phoneme_sequence =? 0)%nat eqn:E0.
    + apply Nat.eqb_eq in E0. lia.
    + rewrite length_map. apply Nat.ltb_lt in Hfew. rewrite Hfew. reflexivity.
Qed.

Lemma energy_based_alignment_fallback_witness :
  energy_based_alignment (fun _ _ => Py.Return [3%nat]) (repeat 0%Q 8)
                         ["ð"; "ə"; "k"] 16000
  = simple_uniform_alignment 8 ["ð"; "ə"; "k"] 16000.
Proof.
  apply (proj2 (energy_based_alignment_fallback (fun _ _ => Py.Return [3%nat])
                  (repeat 0%Q 8) ["ð"; "ə"; "k"] 16000) [3%nat]).
  - reflexivity.
  - vm_compute. lia.
Defined.

Lemma py_int_le x (n : nat) : (x <= QofNat n)%Q -> (py_int x <= n)%nat.
Proof.
  intros H. unfold py_int.
  assert (Hf : (Qfloor x <= Z.of_nat n)%Z).
  { unfold QofNat in H. rewrite <- (Qfloor_Z (Z.of_nat n)). apply Qfloor_resp_le, H. }
  lia.
Qed.

Lemma linspace_int_in_range stop num i :
  i ∈ linspace_int stop num -> (i <= stop)%nat.
Proof.
  unfold linspace_int. destruct num as [|[|n]].
  - intros H. inversion H.
  - intros H. apply list_elem_of_singleton in H. lia.
  - intros H. apply list_elem_of_fmap in H as (k & -> & Hk).
    apply elem_of_seq in Hk. apply py_int_le.
    assert (Hden : (0 < QofNat (S (S n) - 1))%Q) by (apply QofNat_pos; lia).
    assert (Hk' : (QofNat k <= QofNat (S (S n) - 1))%Q).
    { unfold QofNat. rewrite <- Zle_Qle. lia. }
    pose proof (QofNat_nonneg stop) as Hs. pose proof (QofNat_nonneg k) as Hk0.
    revert Hden Hk' Hs Hk0.
    generalize (QofNat k) (QofNat stop) (QofNat (S (S n) - 1)). intros a b c Hc Hac Hb Ha.
    assert (Heq : (a * (b / c) == (a * b) / c)%Q) by (field; lra).
    rewrite Heq.
    apply Qle_shift_div_r; [exact Hc|]. nra.
Qed.

Lemma take_indices_linspace {A} (arr : list A) num :
  arr <> [] -> is_Some (take_indices arr (linspace_int (length arr - 1) num)).
Proof.
  intros Hne. unfold take_indices. apply mapM_is_Some. apply Forall_forall.
  intros i Hi. apply linspace_int_in_range in Hi. cbn.
  apply lookup_lt_is_Some. destruct arr; [congruence|cbn in *; lia].
Qed.

Lemma take_indices_fmap {A B} (f : A -> B) (arr : list A) idx :
  take_indices (map f arr) idx = map f <$> take_indices arr idx.
Proof.
  unfold take_indices. induction idx as [|i rest IH]; [reflexivity|].
  cbn [mapM]. rewrite IH. change (map f arr) with (f <$> arr).
  rewrite list_lookup_fmap.
  destruct (arr !! i); [|reflexivity]. cbn.
  destruct (mapM (fun i => arr !! i) rest); reflexivity.
Qed.

Lemma take_indices_elem {A} (arr : list A) idx picked :
  take_indices arr idx = Some picked -> Forall (fun x => x ∈ arr) picked.
Proof.
  unfold take_indices. intros H. apply mapM_Some_1 in H.
  induction H as [|i x idx' picked' Hx _ IH]; constructor; [|exact IH].
  eapply list_elem_of_lookup_2, Hx.
Qed.

Lemma segments_mapM_Some phoneme_sequence (segment_times : list Q) :
  length segment_times = S (length phoneme_sequence) ->
  is_Some (mapM (segment_at phoneme_sequence segment_times)
                (seq 0 (length phoneme_sequence))).
Proof.
  intros Hlen. apply mapM_is_Some, Forall_forall. intros i Hi.
  apply elem_of_seq in Hi. cbn. unfold segment_at.
  destruct (lookup_lt_is_Some_2 phoneme_sequence i ltac:(lia)) as [ph ->].
  destruct (lookup_lt_is_Some_2 segment_times i ltac:(lia)) as [a ->].
  destruct (lookup_lt_is_Some_2 segment_times (i + 1) ltac:(lia)) as [b ->].
  cbn. eauto.
Qed.

(** Property X10.

    With enough change points the energy-based alignment cuts the buffer at
    detected change points only: its boundaries are 0, then the times of
    [phoneme_count - 1] of the change points found, then the total
    duration; segment [i] carries phoneme [i] and runs from boundary [i] to
    boundary [i + 1].  No index of the selection is out of range. *)
Theorem energy_based_alignment_boundaries (E : EnergyBackend) audio phoneme_sequence sr
    change_points :
  E audio sr = Py.Return change_points ->
  phoneme_sequence <> [] ->
  (length phoneme_sequence - 1 <= length change_points)%nat ->
  exists picked,
    Forall (fun cp => cp ∈ change_points) picked
    /\ length picked = (length phoneme_sequence - 1)%nat
    /\ let boundaries :=
         [0.0%Q] ++ map (fun cp => QofNat cp * (QofNat 512 / QofPos sr))%Q picked
         ++ [QofNat (length audio) / QofPos sr]%Q in
       let segments := energy_based_alignment E audio phoneme_sequence sr in
       length segments = length phoneme_sequence
       /\ forall i s, segments !! i = Some s ->
            phoneme_sequence !! i = Some (seg_phoneme s)
            /\ boundaries !! i = Some (seg_start s)
            /\ boundaries !! S i = Some (seg_end s).
Proof.
  intros He Hne Henough.
  assert (Hpos : (0 < length phoneme_sequence)%nat).
  { destruct phoneme_sequence; [congruence|cbn; lia]. }
  set (f := (fun cp => QofNat cp * (QofNat 512 / QofPos sr))%Q).
  assert (Hsel : exists picked,
             Forall (fun cp => cp ∈ change_points) picked
             /\ length picked = (length phoneme_sequence - 1)%nat
             /\ (if (0 <? length (map f change_points))%nat
                 then take_indices (map f change_points)
                        (linspace_int (length (map f change_points) - 1)
                                      (length phoneme_sequence - 1))
                 else Some []) = Some (map f picked)).
  { rewrite length_map. destruct (0 <? length change_points)%nat eqn:Epos.
    - destruct (take_indices_linspace change_points (length phoneme_sequence - 1))
        as [picked Hp].
      { apply Nat.ltb_lt in Epos. destruct change_points; [cbn in Epos; lia|discriminate]. }
      exists picked. split; [eapply take_indices_elem, Hp|]. split.
      + apply length_take_indices in Hp. rewrite Hp. apply length_linspace_int.
      + rewrite take_indices_fmap, Hp. reflexivity.
    - exists []. apply Nat.ltb_ge in Epos. split; [constructor|]. split; [cbn; lia|reflexivity]. }
  destruct Hsel as (picked & Hin & Hlen & Hsel).
  exists picked. split; [exact Hin|]. split; [exact Hlen|]. cbv zeta.
  fold f.
  set (boundaries := [0.0%Q] ++ map f picked ++ [(QofNat (length audio) / QofPos sr)%Q]).
  assert (HM : exists alignments,
             mapM (segment_at phoneme_sequence boundaries) (seq 0 (length phoneme_sequence))
             = Some alignments).
  { apply segments_mapM_Some. unfold boundaries.
    rewrite !length_app, length_map, Hlen. cbn. lia. }
  destruct HM as [alignments HM].
  assert (Hres : energy_based_alignment E audio phoneme_sequence sr = alignments).
  { unfold energy_based_alignment. rewrite He. cbv zeta.
    destruct (length phoneme_sequence =? 0)%nat eqn:E0; [apply Nat.eqb_eq in E0; lia|].
    fold f.
    destruct (length (map f change_points) <? length phoneme_sequence - 1)%nat eqn:Efew.
    { apply Nat.ltb_lt in Efew. rewrite length_map in Efew. lia. }
    rewrite Hsel. fold boundaries. rewrite HM. reflexivity. }
  rewrite Hres. apply mapM_Some_1 in HM. split.
  - apply Forall2_length in HM. rewrite length_seq in HM. congruence.
  - intros i s Hi.
    destruct (Forall2_lookup_r _ _ _ _ _ HM Hi) as (j & Hj & Hs).
    apply lookup_seq in Hj as [-> _]. apply segment_at_Some in Hs. exact Hs.
Qed.

Lemma energy_based_alignment_boundaries_witness :
  exists picked,
    Forall (fun cp => cp ∈ [1; 4; 6]%nat) picked
    /\ length picked = 2%nat
    /\ length (energy_based_alignment (fun _ _ => Py.Return [1; 4; 6]%nat)
                 (repeat 0%Q 8) ["ð"; "ə"; "c"] 16000) = 3%nat.
Proof.
  destruct (energy_based_alignment_boundaries (fun _ _ => Py.Return [1; 4; 6]%nat)
              (repeat 0%Q 8) ["ð"; "ə"; "c"] 16000 [1; 4; 6]%nat)
    as (picked & Hin & Hlen & Hseg & _).
  - reflexivity.
  - discriminate.
  - vm_compute. lia.
  - exists picked. split; [exact Hin|]. split; [exact Hlen|exact Hseg].
Defined.
End AlignmentSegmentProofs.

(** ** The analysis, from the alignment to the word scores *)

Section AnalysisProofs.
Import PhonemeScorer.

Lemma score_alignment_span B self audio sr pss iss a :
  score_alignment B self audio sr (pss, iss) a = (pss, iss)
  \/ exists ps, span_of ps = a
       /\ score_alignment B self audio sr (pss, iss) a = (pss ++ [ps], iss ++ issues ps).
Proof.
  destruct a as [[ph s] e]. unfold score_alignment.
  destruct (0 <? length _)%nat; [|left; reflexivity].
  right.
  destruct (score_phoneme_quality self ph _ (e - s)) as [sc isu] eqn:Hq.
  exists {| phoneme := ph; start_time := s; end_time := e; score := sc;
            confidence := py_min 1.0 (py_max 0.3 (1.0 - QofNat (length isu) * 0.1));
            quality := get_quality_level sc; issues := isu |}.
  split; reflexivity.
Qed.

Lemma score_alignments_sublist B self audio sr alignments pss iss :
  exists kept,
    sublist kept alignments
    /\ map span_of (fst (foldl (score_alignment B self audio sr) (pss, iss) alignments))
       = map span_of pss ++ kept.
Proof.
  revert pss iss. induction alignments as [|a rest IH]; intros pss iss.
  - exists []. split; [constructor|]. cbn. rewrite app_nil_r. reflexivity.
  - cbn [foldl].
    destruct (score_alignment_span B self audio sr pss iss a) as [E|(ps & Hps & E)];
      rewrite E.
    + destruct (IH pss iss) as (kept & Hk & Hm).
      exists kept. split; [apply sublist_cons, Hk|exact Hm].
    + destruct (IH (pss ++ [ps]) (iss ++ issues ps)) as (kept & Hk & Hm).
      exists (a :: kept). split; [apply sublist_skip, Hk|].
      rewrite Hm, map_app, <- app_assoc. cbn. rewrite Hps. reflexivity.
Qed.

(** Property X11.

    The phoneme scores of the analysis follow the alignment: their phonemes
    and spans are, in order, segments of the uniform alignment of the
    phonemes of the reference text (segments with no sample are skipped), so
    there are at most as many scores as phonemes. *)
Theorem analysis_scores_follow_alignment U B self audio_data reference_text sr :
  let r := analyze_pronunciation_detailed U B self audio_data reference_text sr in
  let alignments :=
    PhonemeAligner.simple_uniform_alignment (length audio_data)
      (text_to_phonemes U self reference_text) sr in
  sublist (map span_of (phoneme_scores r)) alignments
  /\ sublist (map phoneme (phoneme_scores r)) (text_to_phonemes U self reference_text)
  /\ (length (phoneme_scores r) <= length (text_to_phonemes U self reference_text))%nat.
Proof.
  cbv zeta. unfold analyze_pronunciation_detailed.
  rewrite force_align_ctc_uniform.
  set (alignments := PhonemeAligner.simple_uniform_alignment _ _ _).
  destruct (score_alignments_sublist B self audio_data sr alignments [] [])
    as (kept & Hk & Hm).
  destruct (foldl _ _ alignments) as [pss iss]. cbn [fst] in Hm. cbn [phoneme_scores].
  rewrite Hm. cbn [map app].
  assert (Hph : map seg_phoneme alignments = text_to_phonemes U self reference_text
                \/ text_to_phonemes U self reference_text = []).
  { destruct (text_to_phonemes U self reference_text) as [|p rest] eqn:Et; [right; reflexivity|].
    left. apply (simple_uniform_alignment_tiling (length audio_data) (p :: rest) sr).
    discriminate. }
  assert (Hsub : sublist (map phoneme pss) (text_to_phonemes U self reference_text)).
  { assert (Hmp : map phoneme pss = map seg_phoneme kept).
    { rewrite <- (map_map span_of seg_phoneme), Hm. reflexivity. }
    rewrite Hmp. destruct Hph as [<-|Hnil].
    - apply (fmap_sublist seg_phoneme), Hk.
    - unfold alignments in Hk. rewrite Hnil in Hk. cbn in Hk.
      apply sublist_nil_r in Hk. subst kept. rewrite Hnil. constructor. }
  split; [exact Hk|]. split; [exact Hsub|].
  apply sublist_length in Hsub. rewrite length_map in Hsub. exact Hsub.
Qed.


(** *** The word mapping has a key for every word *)

Lemma map_words_step_keys U self (m : gmap string (list string)) word k :
  let step := fun (word_phoneme_mapping : gmap string (list string)) word =>
    let word_clean := Py.re_sub_nonword U (Py.lower U word) in
    match (list_to_map map_words_to_phonemes_rules : gmap string (list string)) !! word_clean with
    | Some rule => <[word_clean := rule]> word_phoneme_mapping
    | None =>
        let phonemes :=
          foldl (fun phonemes char =>
                   match phoneme_map self !! char with
                   | Some p => phonemes ++ [p]
                   | None => phonemes ++ [char]
                   end) [] (Py.chars word_clean) in
        <[word_clean := phonemes]> word_phoneme_mapping
    end in
  (is_Some (m !! k) \/ k = Py.re_sub_nonword U (Py.lower U word)) ->
  is_Some (step m word !! k).
Proof.
  cbv zeta. intros H.
  destruct (decide (k = Py.re_sub_nonword U (Py.lower U word))) as [->|Hne].
  - destruct ((list_to_map map_words_to_phonemes_rules : gmap string (list string))
                !! Py.re_sub_nonword U (Py.lower U word));
      rewrite lookup_insert_eq; eauto.
  - destruct H as [H|H]; [|contradiction].
    destruct ((list_to_map map_words_to_phonemes_rules : gmap string (list string))
                !! Py.re_sub_nonword U (Py.lower U word));
      rewrite lookup_insert_ne by congruence; exact H.
Qed.

Lemma map_words_to_phonemes_keys U self words word :
  word ∈ words ->
  is_Some (map_words_to_phonemes U self words !! Py.re_sub_nonword U (Py.lower U word)).
Proof.
  unfold map_words_to_phonemes. cbv zeta.
  generalize (∅ : gmap string (list string)).
  intros m Hin.
  assert (Hgen : forall k (m : gmap string (list string)),
             (is_Some (m !! k) \/ exists w, w ∈ words /\ k = Py.re_sub_nonword U (Py.lower U w)) ->
             is_Some (foldl (fun (word_phoneme_mapping : gmap string (list string)) word =>
    let word_clean := Py.re_sub_nonword U (Py.lower U word) in
    match (list_to_map map_words_to_phonemes_rules : gmap string (list string)) !! word_clean with
    | Some rule => <[word_clean := rule]> word_phoneme_mapping
    | None =>
        let phonemes :=
          foldl (fun phonemes char =>
                   match phoneme_map self !! char with
                   | Some p => phonemes ++ [p]
                   | None => phonemes ++ [char]
                   end) [] (Py.chars word_clean) in
        <[word_clean := phonemes]> word_phoneme_mapping
    end) m words !! k)).
  { clear. induction words as [|w rest IH]; intros k m H.
    - cbn. destruct H as [H|(w & Hw & _)]; [exact H|inversion Hw].
    - cbn [foldl]. apply IH.
      destruct H as [H|(w' & Hw' & Hk)].
      + left. apply (map_words_step_keys U self m w k). left. exact H.
      + apply elem_of_cons in Hw' as [->|Hw'].
        * left. apply (map_words_step_keys U self m w k). right. exact Hk.
        * right. eauto. }
  apply Hgen. right. eauto.
Qed.

(** *** One entry per word *)

Lemma analyze_word_entry U mapping pss cur acc word :
  is_Some (mapping !! Py.re_sub_nonword U (Py.lower U word)) ->
  exists cur' ws,
    analyze_word U mapping pss (cur, acc) word = (cur', acc ++ [ws])
    /\ w_word ws = Py.re_sub_nonword U (Py.lower U word).
Proof.
  intros [wp Hwp]. unfold analyze_word. rewrite Hwp.
  destruct (foldl _ _ wp) as [[cur' wps] wis].
  destruct (negb (is_empty wps)); eexists _, _; split; reflexivity.
Qed.

Lemma analyze_words_entries U mapping pss words st :
  (forall w, w ∈ words -> is_Some (mapping !! Py.re_sub_nonword U (Py.lower U w))) ->
  map w_word (snd (foldl (analyze_word U mapping pss) st words))
  = map w_word (snd st) ++ map (fun w => Py.re_sub_nonword U (Py.lower U w)) words.
Proof.
  revert st. induction words as [|w rest IH]; intros [cur acc] Hall.
  - cbn. rewrite app_nil_r. reflexivity.
  - cbn [foldl].
    destruct (analyze_word_entry U mapping pss cur acc w) as (cur' & ws & E & Hw).
    { apply Hall. apply elem_of_cons. left. reflexivity. }
    rewrite E, IH.
    + cbn [snd map]. rewrite map_app, <- app_assoc. cbn. rewrite Hw. reflexivity.
    + intros w' Hw'. apply Hall. apply elem_of_cons. right. exact Hw'.
Qed.

Lemma analysis_word_names U B self audio_data reference_text sr :
  map w_word (word_scores (analyze_pronunciation_detailed U B self audio_data
                             reference_text sr))
  = map (fun w => Py.re_sub_nonword U (Py.lower U w))
        (Py.split U (Py.lower U reference_text)).
Proof.
  unfold analyze_pronunciation_detailed.
  destruct (foldl _ _ (force_align_ctc _ _ _ _)) as [pss iss].
  cbn [word_scores]. unfold analyze_word_pronunciation.
  rewrite analyze_words_entries; [reflexivity|].
  intros w Hw. apply map_words_to_phonemes_keys, Hw.
Qed.

Lemma analysis_word_count U B self audio_data reference_text sr :
  length (word_scores (analyze_pronunciation_detailed U B self audio_data
                         reference_text sr))
  = length (Py.split U (Py.lower U reference_text)).
Proof.
  rewrite <- (length_map w_word), analysis_word_names, length_map. reflexivity.
Qed.

(** Property X12.

    In the analysis every word of the reference text gets exactly one word
    score, in the order of the text and under its cleaned, lower-case form:
    the mapping built from the words has a key for each of them. *)
Theorem analysis_scores_every_word U B self audio_data reference_text sr :
  let r := analyze_pronunciation_detailed U B self audio_data reference_text sr in
  let words := Py.split U (Py.lower U reference_text) in
  map w_word (word_scores r) = map (fun w => Py.re_sub_nonword U (Py.lower U w)) words
  /\ length (word_scores r) = length words.
Proof.
  cbv zeta. split; [apply analysis_word_names|apply analysis_word_count].
Qed.

(** *** An empty buffer *)

Lemma score_alignments_empty_audio B self sr alignments st :
  foldl (score_alignment B self [] sr) st alignments = st.
Proof.
  induction alignments as [|a rest IH]; [reflexivity|].
  cbn [foldl]. destruct st as [pss iss]. destruct a as [[ph s] e].
  unfold score_alignment at 2. unfold py_slice. rewrite drop_nil, take_nil. cbn [length].
  change (0 <? 0)%nat with false. cbv iota. exact IH.
Qed.

Lemma absent_from_nil expected : absent_from [] expected.
Proof. intros ps Hps. inversion Hps. Qed.

Lemma analyze_words_no_scores U mapping words st :
  Forall is_sentinel (snd st) ->
  Forall is_sentinel (snd (foldl (analyze_word U mapping [] ) st words)).
Proof.
  revert st. induction words as [|w rest IH]; intros [cur acc] HF; [exact HF|].
  cbn [foldl]. apply IH.
  destruct (mapping !! Py.re_sub_nonword U (Py.lower U w)) as [wp|] eqn:Hwp.
  - rewrite (analyze_word_unresolved U mapping [] cur acc w wp Hwp).
    + cbn [snd]. apply Forall_app. split; [exact HF|].
      constructor; [|constructor]. repeat split; discriminate.
    + apply Forall_forall. intros p _. apply absent_from_nil.
  - unfold analyze_word. rewrite Hwp. exact HF.
Qed.

(** Property X13.

    On an empty buffer the analysis itself does not fail: it returns the
    score 0, no phoneme score and no pronunciation issue, and one word score
    per word of the reference text, each of them the [unknown] entry with
    score 0. *)
Theorem analysis_of_empty_audio U B self reference_text sr :
  let r := analyze_pronunciation_detailed U B self [] reference_text sr in
  overall_score r = 0%Q
  /\ phoneme_scores r = []
  /\ pronunciation_issues r = []
  /\ Forall is_sentinel (word_scores r)
  /\ length (word_scores r) = length (Py.split U (Py.lower U reference_text)).
Proof.
  cbv zeta.
  pose proof (analysis_word_count U B self [] reference_text sr) as Hlen.
  revert Hlen.
  unfold analyze_pronunciation_detailed.
  rewrite score_alignments_empty_audio. cbn [overall_score phoneme_scores
    pronunciation_issues word_scores].
  intros Hlen. repeat split; try reflexivity; [|exact Hlen].
  unfold analyze_word_pronunciation. apply analyze_words_no_scores. constructor.
Qed.


Lemma search_window_Some pss expected window ps next :
  search_window pss expected window = Some (ps, next) ->
  ps ∈ pss /\ phoneme ps = expected /\ pss !! (next - 1)%nat = Some ps /\ (0 < next)%nat.
Proof.
  induction window as [|i rest IH]; [discriminate|].
  cbn [search_window]. destruct (pss !! i) as [q|] eqn:Hi; [|exact IH].
  destruct (String.eqb (phoneme q) expected) eqn:E; [|exact IH].
  intros H. injection H as <- <-. apply String.eqb_eq in E.
  split; [eapply list_elem_of_lookup_2, Hi|]. split; [exact E|].
  split; [|lia]. replace (i + 1 - 1)%nat with i by lia. exact Hi.
Qed.

Lemma resolve_phoneme_inv pss cur wps wis expected :
  Forall (fun ps => ps ∈ pss) wps ->
  let '(cur', wps', wis') := resolve_phoneme pss (cur, wps, wis) expected in
  Forall (fun ps => ps ∈ pss) wps' /\ (length wps' <= length wps + 1)%nat
  /\ (cur <= length pss -> cur' <= length pss)%nat.
Proof.
  intros HF. unfold resolve_phoneme.
  destruct (cur <? length pss)%nat eqn:Ecur; [|split; [exact HF|split; lia]].
  apply Nat.ltb_lt in Ecur.
  destruct (pss !! cur) as [ps|] eqn:Hc; [|split; [exact HF|split; lia]].
  destruct (String.eqb (phoneme ps) expected) eqn:E.
  - split; [|split; [rewrite length_app; cbn; lia|lia]].
    apply Forall_app. split; [exact HF|].
    constructor; [eapply list_elem_of_lookup_2, Hc|constructor].
  - destruct (search_window pss expected _) as [[found next]|] eqn:Hs;
      [|split; [exact HF|split; lia]].
    apply search_window_Some in Hs as (Hin & _ & Hl & Hpos).
    split; [|split; [rewrite length_app; cbn; lia|]].
    + apply Forall_app. split; [exact HF|]. constructor; [exact Hin|constructor].
    + intros _. apply lookup_lt_Some in Hl. lia.
Qed.

Lemma resolve_phonemes_inv pss word_phonemes cur wps wis :
  Forall (fun ps => ps ∈ pss) wps ->
  let '(cur', wps', wis') := foldl (resolve_phoneme pss) (cur, wps, wis) word_phonemes in
  Forall (fun ps => ps ∈ pss) wps'
  /\ (length wps' <= length wps + length word_phonemes)%nat.
Proof.
  revert cur wps wis. induction word_phonemes as [|p rest IH]; intros cur wps wis HF.
  - cbn. split; [exact HF|lia].
  - cbn [foldl].
    pose proof (resolve_phoneme_inv pss cur wps wis p HF) as H1.
    destruct (resolve_phoneme pss (cur, wps, wis) p) as [[cur1 wps1] wis1].
    destruct H1 as (HF1 & Hl1 & _).
    specialize (IH cur1 wps1 wis1 HF1).
    destruct (foldl _ _ rest) as [[cur2 wps2] wis2].
    destruct IH as [HF2 Hl2]. split; [exact HF2|cbn [length]; lia].
Qed.

Lemma get_quality_level_known s : get_quality_level s <> "unknown".
Proof.
  unfold get_quality_level.
  repeat (match goal with |- context [if ?b then _ else _] => destruct b end); discriminate.
Qed.

Lemma analyze_word_ok U mapping pss st word :
  Forall (word_entry_ok pss) (snd st) ->
  Forall (word_entry_ok pss) (snd (analyze_word U mapping pss st word)).
Proof.
  destruct st as [cur acc]. intros HF. unfold analyze_word.
  destruct (mapping !! _) as [wp|]; [|exact HF].
  pose proof (resolve_phonemes_inv pss wp cur [] [] ltac:(constructor)) as Hinv.
  destruct (foldl _ _ wp) as [[cur' wps] wis]. destruct Hinv as [Hin Hlen].
  destruct wps as [|p wps]; cbn [is_empty negb snd].
  - apply Forall_app. split; [exact HF|]. constructor; [|constructor].
    split; [constructor|]. split; [cbn; lia|]. split; reflexivity.
  - apply Forall_app. split; [exact HF|]. constructor; [|constructor].
    unfold word_entry_ok. cbn [w_phoneme_scores w_phonemes w_quality].
    split; [|split].
    + apply Forall_map. eapply Forall_impl; [exact Hin|].
      intros ps Hps. exists ps. split; [exact Hps|reflexivity].
    + rewrite length_map. cbn [length] in *. lia.
    + split; [intros H; exfalso; eapply get_quality_level_known, H|discriminate].
Qed.

(** Property X14.

    Every word score is built from scores of the utterance: each phoneme
    entry of a word repeats the phoneme, score, label and issues of one of
    the phoneme scores, a word has at most one entry per expected phoneme,
    and its label is [unknown] exactly when it has none. *)
Theorem word_scores_use_utterance_scores U words word_phoneme_mapping phoneme_scores ws :
  ws ∈ analyze_word_pronunciation U words word_phoneme_mapping phoneme_scores ->
  Forall (fun item => exists ps, ps ∈ phoneme_scores /\ item = summary_of ps)
         (w_phoneme_scores ws)
  /\ (length (w_phoneme_scores ws) <= length (w_phonemes ws))%nat
  /\ (w_quality ws = "unknown" <-> w_phoneme_scores ws = []).
Proof.
  intros Hin. unfold analyze_word_pronunciation in Hin.
  assert (HF : forall st,
             Forall (word_entry_ok phoneme_scores) (snd st) ->
             Forall (word_entry_ok phoneme_scores)
                    (snd (foldl (analyze_word U word_phoneme_mapping phoneme_scores) st words))).
  { clear Hin. induction words as [|w rest IH]; intros st Hst; [exact Hst|].
    cbn [foldl]. apply IH, analyze_word_ok, Hst. }
  specialize (HF (0%nat, []) ltac:(constructor)).
  rewrite Forall_forall in HF. exact (HF ws Hin).
Qed.

Lemma word_scores_use_utterance_scores_witness :
  exists ws,
    analyze_word_pronunciation Py.letters_only ["The"]
      (map_words_to_phonemes Py.letters_only __init__ ["The"])
      [ {| phoneme := "ð"; start_time := 0; end_time := 0.1; score := 80;
           confidence := 1.0; quality := "good"; issues := [] |} ] !! 0%nat = Some ws
    /\ (length (w_phoneme_scores ws) <= length (w_phonemes ws))%nat.
Proof.
  eexists. split; [vm_compute; reflexivity|].
  eapply (word_scores_use_utterance_scores Py.letters_only ["The"]
            (map_words_to_phonemes Py.letters_only __init__ ["The"])
            [ {| phoneme := "ð"; start_time := 0; end_time := 0.1; score := 80;
                 confidence := 1.0; quality := "good"; issues := [] |} ]).
  eapply (list_elem_of_lookup_2 _ 0%nat). vm_compute. reflexivity.
Defined.

Lemma list_set_elem xs x : x ∈ Py.list_set xs <-> x ∈ xs.
Proof.
  induction xs as [|y rest IH]; [reflexivity|].
  cbn [Py.list_set]. rewrite !elem_of_cons, list_elem_of_filter, IH.
  destruct (decide (x = y)); tauto.
Qed.

Lemma list_set_NoDup xs : NoDup (Py.list_set xs).
Proof.
  induction xs as [|y rest IH]; [constructor|].
  cbn [Py.list_set]. constructor.
  - rewrite list_elem_of_filter. tauto.
  - apply NoDup_filter, IH.
Qed.

Lemma elem_of_concat {A} (x : A) (ls : list (list A)) :
  x ∈ concat ls <-> exists l, x ∈ l /\ l ∈ ls.
Proof.
  induction ls as [|l rest IH]; cbn [concat].
  - split; [intros H; inversion H|intros (l & _ & H); inversion H].
  - rewrite elem_of_app, IH. split.
    + intros [H|(l' & H1 & H2)]; [exists l|exists l']; rewrite elem_of_cons; auto.
    + intros (l' & H1 & H2). apply elem_of_cons in H2 as [->|H2]; eauto.
Qed.

(** Property X15.

    The pronunciation issues of a result are the issues of its phoneme
    scores, each of them once. *)
Theorem analysis_issues_deduplicated U B self audio_data reference_text sr :
  let r := analyze_pronunciation_detailed U B self audio_data reference_text sr in
  NoDup (pronunciation_issues r)
  /\ forall issue,
       issue ∈ pronunciation_issues r
       <-> exists ps, ps ∈ phoneme_scores r /\ issue ∈ issues ps.
Proof.
  intros r.
  destruct (analysis_phoneme_scores U B self audio_data reference_text sr) as (_ & _ & Hi).
  fold r in Hi. rewrite Hi. split; [apply list_set_NoDup|].
  intros issue. rewrite list_set_elem, elem_of_concat. split.
  - intros (l & Hl & Hin). change (map issues (phoneme_scores r))
      with (issues <$> phoneme_scores r) in Hin.
    apply list_elem_of_fmap in Hin as (ps & -> & Hps). eauto.
  - intros (ps & Hps & Hl). exists (issues ps). split; [exact Hl|].
    change (map issues (phoneme_scores r)) with (issues <$> phoneme_scores r).
    apply list_elem_of_fmap. eauto.
Qed.


Lemma py_round1_le x (k : Z) :
  (x * 10 < inject_Z k + 0.5)%Q -> (py_round1 x <= inject_Z k / 10)%Q.
Proof.
  intros Hx. unfold py_round1. cbv zeta.
  remember (x * 10)%Q as y eqn:Ey. clear Ey x.
  pose proof (Qfloor_le y) as Hf.
  assert (Hfk : (Qfloor y <= k)%Z).
  { assert (H : (inject_Z (Qfloor y) < inject_Z (k + 1))%Q).
    { rewrite inject_Z_plus. change (inject_Z 1) with 1%Q.
      lra. }
    rewrite <- Zlt_Qlt in H. lia. }
  assert (Hn : forall n : Z, (n <= k)%Z -> (inject_Z n / 10 <= inject_Z k / 10)%Q).
  { intros n Hle. rewrite Zle_Qle in Hle. unfold Qdiv.
    apply Qmult_le_compat_r; [exact Hle|apply Qinv_le_0_compat; lra]. }
  destruct (Qltb (y - inject_Z (Qfloor y)) 0.5) eqn:E1; [apply Hn, Hfk|].
  apply Qltb_false in E1.
  assert (Hlt : (Qfloor y < k)%Z).
  { destruct (Z.eq_dec (Qfloor y) k) as [Heq|Hne]; [|lia].
    rewrite Heq in E1. lra. }
  destruct (Qltb 0.5 (y - inject_Z (Qfloor y))); [apply Hn; lia|].
  destruct (Z.even (Qfloor y)); apply Hn; lia.
Qed.

Lemma py_round1_nonneg x : (0 <= x)%Q -> (0 <= py_round1 x)%Q.
Proof.
  intros Hx. unfold py_round1. cbv zeta.
  assert (Hy : (0 <= x * 10)%Q) by lra.
  remember (x * 10)%Q as y eqn:Ey. clear Ey Hx x.
  assert (Hf : (0 <= Qfloor y)%Z).
  { change 0%Z with (Qfloor 0). apply Qfloor_resp_le. exact Hy. }
  assert (Hn : forall n : Z, (0 <= n)%Z -> (0 <= inject_Z n / 10)%Q).
  { intros n Hle. rewrite Zle_Qle in Hle. change (inject_Z 0) with 0%Q in Hle.
    apply Qle_shift_div_l; [reflexivity|]. lra. }
  destruct (Qltb _ 0.5); [apply Hn, Hf|].
  destruct (Qltb 0.5 _); [apply Hn; lia|].
  destruct (Z.even (Qfloor y)); apply Hn; lia.
Qed.

Lemma np_mean_bounds (l : list Q) lo hi :
  l <> [] -> Forall (fun x => (lo <= x <= hi)%Q) l -> (lo <= np_mean l <= hi)%Q.
Proof.
  intros Hne HF. unfold np_mean. rewrite Qsum_total.
  assert (Hpos : (0 < QofNat (length l))%Q).
  { apply QofNat_pos. destruct l; [congruence|cbn; lia]. }
  pose proof (Qtotal_bounds l lo hi HF) as [Hlo Hhi].
  change (inject_Z (Z.of_nat (length l))) with (QofNat (length l)).
  split.
  - apply Qle_shift_div_l; [exact Hpos|]. lra.
  - apply Qle_shift_div_r; [exact Hpos|]. lra.
Qed.

Lemma div_bounds s w hi :
  (0 < w)%Q -> (0 <= s)%Q -> (s <= hi * w)%Q -> (0 <= s / w <= hi)%Q.
Proof.
  intros Hw Hs Hhi. split.
  - apply Qle_shift_div_l; [exact Hw|]. lra.
  - apply Qle_shift_div_r; [exact Hw|]. exact Hhi.
Qed.

Lemma scored_word_weight self ps :
  scored self ps ->
  (0 <= score ps / default 1.0 ((list_to_map [("excellent", 1.0); ("good", 1.1);
                                               ("fair", 1.3); ("poor", 1.5)]
                                   : gmap string Q) !! quality ps) <= (800 # 11))%Q.
Proof.
  intros Hs. destruct (scored_bounds self ps Hs) as ([Hs0 _] & Hs80 & _ & _ & _).
  destruct Hs as (_ & _ & _ & ->).
  revert Hs0 Hs80. generalize (score ps). intros s Hs0 Hs80.
  unfold get_quality_level, Qgeb.
  destruct (Qle_bool 90 s) eqn:E90.
  { apply Qle_bool_iff in E90. lra. }
  destruct (Qle_bool 75 s) eqn:E75.
  { change (default _ _) with 1.1%Q. apply div_bounds; lra. }
  assert (H75 : (s < 75)%Q).
  { apply Qnot_le_lt. intros Hc. apply Qle_bool_iff in Hc. congruence. }
  destruct (Qle_bool 60 s).
  - change (default _ _) with 1.3%Q. apply div_bounds; lra.
  - change (default _ _) with 1.5%Q. apply div_bounds; lra.
Qed.

Lemma low_score_label s :
  (s < 75)%Q -> get_quality_level s = "fair" \/ get_quality_level s = "poor".
Proof.
  intros Hs. unfold get_quality_level, Qgeb.
  destruct (Qle_bool 90 s) eqn:E90; [apply Qle_bool_iff in E90; lra|].
  destruct (Qle_bool 75 s) eqn:E75; [apply Qle_bool_iff in E75; lra|].
  destruct (Qle_bool 60 s); auto.
Qed.

Lemma _generate_word_suggestions_nonempty word phoneme_scores issues :
  _generate_word_suggestions word phoneme_scores issues <> [].
Proof.
  unfold _generate_word_suggestions. cbv zeta.
  generalize (_get_word_specific_suggestions word
    (map phoneme (filter (fun ps => quality ps = "poor") phoneme_scores)
     ++ map phoneme (filter (fun ps => quality ps = "fair") phoneme_scores))).
  intros specific.
  destruct (map phoneme (filter (fun ps => quality ps = "poor") phoneme_scores));
  destruct (map phoneme (filter (fun ps => quality ps = "fair") phoneme_scores));
  destruct (filter (fun issue => Py.str_in "过短" issue || Py.str_in "过长" issue = true) issues);
  destruct (filter (fun issue => Py.str_in "不稳定" issue || Py.str_in "清晰" issue
                         || Py.str_in "能量不足" issue = true) issues);
  cbn [is_empty negb andb app];
  intros H; apply (f_equal length) in H; rewrite ?length_app in H; cbn [length] in H; lia.
Qed.

Lemma analyze_word_modest U self mapping pss st word :
  Forall (scored self) pss ->
  Forall word_entry_modest (snd st) ->
  Forall word_entry_modest (snd (analyze_word U mapping pss st word)).
Proof.
  destruct st as [cur acc]. intros Hpss HF. unfold analyze_word.
  destruct (mapping !! _) as [wp|]; [|exact HF].
  pose proof (resolve_phonemes_inv pss wp cur [] [] ltac:(constructor)) as Hinv.
  destruct (foldl _ _ wp) as [[cur' wps] wis]. destruct Hinv as [Hin _].
  destruct wps as [|p wps]; cbn [is_empty negb snd].
  - apply Forall_app. split; [exact HF|]. constructor; [|constructor].
    split; [|split].
    + cbn. rewrite !elem_of_cons. auto.
    + cbn. lra.
    + discriminate.
  - apply Forall_app. split; [exact HF|]. constructor; [|constructor]. cbv zeta.
    unfold word_entry_modest. cbn [w_quality w_score w_suggestions].
    match goal with |- context [np_mean ?l] =>
      assert (Hmean : (0 <= np_mean l <= (800 # 11))%Q) end.
    { apply np_mean_bounds; [discriminate|].
      apply Forall_map. eapply Forall_impl; [exact Hin|].
      intros ps Hps. cbv beta. apply (scored_word_weight self).
      rewrite Forall_forall in Hpss. apply Hpss, Hps. }
    revert Hmean. match goal with |- context [np_mean ?l] => generalize (np_mean l) end.
    intros m Hm.
    match goal with |- context [if ?c then (m * 0.85)%Q else m] =>
      assert (Hw : (0 <= (if c then m * 0.85 else m) <= (800 # 11))%Q)
        by (destruct c; lra);
      revert Hw; generalize (if c then (m * 0.85)%Q else m) end.
    intros w Hw. split; [|split].
    + destruct (low_score_label w ltac:(lra)) as [-> | ->]; rewrite !elem_of_cons; auto.
    + split; [apply py_round1_nonneg; lra|].
      eapply Qle_trans; [apply (py_round1_le w 727)|vm_compute; discriminate].
      change (inject_Z 727) with 727%Q. lra.
    + apply _generate_word_suggestions_nonempty.
Qed.

(** Property X16.

    The analysis never labels a word good or excellent: the phoneme scores
    it averages are at most 80 and are divided by a weight of 1.1 or more,
    so a word scores at most 72.7; and every word comes with at least one
    suggestion. *)
Theorem analysis_words_never_good U B self audio_data reference_text sr ws :
  ws ∈ word_scores (analyze_pronunciation_detailed U B self audio_data reference_text sr) ->
  w_quality ws ∈ ["fair"; "poor"; "unknown"]
  /\ (0 <= w_score ws <= 72.7)%Q
  /\ w_suggestions ws <> [].
Proof.
  intros Hin.
  destruct (analysis_phoneme_scores U B self audio_data reference_text sr) as (Hsc & _ & _).
  cbv zeta in Hsc. revert Hin Hsc.
  unfold analyze_pronunciation_detailed.
  destruct (foldl _ _ (force_align_ctc _ _ _ _)) as [pss iss].
  cbn [word_scores phoneme_scores]. intros Hin Hsc.
  unfold analyze_word_pronunciation in Hin.
  assert (HF : forall words st,
             Forall word_entry_modest (snd st) ->
             Forall word_entry_modest
                    (snd (foldl (analyze_word U
                            (map_words_to_phonemes U self (Py.split U (Py.lower U reference_text)))
                            pss) st words))).
  { clear Hin. induction words as [|w rest IH]; intros st Hst; [exact Hst|].
    cbn [foldl]. apply IH, (analyze_word_modest U self), Hst. exact Hsc. }
  specialize (HF (Py.split U (Py.lower U reference_text)) (0%nat, []) ltac:(constructor)).
  rewrite Forall_forall in HF. exact (HF ws Hin).
Qed.

Lemma analysis_words_never_good_witness :
  exists ws,
    word_scores (analyze_pronunciation_detailed Py.letters_only Scoring.installed_backend
                   __init__ (repeat 0.5%Q 8) "the cat" 16000) !! 1%nat = Some ws
    /\ (w_score ws <= 72.7)%Q.
Proof.
  eexists. split; [vm_compute; reflexivity|].
  eapply (analysis_words_never_good Py.letters_only Scoring.installed_backend
            __init__ (repeat 0.5%Q 8) "the cat" 16000%positive).
  eapply (list_elem_of_lookup_2 _ 1%nat). vm_compute. reflexivity.
Defined.
End AnalysisProofs.

(** ** The entry point and the two routes *)

Section RouteProofs.
Import Scoring.

Lemma score_pronunciation_raise E audio_data reference_text detailed e :
  score_pronunciation E audio_data reference_text detailed = Py.Raise e ->
  exists cause,
    score_body E audio_data reference_text detailed = Py.Raise cause
    /\ e = Py.RuntimeError ("发音评分失败: " +:+ error_message E cause).
Proof.
  unfold score_pronunciation.
  destruct (score_body E audio_data reference_text detailed) as [r|cause]; [discriminate|].
  intros H. injection H as <-. eauto.
Qed.

Lemma marker_found msg : Py.str_in "发音评分失败" ("发音评分失败: " +:+ msg) = true.
Proof. reflexivity. Qed.

Lemma handle_upload_reaches outer_prefix score request reference_text audio_data :
  reaches_scorer request reference_text audio_data ->
  Api.handle_upload outer_prefix score request = score (normalise audio_data) reference_text.
Proof.
  intros (audio_file & file_size & Ht & Hte & Hf & Hfe & Hs & Hex & Hsz & Hl & Hne).
  unfold Api.handle_upload. rewrite Ht.
  destruct (String.eqb_spec reference_text "") as [|_]; [contradiction|].
  rewrite Hf.
  destruct (String.eqb_spec (Api.filename audio_file) "") as [|_]; [contradiction|].
  rewrite Hs, Hex. cbn [negb orb].
  destruct (Nat.eqb_spec file_size 0) as [|_]; [contradiction|].
  rewrite Hl.
  destruct (Nat.eqb_spec (length audio_data) 0) as [H0|_]; [|reflexivity].
  destruct audio_data; [contradiction|discriminate].
Qed.

Lemma handle_upload_cases outer_prefix score request :
  Api.handle_upload outer_prefix score request = Api.Failure 400 "缺少参考文本"
  \/ Api.handle_upload outer_prefix score request = Api.Failure 400 "缺少音频文件"
  \/ (exists msg, Api.handle_upload outer_prefix score request
                  = Api.Failure 500 (outer_prefix +:+ msg))
  \/ Api.handle_upload outer_prefix score request = Api.Failure 500 "音频文件保存失败或为空文件"
  \/ (exists msg, Api.handle_upload outer_prefix score request
                  = Api.Failure 500 ("音频加载失败: " +:+ msg))
  \/ (exists reference_text audio_data, reaches_scorer request reference_text audio_data).
Proof.
  unfold Api.handle_upload.
  destruct (Api.form_reference_text request) as [reference_text|] eqn:Ht; [|auto].
  destruct (String.eqb_spec reference_text "") as [|Hte]; [auto|].
  destruct (Api.files_audio_file request) as [audio_file|] eqn:Hf; [|auto].
  destruct (String.eqb_spec (Api.filename audio_file) "") as [|Hfe]; [auto|].
  destruct (Api.save audio_file) as [file_size|e] eqn:Hs; [|eauto 10].
  destruct (Api.saved_file_exists audio_file) eqn:Hex; cbn [negb orb]; [|auto 10].
  destruct (Nat.eqb_spec file_size 0) as [|Hsz]; [auto 10|].
  destruct (Api.load audio_file) as [audio_data|e] eqn:Hl; [|eauto 10].
  destruct (Nat.eqb_spec (length audio_data) 0) as [|Hne]; [eauto 10|].
  do 5 right. exists reference_text, audio_data, audio_file, file_size.
  repeat split; try assumption. intros ->. apply Hne. reflexivity.
Qed.

(** Property X17.

    Whatever goes wrong inside [score_pronunciation], the caller sees a
    [RuntimeError] whose message starts with the marker [发音评分失败]; on a
    request that reaches the scorer both handlers find the marker and answer
    with that message unchanged and status 500. *)
Theorem api_reports_scorer_errors E format_1f request reference_text audio_data :
  reaches_scorer request reference_text audio_data ->
  (forall e,
      score_pronunciation E (normalise audio_data) reference_text false = Py.Raise e ->
      exists msg,
        e = Py.RuntimeError ("发音评分失败: " +:+ msg)
        /\ Api.score_pronunciation_route E format_1f request
           = Api.Failure 500 ("发音评分失败: " +:+ msg))
  /\ (forall e,
        score_pronunciation E (normalise audio_data) reference_text true = Py.Raise e ->
        exists msg,
          e = Py.RuntimeError ("发音评分失败: " +:+ msg)
          /\ Api.score_pronunciation_detailed_route E format_1f request
             = Api.Failure 500 ("发音评分失败: " +:+ msg)).
Proof.
  intros Hreach.
  unfold Api.score_pronunciation_route, Api.score_pronunciation_detailed_route.
  rewrite !(handle_upload_reaches _ _ _ _ _ Hreach).
  split; intros e He.
  - destruct (score_pronunciation_raise _ _ _ _ _ He) as (cause & _ & ->).
    eexists. split; [reflexivity|].
    unfold Api.score_pronunciation_api. rewrite He.
    cbn [Py.str_of_exception]. rewrite marker_found. reflexivity.
  - destruct (score_pronunciation_raise _ _ _ _ _ He) as (cause & _ & ->).
    eexists. split; [reflexivity|].
    unfold Api.score_pronunciation_detailed_api, score_pronunciation_detailed. rewrite He.
    cbn [Py.str_of_exception]. rewrite marker_found. reflexivity.
Qed.

Lemma api_reports_scorer_errors_witness :
  Api.score_pronunciation_detailed_route missing_model (fun _ => "0.0") the_cat_request
  = Api.Failure 500 "发音评分失败: 模型加载失败，请检查模型文件是否完整".
Proof.
  assert (Hreach : reaches_scorer the_cat_request "the cat" (repeat 0.25%Q 8)).
  { eexists _, _. repeat split; try reflexivity; discriminate. }
  destruct (proj2 (api_reports_scorer_errors missing_model (fun _ => "0.0") the_cat_request
                     "the cat" (repeat 0.25%Q 8) Hreach)
              (Py.RuntimeError "发音评分失败: 模型加载失败，请检查模型文件是否完整"))
    as (msg & Hmsg & Hroute).
  - vm_compute. reflexivity.
  - injection Hmsg as Hmsg.
    change ("模型加载失败，请检查模型文件是否完整" = msg) in Hmsg. subst msg. exact Hroute.
Defined.

Lemma analysis_overall_bounds U B self audio_data reference_text sr :
  (0 <= PhonemeScorer.overall_score
          (PhonemeScorer.analyze_pronunciation_detailed U B self audio_data reference_text sr)
   <= 100)%Q.
Proof.
  destruct (analysis_phoneme_scores U B self audio_data reference_text sr) as (_ & Ho & _).
  rewrite Ho. apply compute_overall_score_range.
Qed.

Lemma returned_result_bounds E transcription audio_data reference_text detailed :
  (0 <= reported_score (returned_result E transcription audio_data reference_text detailed)
   <= 100)%Q.
Proof.
  pose proof (similarity_score_bounds E transcription reference_text) as Hs.
  unfold returned_result. cbv zeta.
  destruct (levenshtein E); [|exact Hs].
  destruct (detailed && PHONEME_SCORING_AVAILABLE E).
  - cbn [reported_score PhonemeScorer.overall_score].
    pose proof (analysis_overall_bounds (unicode E) (backend E) PhonemeScorer.__init__
                  (normalise audio_data) reference_text 16000) as Ho.
    revert Ho Hs. generalize (similarity_score E transcription reference_text).
    generalize (PhonemeScorer.overall_score
                  (PhonemeScorer.analyze_pronunciation_detailed (unicode E) (backend E)
                     PhonemeScorer.__init__ (normalise audio_data) reference_text 16000)).
    intros o s Ho Hs. split_clamps; split; lra.
  - destruct detailed; [|exact Hs].
    unfold create_simple_detailed_result.
    destruct (negb (PHONEME_SCORING_AVAILABLE E)); exact Hs.
Qed.

(** Property X18.

    Every score [score_pronunciation] returns, in either mode and in any of
    its three shapes, lies in [[0, 100]]; the simple mode always returns a
    bare number, and so does the detailed mode when no Levenshtein library
    imports. *)
Theorem score_pronunciation_result_bounds E audio_data reference_text detailed res :
  score_pronunciation E audio_data reference_text detailed = Py.Return res ->
  (0 <= reported_score res <= 100)%Q
  /\ (detailed = false \/ levenshtein E = None -> exists s, res = Score s)
  /\ audio_data <> [].
Proof.
  intros H. apply score_pronunciation_return in H.
  destruct (score_body_return _ _ _ _ _ H) as (Hne & transcription & _ & Hall).
  rewrite (Hall detailed) in H. injection H as <-.
  split; [apply returned_result_bounds|]. split; [|exact Hne].
  intros Hcase. unfold returned_result. cbv zeta.
  destruct (levenshtein E) as [distance|]; [|eauto].
  destruct Hcase as [->|Hc]; [|discriminate]. cbn [andb]. eauto.
Qed.

Lemma score_pronunciation_result_bounds_witness :
  (0 <= reported_score
          (returned_result installed "THE CAT" (repeat 0.5%Q 8) "the cat" true) <= 100)%Q.
Proof.
  apply (score_pronunciation_result_bounds installed (repeat 0.5%Q 8) "the cat" true).
  vm_compute. reflexivity.
Defined.

(** Property X19.

    The detailed route answers with [detailed] set exactly when the phoneme
    modules are loaded and a Levenshtein library imports; otherwise it
    forwards the similarity score with empty lists. *)
Theorem detailed_api_flag E format_1f audio_data reference_text res :
  score_pronunciation_detailed E audio_data reference_text = Py.Return res ->
  exists phoneme_scores pronunciation_issues,
    Api.score_pronunciation_detailed_api E format_1f audio_data reference_text
    = Api.Phonemes (format_1f (reported_score res)) phoneme_scores pronunciation_issues
        (PHONEME_SCORING_AVAILABLE E && bool_decide (is_Some (levenshtein E)))
    /\ (PHONEME_SCORING_AVAILABLE E && bool_decide (is_Some (levenshtein E)) = false ->
        phoneme_scores = [] /\ pronunciation_issues = []).
Proof.
  intros H. unfold Api.score_pronunciation_detailed_api. rewrite H.
  unfold score_pronunciation_detailed in H. apply score_pronunciation_return in H.
  destruct (score_body_return _ _ _ _ _ H) as (_ & transcription & _ & Hall).
  rewrite (Hall true) in H. injection H as <-.
  unfold returned_result. cbv zeta.
  destruct (levenshtein E) as [distance|].
  - cbn [andb]. destruct (PHONEME_SCORING_AVAILABLE E) eqn:Ea.
    + eexists _, _. split; [reflexivity|]. cbn. discriminate.
    + unfold create_simple_detailed_result. rewrite Ea. cbn [negb].
      eexists _, _. split; [reflexivity|]. auto.
  - eexists _, _. split.
    + cbn [reported_score]. rewrite andb_false_r. reflexivity.
    + auto.
Qed.

Lemma detailed_api_flag_witness :
  exists phoneme_scores pronunciation_issues,
    Api.score_pronunciation_detailed_api installed (fun _ => "80.0") (repeat 0.5%Q 8) "the cat"
    = Api.Phonemes "80.0" phoneme_scores pronunciation_issues true.
Proof.
  destruct (detailed_api_flag installed (fun _ => "80.0") (repeat 0.5%Q 8) "the cat"
              (returned_result installed "THE CAT" (repeat 0.5%Q 8) "the cat" true))
    as (pss & iss & Hapi & _).
  - vm_compute. reflexivity.
  - exists pss, iss. exact Hapi.
Defined.


Lemma QofNat_le n m : (n <= m)%nat -> (QofNat n <= QofNat m)%Q.
Proof. intros H. unfold QofNat. rewrite <- Zle_Qle. lia. Qed.

Lemma ratio_bounds n m : (n <= m)%nat -> (0 < m)%nat -> (0 <= QofNat n / QofNat m <= 1)%Q.
Proof.
  intros Hle Hpos.
  pose proof (QofNat_pos m Hpos) as Hm.
  pose proof (QofNat_le _ _ Hle) as Hn.
  pose proof (QofNat_nonneg n) as H0.
  split.
  - apply Qle_shift_div_l; [exact Hm|]. lra.
  - apply Qle_shift_div_r; [exact Hm|]. lra.
Qed.

Lemma improved_similarity_bounds E str1 str2 :
  (0 <= improved_similarity E str1 str2 <= 1)%Q.
Proof.
  unfold improved_similarity. cbv zeta.
  set (s1 := Py.strip (unicode E) (Py.lower (unicode E) str1)).
  set (s2 := Py.strip (unicode E) (Py.lower (unicode E) str2)).
  destruct (Nat.eqb_spec (Py.len s1) 0) as [|H1]; cbn [orb]; [lra|].
  destruct (Nat.eqb_spec (Py.len s2) 0) as [|H2]; cbn [orb]; [lra|].
  assert (Hc : (0 <= QofNat (length (filter (fun c => Py.str_in c s2 = true) (Py.chars s1)))
                     / QofNat (Nat.max (Py.len s1) (Py.len s2)) <= 1)%Q).
  { apply ratio_bounds; [|lia].
    pose proof (length_filter (fun c => Py.str_in c s2 = true) (Py.chars s1)) as Hl.
    unfold Py.len. lia. }
  revert Hc. generalize (QofNat (length (filter (fun c => Py.str_in c s2 = true) (Py.chars s1)))
                     / QofNat (Nat.max (Py.len s1) (Py.len s2)))%Q. intros c Hc.
  set (words1 := Py.list_set (Py.split (unicode E) s1)).
  set (words2 := Py.list_set (Py.split (unicode E) s2)).
  destruct (Nat.eqb_spec (length words1) 0) as [|W1]; cbn [orb]; [lra|].
  destruct (Nat.eqb_spec (length words2) 0) as [|W2]; cbn [orb]; [lra|].
  assert (Hw : (0 <= QofNat (length (filter (fun w => w ∈ words2) words1))
                     / QofNat (Nat.max (length words1) (length words2)) <= 1)%Q).
  { apply ratio_bounds; [|lia].
    pose proof (length_filter (fun w => w ∈ words2) words1) as Hl. lia. }
  revert Hw. generalize (QofNat (length (filter (fun w => w ∈ words2) words1))
                     / QofNat (Nat.max (length words1) (length words2)))%Q. intros w Hw.
  lra.
Qed.

(** Property X20.

    The fallback similarity lies in [[0, 1]], so the clamp the entry point
    puts on a hundred times it never changes the score it returns when no
    Levenshtein library imports. *)
Theorem fallback_score_unclamped E audio_data reference_text detailed res :
  levenshtein E = None ->
  score_pronunciation E audio_data reference_text detailed = Py.Return res ->
  exists transcription,
    recognise E (normalise audio_data) = Py.Return transcription
    /\ (0 <= improved_similarity E transcription reference_text <= 1)%Q
    /\ exists s, res = Score s
         /\ (s == 100 * improved_similarity E transcription reference_text)%Q.
Proof.
  intros Hlev H. apply score_pronunciation_return in H.
  destruct (score_body_return _ _ _ _ _ H) as (_ & transcription & Hrec & Hall).
  rewrite (Hall detailed) in H. injection H as <-.
  exists transcription. split; [exact Hrec|].
  pose proof (improved_similarity_bounds E transcription reference_text) as Hb.
  split; [exact Hb|].
  unfold returned_result, similarity_score. cbv zeta. rewrite Hlev.
  eexists. split; [reflexivity|].
  revert Hb. generalize (improved_similarity E transcription reference_text). intros s Hb.
  split_clamps; lra.
Qed.

Lemma fallback_score_unclamped_witness :
  exists s,
    returned_result without_levenshtein "THE CAT" (repeat 0.5%Q 8) "the cat" true = Score s
    /\ (s == 100)%Q.
Proof.
  destruct (fallback_score_unclamped without_levenshtein (repeat 0.5%Q 8) "the cat" true
              (returned_result without_levenshtein "THE CAT" (repeat 0.5%Q 8) "the cat" true))
    as (transcription & Hrec & _ & s & Hres & Hs).
  - reflexivity.
  - vm_compute. reflexivity.
  - exists s. split; [exact Hres|].
    injection Hrec as <-. rewrite Hs. vm_compute. reflexivity.
Defined.

Lemma foldl_py_max_ge l : forall a,
  (a <= foldl py_max a l)%Q /\ forall x, x ∈ l -> (x <= foldl py_max a l)%Q.
Proof.
  induction l as [|y l IH]; intros a; cbn [foldl].
  - split; [lra|]. intros x Hx. inversion Hx.
  - destruct (IH (py_max a y)) as [Ha Hl].
    assert (a <= py_max a y /\ y <= py_max a y)%Q as [H1 H2] by (split_clamps; split; lra).
    split; [lra|].
    intros x Hx. apply elem_of_cons in Hx as [->|Hx]; [lra|auto].
Qed.

Lemma np_max_ge l x : x ∈ l -> (x <= np_max l)%Q.
Proof. intros Hx. unfold np_max. apply foldl_py_max_ge. exact Hx. Qed.

(** Property X21.

    After the normalisation of the entry point every sample lies in
    [[-1, 1]] and the buffer keeps its length. *)
Theorem normalise_range audio_data :
  length (normalise audio_data) = length audio_data
  /\ forall x, x ∈ normalise audio_data -> (-1 <= x <= 1)%Q.
Proof.
  unfold normalise. cbv zeta.
  set (peak := np_max (map Qabs audio_data)).
  assert (Hpeak : forall x, x ∈ audio_data -> (Qabs x <= peak)%Q).
  { intros x Hx. apply np_max_ge. change (map Qabs audio_data) with (Qabs <$> audio_data).
    apply list_elem_of_fmap. eauto. }
  unfold Qgtb. destruct (Qltb 0 peak) eqn:Ep.
  - apply Qltb_true in Ep. split; [apply length_map|].
    intros y Hy. change (map ?f ?l) with (f <$> l) in Hy.
    apply list_elem_of_fmap in Hy as (x & -> & Hx).
    apply Hpeak, Qabs_Qle_condition in Hx. destruct Hx as [Hlo Hhi].
    split.
    + apply Qle_shift_div_l; [exact Ep|]. lra.
    + apply Qle_shift_div_r; [exact Ep|]. lra.
  - apply Qltb_false in Ep. split; [reflexivity|].
    intros x Hx. apply Hpeak, Qabs_Qle_condition in Hx. lra.
Qed.

Lemma normalise_range_witness :
  (-1 <= 3 / 3 <= 1)%Q.
Proof.
  apply (proj2 (normalise_range [3; -2; 1.5]%Q)).
  vm_compute. apply list_elem_of_here.
Defined.


(** Property X22.

    The answers of [score_pronunciation_api], the handler of
    /api/score-pronunciation, all of them: 400 for a missing text or file;
    500 with the message of the outermost handler when saving raises; 500
    for a file that is missing or empty once saved; 500 [音频加载失败] when
    loading raises or gives no sample; and, once the scorer is reached, the
    formatted score, a number of [[0, 100]], or 500 with the message of the
    scorer.  The branch [评分计算失败], for an exception that does not carry
    the marker of the scorer, is never taken. *)
Theorem score_pronunciation_route_outcomes E format_1f request :
  let response := Api.score_pronunciation_route E format_1f request in
  response = Api.Failure 400 "缺少参考文本"
  \/ response = Api.Failure 400 "缺少音频文件"
  \/ (exists msg, response = Api.Failure 500 ("评分过程中出错: " +:+ msg))
  \/ response = Api.Failure 500 "音频文件保存失败或为空文件"
  \/ (exists msg, response = Api.Failure 500 ("音频加载失败: " +:+ msg))
  \/ (exists reference_text audio_data s,
        reaches_scorer request reference_text audio_data
        /\ score_pronunciation E (normalise audio_data) reference_text false
           = Py.Return (Score s)
        /\ (0 <= s <= 100)%Q
        /\ response = Api.Simple (format_1f s))
  \/ (exists reference_text audio_data msg,
        reaches_scorer request reference_text audio_data
        /\ score_pronunciation E (normalise audio_data) reference_text false
           = Py.Raise (Py.RuntimeError ("发音评分失败: " +:+ msg))
        /\ response = Api.Failure 500 ("发音评分失败: " +:+ msg)).
Proof.
  cbv zeta. unfold Api.score_pronunciation_route.
  destruct (handle_upload_cases "评分过程中出错: " (Api.score_pronunciation_api E format_1f)
              request) as [H|[H|[H|[H|[H|(reference_text & audio_data & Hreach)]]]]];
    [auto 10..|].
  rewrite (handle_upload_reaches _ _ _ _ _ Hreach).
  destruct (score_pronunciation E (normalise audio_data) reference_text false)
    as [res|e] eqn:Hs.
  - do 5 right. left. pose proof Hs as Hret. apply score_pronunciation_return in Hret.
    destruct (score_body_return _ _ _ _ _ Hret) as (_ & transcription & _ & Hall).
    rewrite (Hall false) in Hret. injection Hret as <-.
    pose proof (returned_result_bounds E transcription (normalise audio_data)
                  reference_text false) as Hb.
    unfold Api.score_pronunciation_api. rewrite Hs.
    revert Hb Hs. unfold returned_result. cbv zeta.
    destruct (levenshtein E); cbn [andb reported_score]; intros Hb Hs;
      eexists reference_text, audio_data, _; (split; [exact Hreach|]);
      (split; [exact Hs|]); (split; [exact Hb|reflexivity]).
  - do 6 right. destruct (score_pronunciation_raise _ _ _ _ _ Hs) as (cause & _ & ->).
    eexists reference_text, audio_data, _. split; [exact Hreach|].
    split; [exact Hs|].
    unfold Api.score_pronunciation_api. rewrite Hs.
    cbn [Py.str_of_exception]. rewrite marker_found. reflexivity.
Qed.

End RouteProofs.

(** ** The type-specific check on the features of the scorer *)

Section TypeCheckProofs.
Import PhonemeScorer.

Lemma str_in_list_true x l : str_in_list x l = true <-> x ∈ l.
Proof.
  unfold str_in_list. rewrite existsb_exists. split.
  - intros (y & Hy & He). apply String.eqb_eq in He as ->. apply list_elem_of_In. exact Hy.
  - intros Hx. exists x. split; [apply list_elem_of_In; exact Hx|apply String.eqb_refl].
Qed.

Lemma pipeline_features_missing B audio_data sr :
  let features := extract_acoustic_features B audio_data sr in
  fnum features "f1" = None /\ fnum features "energy_max" = None
  /\ fnum features "voicing_rate" = None.
Proof.
  unfold extract_acoustic_features.
  destruct (acoustic_stats B audio_data sr) as [st|e]; cbv zeta.
  - repeat split; vm_compute; reflexivity.
  - repeat split; reflexivity.
Qed.

Lemma pipeline_features_keys B audio_data sr :
  let features := extract_acoustic_features B audio_data sr in
  (exists st, acoustic_stats B audio_data sr = Py.Return st
     /\ fvec features "mfcc_mean" = Some (st_mfcc_mean st)
     /\ fnum features "energy_mean" = Some (st_energy_mean st)
     /\ fnum features "spectral_centroid_mean" = Some (st_spectral_centroid_mean st)
     /\ fnum features "zcr_mean" = Some (st_zcr_mean st))
  \/ (exists e, acoustic_stats B audio_data sr = Py.Raise e /\ features = ∅).
Proof.
  unfold extract_acoustic_features.
  destruct (acoustic_stats B audio_data sr) as [st|e]; cbv zeta.
  - left. exists st. split; [reflexivity|]. repeat split; vm_compute; reflexivity.
  - right. eauto.
Qed.

(** Property X23.

    On the features the scorer extracts itself, the type-specific check
    can only ever fire for a sibilant fricative: the keys [f1],
    [energy_max] and [voicing_rate] the other checks read are never in the
    dictionary. *)
Theorem pipeline_type_check_only_sibilants B audio_data sr phoneme duration :
  check_phoneme_type_quality phoneme (classify_phoneme_detailed phoneme)
    (extract_acoustic_features B audio_data sr) duration <> [] ->
  phoneme ∈ ["s"; "z"; "ʃ"; "ʒ"]
  /\ exists st, acoustic_stats B audio_data sr = Py.Return st
                /\ (st_zcr_mean st < 0.15)%Q
                /\ length (check_phoneme_type_quality phoneme (classify_phoneme_detailed phoneme)
                             (extract_acoustic_features B audio_data sr) duration) = 1%nat.
Proof.
  destruct (pipeline_features_missing B audio_data sr) as (Hf1 & Hmax & Hvr).
  cbv zeta in Hf1, Hmax, Hvr.
  unfold check_phoneme_type_quality. cbv zeta. rewrite Hf1, Hmax, Hvr.
  destruct (String.eqb _ "low_vowel"); [congruence|].
  destruct (String.eqb _ "high_vowel"); [congruence|].
  destruct (String.eqb (classify_phoneme_detailed phoneme) "sibilant_fricative") eqn:Es.
  - intros Hne. split.
    + apply String.eqb_eq in Es. revert Es. unfold classify_phoneme_detailed. cbv zeta.
      repeat match goal with
      | |- context [if str_in_list phoneme ?l then _ else _] =>
          let E := fresh in destruct (str_in_list phoneme l) eqn:E
      end; try discriminate.
      intros _. apply str_in_list_true. assumption.
    + destruct (pipeline_features_keys B audio_data sr) as [(st & Hst & _ & _ & _ & Hz)|(e & He & Hempty)];
        cbv zeta in *.
      * rewrite Hz in Hne |- *. exists st. split; [exact Hst|].
        destruct (Qltb (st_zcr_mean st) 0.15) eqn:Ez; [|congruence].
        apply Qltb_true in Ez. split; [exact Ez|reflexivity].
      * rewrite Hempty in Hne. exfalso. apply Hne. reflexivity.
  - destruct (String.eqb _ "voiceless_stop"); [congruence|].
    destruct (String.eqb _ "voiced_stop"); [congruence|].
    destruct (String.eqb _ "nasal"); congruence.
Qed.

Lemma pipeline_type_check_only_sibilants_witness :
  "s" ∈ ["s"; "z"; "ʃ"; "ʒ"]
  /\ exists st, acoustic_stats Scoring.installed_backend [0.5%Q] 16000 = Py.Return st
                /\ (st_zcr_mean st < 0.15)%Q
                /\ length (check_phoneme_type_quality "s" (classify_phoneme_detailed "s")
                             (extract_acoustic_features Scoring.installed_backend [0.5%Q] 16000)
                             0.1) = 1%nat.
Proof.
  apply (pipeline_type_check_only_sibilants Scoring.installed_backend [0.5%Q] 16000 "s" 0.1).
  vm_compute. discriminate.
Defined.
End TypeCheckProofs.

(** ** The quality assessor *)

Section AssessorProofs.
Import PronunciationQualityAssessor.

Ltac case_tests ph :=
  repeat match goal with
  | |- context [if PhonemeScorer.str_in_list ph ?l then _ else _] =>
      let E := fresh "E" in destruct (PhonemeScorer.str_in_list ph l) eqn:E
  end.

Lemma not_in_other x l l' :
  PhonemeScorer.str_in_list x l = true ->
  (forall y, y ∈ l -> PhonemeScorer.str_in_list y l' = false) ->
  PhonemeScorer.str_in_list x l' = false.
Proof. intros Hx Hall. apply Hall, str_in_list_true, Hx. Qed.

Ltac each_member :=
  let y := fresh in let Hy := fresh in
  intros y Hy; repeat (apply elem_of_cons in Hy as [->|Hy]; [reflexivity|]); inversion Hy.

Lemma classifiers_agree_base phoneme :
  classify_phoneme phoneme = coarse_type (PhonemeScorer.classify_phoneme_detailed phoneme).
Proof.
  unfold classify_phoneme, PhonemeScorer.classify_phoneme_detailed. cbv zeta.
  destruct (PhonemeScorer.str_in_list phoneme
              ["æ"; "ɪ"; "ʊ"; "iː"; "uː"; "ɜː"; "ʌ"; "aɪ"; "aʊ"; "ɔɪ"; "e"; "ɒ"; "ɑː"]) eqn:Ev.
  { case_tests phoneme; reflexivity. }
  destruct (PhonemeScorer.str_in_list phoneme ["f"; "v"; "s"; "z"; "ʃ"; "ʒ"; "θ"; "ð"; "h"]) eqn:Ef.
  { case_tests phoneme; reflexivity. }
  destruct (PhonemeScorer.str_in_list phoneme ["p"; "b"; "t"; "d"; "k"; "g"]) eqn:Es.
  { case_tests phoneme; reflexivity. }
  destruct (PhonemeScorer.str_in_list phoneme ["tʃ"; "dʒ"]) eqn:Ea.
  { rewrite (not_in_other _ _ ["m"; "n"; "ŋ"] Ea) by each_member.
    rewrite (not_in_other _ _ ["l"; "r"] Ea) by each_member.
    rewrite (not_in_other _ _ ["w"; "j"] Ea) by each_member.
    reflexivity. }
  case_tests phoneme; reflexivity.
Qed.

(** Property X24.

    The two classifiers agree up to the finer classes of the scorer, with
    one exception: the affricates, a class of their own for the scorer, are
    [unknown] to the assessor. *)
Theorem classifiers_agree phoneme :
  classify_phoneme phoneme = coarse_type (PhonemeScorer.classify_phoneme_detailed phoneme)
  /\ (phoneme ∈ ["tʃ"; "dʒ"] ->
      PhonemeScorer.classify_phoneme_detailed phoneme = "affricate"
      /\ classify_phoneme phoneme = "unknown").
Proof.
  pose proof (classifiers_agree_base phoneme) as Hagree.
  split; [exact Hagree|].
  intros Hin.
  assert (Hd : PhonemeScorer.classify_phoneme_detailed phoneme = "affricate").
  { repeat (apply elem_of_cons in Hin as [->|Hin]; [reflexivity|]). inversion Hin. }
  split; [exact Hd|]. rewrite Hagree, Hd. reflexivity.
Qed.

Lemma classifiers_agree_witness :
  PhonemeScorer.classify_phoneme_detailed "tʃ" = "affricate"
  /\ classify_phoneme "tʃ" = "unknown".
Proof.
  apply (proj2 (classifiers_agree "tʃ")). apply list_elem_of_here.
Defined.


Ltac crunch :=
  repeat (cbv beta iota;
    match goal with
    | |- context [vowel_spectral_centroid ?s] => destruct (vowel_spectral_centroid s)
    | |- context [match PhonemeScorer.fnum ?f ?k with _ => _ end] =>
        destruct (PhonemeScorer.fnum f k)
    | |- context [if ?c then _ else _] => destruct c
    end); cbv beta iota.

Ltac settle :=
  cbn [fst snd app length];
  repeat split;
  try lia;
  try (intros; discriminate);
  try (split_clamps; lra);
  try (intros H; exfalso; revert H; split_clamps; lra).

Lemma assess_vowel_quality_bounds self features phoneme :
  let r := assess_vowel_quality self features phoneme in
  (53 <= r.1 <= 100)%Q /\ (length r.2 <= 3)%nat /\ (r.2 = [] <-> (r.1 == 100)%Q).
Proof.
  unfold assess_vowel_quality. cbv zeta.
  crunch; settle.
Qed.

Lemma assess_consonant_quality_bounds features phoneme phoneme_type :
  let r := assess_consonant_quality features phoneme phoneme_type in
  (65 <= r.1 <= 100)%Q /\ (length r.2 <= 2)%nat /\ (r.2 = [] <-> (r.1 == 100)%Q).
Proof.
  unfold assess_consonant_quality. cbv zeta.
  crunch; settle.
Qed.

(** Property X25.

    The assessor never scores a phoneme below 53 (a vowel) or 65 (a
    consonant), so its floor at 0 is never reached; it reports at most
    three issues, and a score of 100 exactly when it reports none. *)
Theorem assess_phoneme_quality_bounds self phoneme features duration :
  let r := assess_phoneme_quality self phoneme features duration in
  (53 <= r.1 <= 100)%Q
  /\ (classify_phoneme phoneme <> "vowel" -> (65 <= r.1)%Q)
  /\ (length r.2 <= 3)%nat
  /\ (r.2 = [] <-> (r.1 == 100)%Q).
Proof.
  unfold assess_phoneme_quality. cbv zeta.
  destruct (String.eqb_spec (classify_phoneme phoneme) "vowel") as [Ev|Ev].
  - destruct (assess_vowel_quality_bounds self features phoneme) as (Hb & Hl & Hi).
    cbv zeta in *. repeat split; try tauto; try lra; try lia.
  - destruct (assess_consonant_quality_bounds features phoneme (classify_phoneme phoneme))
      as (Hb & Hl & Hi).
    cbv zeta in *. repeat split; try tauto; try lra; try lia.
Qed.

Lemma assess_phoneme_quality_bounds_witness :
  (65 <= (assess_phoneme_quality __init__ "s" ∅ 0.1).1)%Q.
Proof.
  apply (assess_phoneme_quality_bounds __init__ "s" ∅ 0.1).
  vm_compute. discriminate.
Defined.

(** Property X26.

    Whatever the features and the duration, the assessor gives a liquid, a
    glide, an affricate or a symbol it does not know the full score and no
    issue. *)
Theorem assessor_skips_unlisted_classes self phoneme features duration :
  classify_phoneme phoneme ∈ ["liquid"; "glide"; "unknown"]
  \/ PhonemeScorer.classify_phoneme_detailed phoneme = "affricate" ->
  (assess_phoneme_quality self phoneme features duration).1 == 100
  /\ (assess_phoneme_quality self phoneme features duration).2 = [].
Proof.
  intros H.
  assert (Hc : classify_phoneme phoneme ∈ ["liquid"; "glide"; "unknown"]).
  { destruct H as [H|H]; [exact H|].
    rewrite (classifiers_agree_base phoneme), H.
    apply list_elem_of_lookup_2 with 2%nat. reflexivity. }
  unfold assess_phoneme_quality, assess_consonant_quality. cbv zeta.
  repeat (apply elem_of_cons in Hc as [->|Hc]; [cbn; split; [vm_compute|]; reflexivity|]).
  inversion Hc.
Qed.

Lemma assessor_skips_unlisted_classes_witness :
  (assess_phoneme_quality __init__ "dʒ" ∅ 0.1).2 = [].
Proof.
  apply (assessor_skips_unlisted_classes __init__ "dʒ" ∅ 0.1).
  right. reflexivity.
Defined.
End AssessorProofs.

(** ** The feature extractor, value by value *)

Section ExtractorValueProofs.
Import AcousticFeatureExtractor.
Import PhonemeScorer (fvalue, FNum, FVec, FMat).

Lemma foldl_py_min_le l : forall a, (foldl py_min a l <= a)%Q.
Proof.
  induction l as [|y l IH]; intros a; cbn [foldl]; [lra|].
  specialize (IH (py_min a y)).
  assert (py_min a y <= a)%Q by (split_clamps; lra). lra.
Qed.

Lemma np_min_le_max l : (np_min l <= np_max l)%Q.
Proof.
  unfold np_min, np_max.
  pose proof (foldl_py_min_le l (hd 0%Q l)).
  pose proof (proj1 (foldl_py_max_ge l (hd 0%Q l))). lra.
Qed.

(** Property X27.

    The pitch features are well formed whatever the pitch tracker answers:
    the voicing rate is a proportion and the pitch range is not negative. *)
Theorem f0_features_ranges N self audio :
  exists voicing_rate f0_range,
    extract_f0_features N self audio !! "voicing_rate" = Some (FNum voicing_rate)
    /\ extract_f0_features N self audio !! "f0_range" = Some (FNum f0_range)
    /\ (0 <= voicing_rate <= 1)%Q /\ (0 <= f0_range)%Q.
Proof.
  assert (Hd : exists voicing_rate f0_range,
             f0_defaults !! "voicing_rate" = Some (FNum voicing_rate)
             /\ f0_defaults !! "f0_range" = Some (FNum f0_range)
             /\ (0 <= voicing_rate <= 1)%Q /\ (0 <= f0_range)%Q).
  { exists 0%Q, 0%Q. repeat split; try reflexivity; lra. }
  unfold extract_f0_features.
  destruct (librosa_yin N audio (sr self)) as [f0|e]; [|exact Hd]. cbv zeta.
  set (valid_f0 := filter (fun x => Qgtb x 0 = true) f0).
  destruct (Nat.eqb_spec (length valid_f0) 0) as [|Hne]; [exact Hd|].
  assert (Hvr : (0 <= QofNat (length valid_f0) / QofNat (length f0) <= 1)%Q).
  { pose proof (length_filter (fun x => Qgtb x 0 = true) f0) as Hl. fold valid_f0 in Hl.
    apply ratio_bounds; lia. }
  assert (Hr : (0 <= np_max valid_f0 - np_min valid_f0)%Q).
  { pose proof (np_min_le_max valid_f0). lra. }
  revert Hvr Hr.
  generalize (QofNat (length valid_f0) / QofNat (length f0))%Q
             (np_max valid_f0 - np_min valid_f0)%Q
             (np_mean valid_f0) (np_std N valid_f0) (np_median N valid_f0).
  intros vr rg mean std med Hvr Hr.
  destruct (1 <? length valid_f0)%nat.
  - destruct (linregress_slope N valid_f0) as [slope|]; [|exact Hd].
    exists vr, rg. rewrite !lookup_insert_ne by discriminate.
    repeat split; try (vm_compute; reflexivity); lra.
  - exists vr, rg. rewrite !lookup_insert_ne by discriminate.
    repeat split; try (vm_compute; reflexivity); lra.
Qed.

(** Property X28.

    A buffer of at most ten samples is too short for the linear
    prediction of order 10: all five formant features are 0, and the
    formant analysis is not run at all. *)
Theorem short_audio_has_no_formants N self audio k :
  audio <> [] -> (length audio <= 10)%nat -> k ∈ formant_keys ->
  extract_formant_features N self audio !! k = Some (FNum 0)
  /\ extract_all_features N self audio !! k = Some (FNum 0).
Proof.
  intros Hne Hlen Hk.
  assert (Hf : extract_formant_features N self audio !! k = Some (FNum 0)).
  { unfold extract_formant_features.
    assert (Hd : formant_defaults !! k = Some (FNum 0)).
    { unfold formant_keys in Hk.
      repeat (apply elem_of_cons in Hk as [->|Hk]; [reflexivity|]). inversion Hk. }
    destruct audio as [|first rest]; [exact Hd|]. cbv zeta.
    destruct (Nat.ltb_spec 10 (length (first :: zip_with (fun x prev => (x - 0.97 * prev)%Q)
                                                  rest (first :: rest)))) as [Hlt|_];
      [|exact Hd].
    cbn [length] in Hlt, Hlen. rewrite length_zip_with in Hlt. cbn [length] in Hlt. lia. }
  split; [exact Hf|].
  rewrite lookup_extract_all_features by exact Hne.
  rewrite other_keys_not_temporal, other_keys_not_spectral
    by (rewrite !elem_of_app; auto).
  rewrite Hf. destruct (extract_f0_features N self audio !! k); reflexivity.
Qed.

Lemma short_audio_has_no_formants_witness :
  extract_all_features framing_numeric (__init__ 16000) [0.5%Q; 0.25%Q] !! "f1"
  = Some (FNum 0).
Proof.
  apply (short_audio_has_no_formants framing_numeric (__init__ 16000) [0.5%Q; 0.25%Q] "f1").
  - discriminate.
  - vm_compute. lia.
  - apply list_elem_of_here.
Defined.

(** Property X29.

    The dictionary of [extract_all_features] never holds a key outside the
    29 names of the four extractors. *)
Theorem extract_all_features_known_keys N self audio k :
  is_Some (extract_all_features N self audio !! k) -> k ∈ feature_keys.
Proof.
  unfold extract_all_features.
  destruct (length audio =? 0)%nat.
  { rewrite lookup_empty. intros [v Hv]. discriminate. }
  cbv zeta. unfold update. rewrite <- !elem_of_dom, !dom_union_L, dom_empty_L.
  rewrite dom_extract_f0_features, dom_extract_formant_features,
    dom_extract_spectral_features, dom_extract_temporal_features.
  unfold feature_keys. rewrite !elem_of_app, !elem_of_union.
  destruct (spectral_stats N audio (sr self)), (temporal_stats N audio);
    rewrite ?elem_of_list_to_set; rewrite ?elem_of_empty; tauto.
Qed.

Lemma extract_all_features_known_keys_witness :
  "zcr_mean" ∈ feature_keys.
Proof.
  apply (extract_all_features_known_keys framing_numeric (__init__ 16000)
           (repeat 0.5%Q 1024) "zcr_mean").
  vm_compute. eauto.
Defined.
End ExtractorValueProofs.

(** ** What rounding does to the alignments *)

Section Binary64Proofs.

(** In binary64 the uniform alignment of 49 phonemes over one second ends
    below the total duration. *)
Lemma uniform_alignment_ends_early :
  exists final,
    last (Binary64.simple_uniform_alignment 16000 (replicate 49 "ə") 16000) = Some final
    /\ PrimFloat.ltb final.2 (PrimFloat.div (Binary64.of_nat 16000) (Binary64.of_nat 16000))
       = true.
Proof. eexists. split; vm_compute; reflexivity. Qed.

(** In binary64 the third of three spans clamped to 0.4 s runs from 0.8 to
    1.2000000000000002: its end minus its start exceeds 0.4. *)
Lemma clamped_span_measures_longer :
  exists third,
    Binary64.duration_weighted_alignment PhonemeAligner.__init__ 160000 ["s"; "s"; "s"] 16000
      !! 2%nat = Some third
    /\ PrimFloat.ltb (Binary64.of_Q 0.4) (PrimFloat.sub third.2 third.1.2) = true.
Proof. eexists. split; vm_compute; reflexivity. Qed.

End Binary64Proofs.
